(** * hive-rewarder: delegation ledger, eligibility, allocation, accrual, SBI payouts

  A shallow embedding of the scripts of the repository:

  - [scripts/utils.js]                 ([Utils])
  - [scripts/fetch_real_delegators.js] ([Ledger], [Eligibility], [Allocation],
                                        [Sync], [FetchDelegators])
  - [scripts/fetch_rewards.js]         ([FetchRewards])
  - [scripts/accumulator.js]           ([Accumulator])
  - [scripts/send_sbi.js]              ([SendSBI])

  Numbers.  A JavaScript number is modelled as an exact rational (type [Q]):
  [+], [-], [*], [/] are the exact operations and the comparisons are the
  exact comparisons.  The binary rounding of IEEE doubles, NaN and the
  infinities are not part of this model; the decimal rounding that the code
  asks for explicitly ([toFixed]) is.  Timestamps (milliseconds) are
  integers.  Equality of numbers is [Qeq], written [==].

  Where a property depends on the rounding of doubles (the replay of the
  stored deltas, the merge of an operation delivered again), the ledger is
  given a second time over binary64 ([Binary64], [Ledger64]): every
  operation rounds to the nearest double, ties to even, and an exception
  thrown by the loop is a result of its own.

  Objects.  The delegation history is an object used as a map from
  delegator to an array of entries: a [gmap].  The balances object is
  walked with [Object.entries], whose order decides the order of the
  transfers: an association list in insertion order.  The exclusion [Set]
  is a [gset].  A lookup [object[key]] goes through the prototype chain:
  [Objects] lists the properties of [Object.prototype], which the
  accumulation loop and [Ledger64] take into account. *)

From Stdlib Require Import ZArith QArith Qround Qabs Qpower Lqa Lia Ascii String Sorted.
From stdpp Require Import base option list strings pretty gmap.

#[local] Open Scope Q_scope.

(** ** Numbers *)

Module Num.

(** [a >= b], [a > b], [a < b], [a <= b] on numbers, as booleans. *)
Definition geb (a b : Q) : bool := Qle_bool b a.
Definition gtb (a b : Q) : bool := negb (Qle_bool a b).
Definition ltb (a b : Q) : bool := negb (Qle_bool b a).
Definition leb (a b : Q) : bool := Qle_bool a b.

(** [Math.max], [Math.min], [Math.abs]. *)
Definition Math_max (a b : Q) : Q := if Qle_bool a b then b else a.
Definition Math_min (a b : Q) : Q := if Qle_bool a b then a else b.
Definition Math_abs (a : Q) : Q := Qabs a.

(** [10^d] as a number. *)
Definition scale (d : nat) : Q := inject_Z (10 ^ Z.of_nat d).

(** The integer nearest to a non-negative [y], the larger one on a tie:
    this is the integer [n] that [Number.prototype.toFixed] picks. *)
Definition nearest (y : Q) : Z := Qfloor (y + (1 # 2)).

(** [parseFloat(x.toFixed(d))]: [x] rounded to [d] decimals, half away
    from zero (toFixed rounds the absolute value and restores the sign).
    The result is kept in lowest terms. *)
Definition toFixed (d : nat) (x : Q) : Q :=
  if Qle_bool 0 x
  then Qred (inject_Z (nearest (x * scale d)) / scale d)
  else Qred (- (inject_Z (nearest ((- x) * scale d)) / scale d)).

(** Sum of an array of numbers, left to right from 0. *)
Definition sum (l : list Q) : Q := fold_left Qplus l 0.

End Num.
Export Num.

(** ** scripts/utils.js *)

Module Utils.

(** [getMultiplier], earlier version of the file (the dashboard has the same
    function): a hard step. *)
Definition getMultiplier_step (totalDelegationHP : Q) : Q :=
  if ltb totalDelegationHP 10000 then 3 else 1.

(** [getMultiplier], current version: piecewise linear, clamped from below
    at 0.5 and rounded to three decimals.  [Number(x) || 0] leaves a number
    as it is (it maps 0 to 0). *)
Definition getMultiplier (totalDelegationHP : Q) : Q :=
  let totalHP := totalDelegationHP in
  let m :=
    if ltb totalHP 10000 then 3
    else if ltb totalHP 20000 then 3 - ((totalHP - 10000) / 10000)
    else if ltb totalHP 30000 then 2 - ((totalHP - 20000) / 10000)
    else if ltb totalHP 40000 then 1 - ((totalHP - 30000) / 10000) * (1 # 2)
    else (1 # 2) in
  let m := Math_max (1 # 2) m in
  toFixed 3 m.

(** [formatHIVE(amount, decimals = 3)]. *)
Definition formatHIVE (amount : Q) : Q := toFixed 3 amount.

(** The result of [loadJSON] depends on the file: absent, present but not
    parsable, or parsed. *)
Inductive File (A : Type) : Type :=
| Absent
| Unparsable
| Parsed (a : A).
Arguments Absent {A}.
Arguments Unparsable {A}.
Arguments Parsed {A} a.

Definition loadJSON {A : Type} (f : File A) (fallback : A) : A :=
  match f with
  | Parsed a => a
  | Absent | Unparsable => fallback
  end.

(** How a script leaves a piece of code: through [process.exit(code)], by
    an exception nobody inside catches, or normally with a value. *)
Inductive Outcome (A : Type) : Type :=
| Exit (code : Z)
| Uncaught
| Done (a : A).
Arguments Exit {A} code.
Arguments Uncaught {A}.
Arguments Done {A} a.

(** The exit code of the process when the outcome is that of a whole script:
    the handlers at the bottom of the scripts turn an escaped exception into
    [process.exit(1)], and a script that runs to its end exits with 0. *)
Definition exit_code {A : Type} (o : Outcome A) : Z :=
  match o with
  | Exit code => code
  | Uncaught => 1
  | Done _ => 0
  end.

End Utils.
Export Utils.

(** ** Numbers as the code has them: IEEE 754 binary64 *)

Module Binary64.

(** [2^e]. *)
Definition pow2 (e : Z) : Q := 2 ^ e.

(** The exponent of the leading bit of a positive number: the [k] with
    [2^k <= x < 2^(k+1)]. *)
Definition ilog2 (x : Q) : Z :=
  let k := (Z.log2 (Qnum x) - Z.log2 (Zpos (Qden x)))%Z in
  if Qle_bool (pow2 k) x then k else (k - 1)%Z.

(** The integer nearest to a non-negative [y], the even one on a tie. *)
Definition half_even (y : Q) : Z :=
  let f := Qfloor y in
  match Qcompare (y - inject_Z f) (1 # 2) with
  | Lt => f
  | Gt => (f + 1)%Z
  | Eq => if Z.even f then f else (f + 1)%Z
  end.

(** The exponent of the last bit of the significand of the doubles around
    [x]: 53 bits of precision, and nothing finer than [2^-1074]. *)
Definition ulp_exponent (x : Q) : Z := Z.max (ilog2 (Qabs x) - 52) (-1074).

(** Rounding to the nearest double, ties to even.  This is the IEEE
    result whenever that result is finite, that is, below [2^1024] in
    absolute value; infinities and NaN are not values of this model. *)
Definition round64 (x : Q) : Q :=
  if Qeq_bool x 0 then 0
  else
    let e := ulp_exponent x in
    let m := half_even (Qabs x / pow2 e) in
    let r := inject_Z m * pow2 e in
    Qred (if Qle_bool 0 x then r else - r).

(** [+], [-], [*], [/] on doubles, [/] for a divisor other than 0. *)
Definition fadd (x y : Q) : Q := round64 (x + y).
Definition fsub (x y : Q) : Q := round64 (x - y).
Definition fmul (x y : Q) : Q := round64 (x * y).
Definition fdiv (x y : Q) : Q := round64 (x / y).

(** [parseFloat] of a decimal numeral, given as the rational it denotes. *)
Definition parseFloat (x : Q) : Q := round64 x.

(** The unit roundoff [2^-53]. *)
Definition u : Q := pow2 (-53).

(** The numbers that are multiples of [2^-1074], as every double is. *)
Definition grid (x : Q) : Prop := exists k : Z, x == inject_Z k * pow2 (-1074).

End Binary64.

(** ** Plain objects *)

Module Objects.

(** The properties that every plain object inherits from
    [Object.prototype], each with the [length] of the inherited value:
    the number of parameters of the function, [None] for [__proto__],
    whose value is [Object.prototype] itself and has no [length].  For a
    key that is not the object's own, [object[key]] is that value, which is
    truthy. *)
Definition Object_prototype : list (string * option nat) :=
  [ ("constructor", Some 1%nat); ("__defineGetter__", Some 2%nat);
    ("__defineSetter__", Some 2%nat); ("hasOwnProperty", Some 1%nat);
    ("__lookupGetter__", Some 1%nat); ("__lookupSetter__", Some 1%nat);
    ("isPrototypeOf", Some 1%nat); ("propertyIsEnumerable", Some 1%nat);
    ("toString", Some 0%nat); ("valueOf", Some 0%nat); ("__proto__", None);
    ("toLocaleString", Some 0%nat) ]%string.

Fixpoint assoc {A : Type} (key : string) (l : list (string * A)) : option A :=
  match l with
  | [] => None
  | (k, v) :: rest => if String.eqb k key then Some v else assoc key rest
  end.

(** The [length] of the value inherited under [key], if there is one. *)
Definition inherited (key : string) : option (option nat) :=
  assoc key Object_prototype.

End Objects.

(** ** scripts/fetch_real_delegators.js: the delegation ledger *)

Module Ledger.

(** One entry of the account history, [[index, op]], with the fields the
    scripts read: [op.op[0]] selects the constructor of [OpData], [op.op[1]]
    are its arguments with [parseFloat] already applied to amounts such as
    ["1234.567890 VESTS"], and [op.timestamp] is given in milliseconds, as
    [new Date(op.timestamp + 'Z').getTime()] returns it. *)
Inductive OpData : Type :=
| delegate_vesting_shares (delegator delegatee : string) (vesting_shares : Q)
| claim_reward_balance (reward_vests : Q)
| other_operation (type : string).

Record Operation : Type := {
  op_timestamp : Z;
  op : OpData;
}.

Definition RawHistory : Type := list (Z * Operation).

(** An element of [delegationHistory[delegator]]. *)
Record Entry : Type := {
  vests : Q;
  totalVests : Q;
  hp : Q;
  timestamp : Z;
  date : string;
}.

(** An element of [delegationEvents] in [buildDelegationHistory]. *)
Record DelegationEvent : Type := {
  ev_delegator : string;
  ev_totalVests : Q;
  ev_hp : Q;
  ev_timestamp : Z;
  ev_date : string;
}.

Definition vestsToHP (vests totalVestingFundHive totalVestingShares : Q) : Q :=
  (vests * totalVestingFundHive) / totalVestingShares.

(** [new Date(timestamp).toISOString().split('T')[0]], for years 0000 to
    9999: the civil date of the day number [timestamp / 86400000]. *)
Definition civil_from_days (z : Z) : Z * Z * Z :=
  let z := (z + 719468)%Z in
  let era := (z / 146097)%Z in
  let doe := (z - era * 146097)%Z in
  let yoe := ((doe - doe / 1460 + doe / 36524 - doe / 146096) / 365)%Z in
  let doy := (doe - (365 * yoe + yoe / 4 - yoe / 100))%Z in
  let mp := ((5 * doy + 2) / 153)%Z in
  let d := (doy - (153 * mp + 2) / 5 + 1)%Z in
  let m := (if (mp <? 10)%Z then mp + 3 else mp - 9)%Z in
  let y := (yoe + era * 400 + (if (m <=? 2)%Z then 1 else 0))%Z in
  (y, m, d).

Definition pad (width : nat) (n : Z) : string :=
  let s := pretty n in
  String.concat "" (replicate (width - String.length s) "0"%string) +:+ s.

Definition isoDate (timestamp : Z) : string :=
  let '(y, m, d) := civil_from_days (timestamp / 86400000) in
  pad 4 y +:+ "-" +:+ pad 2 m +:+ "-" +:+ pad 2 d.

(** [Array.prototype.sort] with a comparator: a stable sort.  [before a b]
    says that the comparator does not put [b] strictly first. *)
Fixpoint insert_sorted {A : Type} (before : A -> A -> bool) (x : A) (l : list A) : list A :=
  match l with
  | [] => [x]
  | y :: l' => if before x y then x :: y :: l' else y :: insert_sorted before x l'
  end.

Definition stable_sort {A : Type} (before : A -> A -> bool) (l : list A) : list A :=
  foldr (insert_sorted before) [] l.

Abbreviation History := (gmap string (list Entry)).

(** The total of the last stored entry, [0] for an empty array. *)
Definition previousTotal (previousEvents : list Entry) : Q :=
  match last previousEvents with
  | Some e => totalVests e
  | None => 0
  end.

Definition epsilon : Q := 1 # 1000000.

(** The body shared by the loop of [buildDelegationHistory] and the inner
    block of [mergeNewDelegationEvents]: make sure the delegator has an
    array, compute the delta against the last stored total, and push an
    entry when the delta is larger than epsilon in absolute value. *)
Definition push_delta (delegationHistory : History)
    (delegator : string) (totalVests0 hp0 : Q) (timestamp0 : Z) (date0 : string) : History :=
  let delegationHistory :=
    match delegationHistory !! delegator with
    | None => <[delegator := []]> delegationHistory
    | Some _ => delegationHistory
    end in
  let previousEvents := default [] (delegationHistory !! delegator) in
  let deltaVests := totalVests0 - previousTotal previousEvents in
  if gtb (Math_abs deltaVests) epsilon
  then <[delegator := previousEvents ++
           [ {| vests := deltaVests; totalVests := totalVests0; hp := hp0;
                timestamp := timestamp0; date := date0 |} ] ]> delegationHistory
  else delegationHistory.

Section WithAccount.

Variable ACCOUNT : string.

(** First loop of [buildDelegationHistory]. *)
Definition delegationEvents (rawHistory : RawHistory)
    (totalVestingFundHive totalVestingShares : Q) : list DelegationEvent :=
  omap (fun '(_, o) =>
    match op o with
    | delegate_vesting_shares delegator delegatee vesting_shares =>
        let timestamp := op_timestamp o in
        let totalVests := vesting_shares in
        if String.eqb delegatee ACCOUNT
        then
          let hp := vestsToHP totalVests totalVestingFundHive totalVestingShares in
          Some {| ev_delegator := delegator; ev_totalVests := totalVests;
                  ev_hp := toFixed 3 hp; ev_timestamp := timestamp;
                  ev_date := isoDate timestamp |}
        else None
    | _ => None
    end) rawHistory.

Definition by_timestamp (a b : DelegationEvent) : bool :=
  (ev_timestamp a <=? ev_timestamp b)%Z.

Definition build_step (delegationHistory : History) (event : DelegationEvent) : History :=
  push_delta delegationHistory (ev_delegator event) (ev_totalVests event)
    (toFixed 3 (ev_hp event)) (ev_timestamp event) (ev_date event).

Definition buildDelegationHistory (rawHistory : RawHistory)
    (totalVestingFundHive totalVestingShares : Q) : History :=
  fold_left build_step
    (stable_sort by_timestamp
       (delegationEvents rawHistory totalVestingFundHive totalVestingShares))
    ∅.

(** Body of the loop of [mergeNewDelegationEvents]; the operations are taken
    in the order given, nothing is sorted here. *)
Definition merge_step (totalVestingFundHive totalVestingShares : Q)
    (existingHistory : History) (indexed_op : Z * Operation) : History :=
  let o := indexed_op.2 in
  match op o with
  | delegate_vesting_shares delegator delegatee vesting_shares =>
      let timestamp := op_timestamp o in
      let totalVests := vesting_shares in
      if String.eqb delegatee ACCOUNT
      then
        let hp := vestsToHP totalVests totalVestingFundHive totalVestingShares in
        push_delta existingHistory delegator totalVests (toFixed 3 hp)
          timestamp (isoDate timestamp)
      else existingHistory
  | _ => existingHistory
  end.

Definition mergeNewDelegationEvents (existingHistory : History)
    (newOperations : RawHistory) (totalVestingFundHive totalVestingShares : Q) : History :=
  fold_left (merge_step totalVestingFundHive totalVestingShares)
    newOperations existingHistory.

(** The histories the sync step can hold: built from scratch on the first
    run, then merged into, run after run (the conversion rate changes from
    run to run). *)
Inductive produced : History -> Prop :=
| produced_build rawHistory fund shares :
    produced (buildDelegationHistory rawHistory fund shares)
| produced_merge existingHistory newOperations fund shares :
    produced existingHistory ->
    produced (mergeNewDelegationEvents existingHistory newOperations fund shares).

End WithAccount.

(** Replaying the stored deltas of one delegator, in order. *)
Definition replay (events : list Entry) : Q := sum (map vests events).

End Ledger.

(** ** The ledger in binary64

    [buildDelegationHistory] and [mergeNewDelegationEvents] once more, with
    the numbers as the code has them: every amount is a double, and [-],
    [*], [/] round.  [None] stands for a TypeError, which [main] turns into
    exit code 1. *)

Module Ledger64.
Import Ledger Binary64 Objects.

(** The literal [0.000001]. *)
Definition epsilon : Q := parseFloat (1 # 1000000).

Definition vestsToHP (vests totalVestingFundHive totalVestingShares : Q) : Q :=
  fdiv (fmul vests totalVestingFundHive) totalVestingShares.

(** [parseFloat(x.toFixed(d))]: [toFixed] works on the exact value of the
    double. *)
Definition toFixed (d : nat) (x : Q) : Q := parseFloat (Num.toFixed d x).

(** The test and the push that end the body of both loops, on the array
    [previousEvents] of the delegator. *)
Definition push (delegationHistory : History) (delegator : string)
    (previousEvents : list Entry) (totalVests0 hp0 : Q) (timestamp0 : Z)
    (date0 : string) : History :=
  let deltaVests := fsub totalVests0 (previousTotal previousEvents) in
  if gtb (Math_abs deltaVests) epsilon
  then <[delegator := previousEvents ++
           [ {| vests := deltaVests; totalVests := totalVests0; hp := hp0;
                timestamp := timestamp0; date := date0 |} ] ]> delegationHistory
  else delegationHistory.

(** The body shared by the two loops.  When the delegator is not a key of
    the object but [Object.prototype] has a property of that name,
    [!delegationHistory[delegator]] is false and [previousEvents] is the
    inherited value: with a [length] above 0 its last element is
    [undefined], whose [totalVests] cannot be read, and otherwise the
    previous total is 0 and [push] is not a function. *)
Definition push_delta (delegationHistory : History)
    (delegator : string) (totalVests0 hp0 : Q) (timestamp0 : Z) (date0 : string)
    : option History :=
  match delegationHistory !! delegator with
  | Some previousEvents =>
      Some (push delegationHistory delegator previousEvents totalVests0 hp0
              timestamp0 date0)
  | None =>
      match inherited delegator with
      | None =>
          Some (push (<[delegator := []]> delegationHistory) delegator []
                  totalVests0 hp0 timestamp0 date0)
      | Some (Some (S _)) => None
      | Some _ =>
          let deltaVests := fsub totalVests0 0 in
          if gtb (Math_abs deltaVests) epsilon then None
          else Some delegationHistory
      end
  end.

Section WithAccount.

Variable ACCOUNT : string.

(** First loop of [buildDelegationHistory]; [vesting_shares] is the amount
    as the operation writes it. *)
Definition delegationEvents (rawHistory : RawHistory)
    (totalVestingFundHive totalVestingShares : Q) : list DelegationEvent :=
  omap (fun '(_, o) =>
    match op o with
    | delegate_vesting_shares delegator delegatee vesting_shares =>
        let timestamp := op_timestamp o in
        let totalVests := parseFloat vesting_shares in
        if String.eqb delegatee ACCOUNT
        then
          let hp := vestsToHP totalVests totalVestingFundHive totalVestingShares in
          Some {| ev_delegator := delegator; ev_totalVests := totalVests;
                  ev_hp := toFixed 3 hp; ev_timestamp := timestamp;
                  ev_date := isoDate timestamp |}
        else None
    | _ => None
    end) rawHistory.

Definition build_step (delegationHistory : option History) (event : DelegationEvent)
    : option History :=
  match delegationHistory with
  | None => None
  | Some delegationHistory =>
      push_delta delegationHistory (ev_delegator event) (ev_totalVests event)
        (toFixed 3 (ev_hp event)) (ev_timestamp event) (ev_date event)
  end.

Definition buildDelegationHistory (rawHistory : RawHistory)
    (totalVestingFundHive totalVestingShares : Q) : option History :=
  fold_left build_step
    (stable_sort by_timestamp
       (delegationEvents rawHistory totalVestingFundHive totalVestingShares))
    (Some ∅).

Definition merge_step (totalVestingFundHive totalVestingShares : Q)
    (existingHistory : option History) (indexed_op : Z * Operation) : option History :=
  match existingHistory with
  | None => None
  | Some existingHistory =>
      let o := indexed_op.2 in
      match op o with
      | delegate_vesting_shares delegator delegatee vesting_shares =>
          let timestamp := op_timestamp o in
          let totalVests := parseFloat vesting_shares in
          if String.eqb delegatee ACCOUNT
          then
            let hp := vestsToHP totalVests totalVestingFundHive totalVestingShares in
            push_delta existingHistory delegator totalVests (toFixed 3 hp)
              timestamp (isoDate timestamp)
          else Some existingHistory
      | _ => Some existingHistory
      end
  end.

Definition mergeNewDelegationEvents (existingHistory : History)
    (newOperations : RawHistory) (totalVestingFundHive totalVestingShares : Q)
    : option History :=
  fold_left (merge_step totalVestingFundHive totalVestingShares)
    newOperations (Some existingHistory).

(** The histories the sync step can hold: built on the first run, then
    merged into, run after run. *)
Inductive produced : History -> Prop :=
| produced_build rawHistory fund shares h :
    buildDelegationHistory rawHistory fund shares = Some h -> produced h
| produced_merge existingHistory newOperations fund shares h :
    produced existingHistory ->
    mergeNewDelegationEvents existingHistory newOperations fund shares = Some h ->
    produced h.

End WithAccount.

(** Summing the stored deltas of one delegator, in order, as [main] does
    with [runningBalance += event.vests]. *)
Definition replay (events : list Entry) : Q :=
  fold_left fadd (map vests events) 0.

(** The claim that replaying is exact. *)
Definition replay_reproduces_total (ACCOUNT : string) : Prop :=
  forall h delegator events latest,
    produced ACCOUNT h ->
    h !! delegator = Some events ->
    last events = Some latest ->
    replay events == totalVests latest.



(** What holds of every stored array: the totals are doubles, and each
    delta is the rounded difference between its total and the total stored
    before it. *)
Definition chained (events : list Entry) : Prop :=
  forall i e, events !! i = Some e ->
    grid (totalVests e) /\
    vests e = fsub (totalVests e) (previousTotal (take i events)).

(** Every array of the history is [chained]. *)
Definition all_chained (h : History) : Prop :=
  forall d es, h !! d = Some es -> chained es.


End Ledger64.

(** ** scripts/fetch_real_delegators.js: eligibility and allocation ([main]) *)

Module Eligibility.
Import Ledger.

Definition by_event_time (a b : Entry) : bool := (timestamp a <=? timestamp b)%Z.

(** One turn of the inner loop over [sortedEvents]; the state is
    [(runningBalance, eligibleVests)]. *)
Definition walk_step (cutoff : Z) (st : Q * Q) (event : Entry) : Q * Q :=
  let '(runningBalance, eligibleVests) := st in
  let eventTime := timestamp event in
  let runningBalance := runningBalance + vests event in
  let isEventEligible := (eventTime <=? cutoff)%Z in
  if isEventEligible
  then (runningBalance, Math_max 0 runningBalance)
  else (runningBalance, eligibleVests).

Definition walk (cutoff : Z) (events : list Entry) : Q * Q :=
  fold_left (walk_step cutoff) (stable_sort by_event_time events) (0, 0).

(** [runningBalance] after the walk. *)
Definition runningBalance (events : list Entry) (cutoff : Z) : Q :=
  (walk cutoff events).1.

(** [currentDelegation = Math.max(0, runningBalance)]. *)
Definition currentDelegation (events : list Entry) (cutoff : Z) : Q :=
  Math_max 0 (runningBalance events cutoff).

(** [eligibleVests] after the clamp
    [eligibleVests = Math.min(eligibleVests, currentDelegation)]. *)
Definition eligibleVests (events : list Entry) (cutoff : Z) : Q :=
  Math_min (walk cutoff events).2 (currentDelegation events cutoff).

(** The loop over [Object.entries(delegationHistory)]: the pair
    [(eligibleDelegators, eligibleTotalHP)], the first as the list of its
    entries in insertion order. *)
Definition eligible_step (cutoff : Z) (totalVestingFundHive totalVestingShares : Q)
    (acc : list (string * Q) * Q) (kv : string * list Entry) : list (string * Q) * Q :=
  let '(eligibleDelegators, eligibleTotalHP) := acc in
  let '(delegator, events) := kv in
  let ev := eligibleVests events cutoff in
  if gtb ev 0
  then
    let eligibleHP := vestsToHP ev totalVestingFundHive totalVestingShares in
    (eligibleDelegators ++ [(delegator, eligibleHP)], eligibleTotalHP + eligibleHP)
  else acc.

Definition eligibleDelegators (delegationHistory : History) (cutoff : Z)
    (totalVestingFundHive totalVestingShares : Q) : list (string * Q) * Q :=
  fold_left (eligible_step cutoff totalVestingFundHive totalVestingShares)
    (map_to_list delegationHistory) ([], 0).

End Eligibility.

Module Allocation.

(** An element of [delegatorData], which becomes [delegators] in
    [payout_summary.json]. *)
Record DelegatorData : Type := {
  name : string;
  dd_hp : Q;
  base_reward : Q;
}.

Record PayoutSummary : Type := {
  summary_date : string;
  total_delegation_hp : Q;
  total_curation_hive : Q;
  distributable_hive : Q;
  delegators : list DelegatorData;
}.

(** [(a, b) => b[1] - a[1]]: larger stake first. *)
Definition by_hp_desc (a b : string * Q) : bool := Qle_bool b.2 a.2.

Definition sortedDelegators (eligibleDelegators : list (string * Q)) : list (string * Q) :=
  Ledger.stable_sort by_hp_desc eligibleDelegators.

(** The reward of one delegator: its share of [distributable], rounded once
    to six decimals. *)
Definition baseReward (distributable eligibleTotalHP hp : Q) : Q :=
  let share := hp / eligibleTotalHP in
  toFixed 6 (distributable * share).

(** The loop that fills [delegatorData]. *)
Definition allocate (eligibleDelegators : list (string * Q))
    (eligibleTotalHP distributable : Q) : list DelegatorData :=
  map (fun '(delegator, hp) =>
         {| name := delegator;
            dd_hp := toFixed 3 hp;
            base_reward := baseReward distributable eligibleTotalHP hp |})
      (sortedDelegators eligibleDelegators).

(** [eligibleTotalHP] as [main] accumulates it over the eligible
    delegators. *)
Definition totalHP (eligibleDelegators : list (string * Q)) : Q :=
  sum (map snd eligibleDelegators).

(** [getActiveDelegators] reads [events[events.length - 1].totalVests]: an
    empty array raises a TypeError, which [main] catches and turns into
    exit code 1. *)
Definition getActiveDelegators (delegationHistory : Ledger.History) : option (list (string * Q)) :=
  foldr (fun '(delegator, events) acc =>
           match last events, acc with
           | Some latest, Some active =>
               if gtb (Ledger.totalVests latest) 0 && gtb (Ledger.hp latest) 0
               then Some ((delegator, Ledger.hp latest) :: active)
               else Some active
           | _, _ => None
           end)
        (Some []) (map_to_list delegationHistory).

(** The part of [main] after [delegation_history.json] is saved.
    [totalCurationHive] is what [getCurationRewards] returned, [cutoff] is
    midnight in Manila six days back, [today] is [getTodayUTC()]. *)
Definition main_summary (delegationHistory : Ledger.History)
    (totalCurationHive : Q) (cutoff : Z) (today : string)
    (totalVestingFundHive totalVestingShares : Q) : Outcome PayoutSummary :=
  match getActiveDelegators delegationHistory with
  | None => Exit 1
  | Some activeDelegators =>
      if Nat.eqb (length activeDelegators) 0 then Exit 0
      else
        let '(eligible, eligibleTotalHP) :=
          Eligibility.eligibleDelegators delegationHistory cutoff
            totalVestingFundHive totalVestingShares in
        if Qeq_bool eligibleTotalHP 0 then Exit 0
        else
          let distributable := totalCurationHive * (95 # 100) in
          Done {| summary_date := today;
                  total_delegation_hp := toFixed 3 eligibleTotalHP;
                  total_curation_hive := toFixed 6 totalCurationHive;
                  distributable_hive := toFixed 6 distributable;
                  delegators := allocate eligible eligibleTotalHP distributable |}
  end.

End Allocation.

(** ** scripts/fetch_rewards.js *)

Module FetchRewards.

(** What [payout_summary.json] holds once parsed, as far as the scripts look
    at it.  A field is [None] when it is missing or fails the test the code
    applies to it: [date] and [name] must be truthy (strings here, so a
    missing or empty string is [None] or [Some ""]), [total_delegation_hp]
    and [base_reward] must have type number, [delegators] must be an array;
    an element of the array that is [null] is [None]. *)
Record RawDelegator : Type := {
  raw_name : option string;
  raw_base_reward : option Q;
}.

Record RawSummary : Type := {
  raw_date : option string;
  raw_total_delegation_hp : option Q;
  raw_total_curation_hive : option Q;
  raw_distributable_hive : option Q;
  raw_delegators : option (list (option RawDelegator));
}.

(** The parsed document: a falsy value ([null], which is also the fallback
    [fetchRewards] gives to [loadJSON], [false], [0], the empty string) or
    anything else, read through its fields. *)
Inductive SummaryDoc : Type :=
| Falsy
| Document (s : RawSummary).

(** What [fetchRewards] hands to [accumulate], which reads [date],
    [total_delegation_hp] and, of each delegator, [name] and [base_reward]. *)
Record Summary : Type := {
  date : string;
  total_delegation_hp : Q;
  delegators : list (string * Q);
}.

Definition truthy (s : option string) : bool :=
  match s with
  | Some s => negb (String.eqb s "")
  | None => false
  end.

(** The validation loop over [payoutSummary.delegators]. *)
Fixpoint validate_delegators (ds : list (option RawDelegator)) : Outcome (list (string * Q)) :=
  match ds with
  | [] => Done []
  | None :: _ => Uncaught
  | Some d :: rest =>
      match raw_name d, raw_base_reward d with
      | Some n, Some r =>
          if negb (String.eqb n "")
          then match validate_delegators rest with
               | Done l => Done ((n, r) :: l)
               | Exit c => Exit c
               | Uncaught => Uncaught
               end
          else Exit 1
      | _, _ => Exit 1
      end
  end.

Definition fetchRewards (payout_summary_json : File SummaryDoc) : Outcome Summary :=
  match loadJSON payout_summary_json Falsy with
  | Falsy => Exit 1
  | Document payoutSummary =>
      if negb (truthy (raw_date payoutSummary)) then Exit 1
      else match raw_total_delegation_hp payoutSummary with
      | None => Exit 1
      | Some hp =>
          match raw_delegators payoutSummary with
          | None | Some [] => Exit 1
          | Some ds =>
              match validate_delegators ds with
              | Done l =>
                  Done {| date := default "" (raw_date payoutSummary);
                          total_delegation_hp := hp;
                          delegators := l |}
              | Exit c => Exit c
              | Uncaught => Uncaught
              end
          end
      end
  end.

(** [saveJSON('payout_summary.json', payoutSummary)] followed by a later
    [loadJSON]: what is read of the summary that [main] of
    fetch_real_delegators.js writes. *)
Definition written (s : Allocation.PayoutSummary) : RawSummary :=
  {| raw_date := Some (Allocation.summary_date s);
     raw_total_delegation_hp := Some (Allocation.total_delegation_hp s);
     raw_total_curation_hive := Some (Allocation.total_curation_hive s);
     raw_distributable_hive := Some (Allocation.distributable_hive s);
     raw_delegators :=
       Some (map (fun d => Some {| raw_name := Some (Allocation.name d);
                                   raw_base_reward := Some (Allocation.base_reward d) |})
                 (Allocation.delegators s)) |}.

End FetchRewards.

(** ** scripts/send_sbi.js *)

Module SendSBI.

(** [delegator_balances.json]: an object from delegator to an entry.  The
    field [total_sent] may be missing, which [data.total_sent || 0] covers. *)
Record BalanceEntry : Type := {
  balance : Q;
  total_sent : option Q;
  last_updated : string;
}.

Abbreviation Balances := (list (string * BalanceEntry)).

(** An element of [sbi_log.json]. *)
Record LogEntry : Type := {
  log_date : string;
  log_delegator : string;
  sent : Q;
}.

(** [config.json]; the list is [None] when [excluded_from_sbi] is missing or
    not an array. *)
Record Config : Type := {
  excluded_from_sbi : option (list string);
}.

(** The environment variables read when the module is loaded. *)
Record Env : Type := {
  IS_DRY_RUN : bool;
  HIVE_USER : string;
  ACTIVE_KEY : string;
  SBI_EXCLUDE : option string;
}.

(** The files of the data directory the accumulation and payout scripts
    use: the durable state. *)
Record Disk : Type := {
  delegator_balances_json : File Balances;
  sbi_log_json : File (list LogEntry);
  config_json : File Config;
  payout_summary_json : File FetchRewards.SummaryDoc;
}.

(** The Hive nodes seen from the script: [outcome n] tells whether the
    [n]-th call of [hive.broadcast.transfer] of the process is confirmed,
    [calls] counts the calls made, [currentNodeIndex] is the module's
    variable of that name. *)
Record Net : Type := {
  outcome : nat -> bool;
  calls : nat;
  currentNodeIndex : nat;
}.

(** What a run does to the outside, in order. *)
Inductive Effect : Type :=
| Transfer (delegator : string) (node : nat) (memo : string) (amount : Q) (confirmed : bool)
| DryRunSend (delegator : string) (memo : string)
| Save_balances (balances : Balances)
| Save_log (sbiLog : list LogEntry).

Definition SBI_CHUNK : Q := 1.

Definition HIVE_NODES : list string :=
  [ "https://api.hive.blog"; "https://api.openhive.network";
    "https://anyx.io"; "https://rpc.ecency.com" ]%string.

(** [String.prototype.toLowerCase] on the ASCII letters; other bytes are
    left as they are. *)
Definition lower_ascii (c : ascii) : ascii :=
  let n := nat_of_ascii c in
  if (65 <=? n)%nat && (n <=? 90)%nat then ascii_of_nat (n + 32) else c.

Fixpoint toLowerCase (s : string) : string :=
  match s with
  | EmptyString => EmptyString
  | String c s' => String (lower_ascii c) (toLowerCase s')
  end.

(** [s.split(',')]. *)
Fixpoint split_comma_aux (cur : string) (s : string) : list string :=
  match s with
  | EmptyString => [String.rev cur]
  | String c s' =>
      if Ascii.eqb c ","%char
      then String.rev cur :: split_comma_aux EmptyString s'
      else split_comma_aux (String c cur) s'
  end.

Definition split_comma (s : string) : list string := split_comma_aux EmptyString s.

(** [String.prototype.trim] for the ASCII white space (tab, line feed,
    vertical tab, form feed, carriage return, space). *)
Definition is_space (c : ascii) : bool :=
  let n := nat_of_ascii c in
  ((9 <=? n)%nat && (n <=? 13)%nat) || Nat.eqb n 32.

Fixpoint trim_start (s : string) : string :=
  match s with
  | EmptyString => EmptyString
  | String c s' => if is_space c then trim_start s' else s
  end.

Definition trim (s : string) : string :=
  String.rev (trim_start (String.rev (trim_start s))).

Definition nonempty (s : string) : bool := negb (String.eqb s "").

(** [fromFile] and [fromEnv] of [getExcludedDelegators]. *)
Definition fromFile (config_json : File Config) : list string :=
  let cfg := loadJSON config_json {| excluded_from_sbi := None |} in
  default [] (excluded_from_sbi cfg).

Definition fromEnv (env : Env) : list string :=
  filter (fun s => nonempty s = true)
    (map trim (split_comma (default ""%string (SBI_EXCLUDE env)))).

Definition getExcludedDelegators (env : Env) (config_json : File Config) : gset string :=
  list_to_set (map toLowerCase (fromFile config_json ++ fromEnv env)).

(** [excluded.has(delegator.toLowerCase())]. *)
Definition is_excluded (excluded : gset string) (delegator : string) : bool :=
  bool_decide (toLowerCase delegator ∈ excluded).

Definition setNextNode (net : Net) : Net :=
  {| outcome := outcome net;
     calls := calls net;
     currentNodeIndex := (currentNodeIndex net + 1) mod length HIVE_NODES |}.

Definition memo_of (env : Env) (delegator : string) : string :=
  "@" +:+ HIVE_USER env +:+ ":@" +:+ delegator.

(** The retry loop of [sendSBI]; [remaining] attempts are left, the current
    one included, so that [attempt < retries] reads [remaining > 1]. *)
Fixpoint try_transfer (remaining : nat) (env : Env) (delegator : string) (net : Net)
    : bool * Net * list Effect :=
  match remaining with
  | O => (false, net, [])
  | S remaining' =>
      let confirmed := outcome net (calls net) in
      let effect := Transfer delegator (currentNodeIndex net)
                      (memo_of env delegator) SBI_CHUNK confirmed in
      let net := {| outcome := outcome net; calls := S (calls net);
                    currentNodeIndex := currentNodeIndex net |} in
      if confirmed then (true, net, [effect])
      else
        let net := match remaining' with O => net | S _ => setNextNode net end in
        let '(success, net, effects) := try_transfer remaining' env delegator net in
        (success, net, effect :: effects)
  end.

Definition sendSBI (env : Env) (delegator : string) (net : Net)
    : bool * Net * list Effect :=
  if IS_DRY_RUN env then (true, net, [DryRunSend delegator (memo_of env delegator)])
  else if String.eqb (ACTIVE_KEY env) "" then (false, net, [])
  else try_transfer 3 env delegator net.

Definition orZero (x : option Q) : Q := default 0 x.

(** What a piece of the run leaves behind: a value, the entries it pushed
    to [sbiLog], the nodes, and its effects, both in order. *)
Record Step (A : Type) : Type := {
  value : A;
  pushed : list LogEntry;
  net : Net;
  effects : list Effect;
}.
Arguments value {A} s.
Arguments pushed {A} s.
Arguments net {A} s.
Arguments effects {A} s.

(** What the [success] branch does to [data] and what it pushes. *)
Definition confirm (today : string) (data : BalanceEntry) : BalanceEntry :=
  {| balance := formatHIVE (balance data - SBI_CHUNK);
     total_sent := Some (formatHIVE (orZero (total_sent data) + SBI_CHUNK));
     last_updated := today |}.

Definition log_entry (today delegator : string) : LogEntry :=
  {| log_date := today; log_delegator := delegator; sent := SBI_CHUNK |}.

(** [while (data.balance >= SBI_CHUNK) { ... }] for one delegator, whose
    entry is [data].  [None] means that [fuel] turns of the loop were not
    enough to leave it. *)
Fixpoint payout_loop (fuel : nat) (env : Env) (today delegator : string)
    (data : BalanceEntry) (n : Net) : option (Step BalanceEntry) :=
  match fuel with
  | O => None
  | S fuel' =>
      if geb (balance data) SBI_CHUNK
      then
        let '(success, n', effects') := sendSBI env delegator n in
        if success
        then
          match payout_loop fuel' env today delegator (confirm today data) n' with
          | None => None
          | Some r =>
              Some {| value := value r;
                      pushed := log_entry today delegator :: pushed r;
                      net := net r;
                      effects := effects' ++ effects r |}
          end
        else Some {| value := data; pushed := []; net := n'; effects := effects' |}
      else Some {| value := data; pushed := []; net := n; effects := [] |}
  end.

(** Turns that are always enough: a confirmed transfer takes the balance
    down by at least one half. *)
Definition fuel_for (data : BalanceEntry) : nat :=
  S (Z.to_nat (Qfloor (2 * balance data))).

(** Body of the loop over [Object.entries(balances)]. *)
Definition payout_entry (env : Env) (today : string) (excluded : gset string)
    (delegator : string) (data : BalanceEntry) (n : Net) : option (Step BalanceEntry) :=
  if String.eqb delegator "_meta"
  then Some {| value := data; pushed := []; net := n; effects := [] |}
  else if is_excluded excluded delegator
  then Some {| value := data; pushed := []; net := n; effects := [] |}
  else payout_loop (fuel_for data) env today delegator data n.

(** The loop over [Object.entries(balances)].  Each [data] is the object
    stored under its key, changed in place: the value is [balances] as it is
    after the loop, with the same keys in the same order. *)
Fixpoint payout_entries (env : Env) (today : string) (excluded : gset string)
    (entries : Balances) (n : Net) : option (Step Balances) :=
  match entries with
  | [] => Some {| value := []; pushed := []; net := n; effects := [] |}
  | (delegator, data) :: entries' =>
      match payout_entry env today excluded delegator data n with
      | None => None
      | Some r1 =>
          match payout_entries env today excluded entries' (net r1) with
          | None => None
          | Some r2 =>
              Some {| value := (delegator, value r1) :: value r2;
                      pushed := pushed r1 ++ pushed r2;
                      net := net r2;
                      effects := effects r1 ++ effects r2 |}
          end
      end
  end.

(** The result of a run: the files, the nodes, and the effects in order. *)
Record Run : Type := {
  disk : Disk;
  net_after : Net;
  trace : list Effect;
}.

Definition save_balances (d : Disk) (b : Balances) : Disk :=
  {| delegator_balances_json := Parsed b;
     sbi_log_json := sbi_log_json d;
     config_json := config_json d;
     payout_summary_json := payout_summary_json d |}.

Definition save_log (d : Disk) (l : list LogEntry) : Disk :=
  {| delegator_balances_json := delegator_balances_json d;
     sbi_log_json := Parsed l;
     config_json := config_json d;
     payout_summary_json := payout_summary_json d |}.

Definition processSBIPayouts (env : Env) (today : string) (d : Disk) (n : Net)
    : option Run :=
  let balances := loadJSON (delegator_balances_json d) [] in
  let sbiLog := loadJSON (sbi_log_json d) [] in
  let excluded := getExcludedDelegators env (config_json d) in
  match payout_entries env today excluded balances n with
  | None => None
  | Some r =>
      let balances := value r in
      let sbiLog := sbiLog ++ pushed r in
      Some {| disk := save_log (save_balances d balances) sbiLog;
              net_after := net r;
              trace := effects r ++ [Save_balances balances; Save_log sbiLog] |}
  end.

(** The files after the effects of a run that stopped somewhere: only the
    saves reach the disk. *)
Definition apply_effect (d : Disk) (e : Effect) : Disk :=
  match e with
  | Save_balances b => save_balances d b
  | Save_log l => save_log d l
  | Transfer _ _ _ _ _ | DryRunSend _ _ => d
  end.

Definition disk_after (d : Disk) (effects : list Effect) : Disk :=
  fold_left apply_effect effects d.

End SendSBI.

(** ** scripts/accumulator.js *)

Module Accumulator.
Import SendSBI.

(** [balances[name]]. *)
Fixpoint get (name : string) (balances : Balances) : option BalanceEntry :=
  match balances with
  | [] => None
  | (k, e) :: rest => if String.eqb k name then Some e else get name rest
  end.

(** An assignment to fields of [balances[name]], when that is an entry of
    [balances]. *)
Fixpoint update (name : string) (f : BalanceEntry -> BalanceEntry)
    (balances : Balances) : Balances :=
  match balances with
  | [] => []
  | (k, e) :: rest =>
      if String.eqb k name then (k, f e) :: rest else (k, e) :: update name f rest
  end.

(** The two assignments at the end of the loop body. *)
Definition credit (today : string) (adjustedReward : Q) (e : BalanceEntry) : BalanceEntry :=
  let previousBalance := balance e in
  {| balance := formatHIVE (previousBalance + adjustedReward);
     total_sent := total_sent e;
     last_updated := today |}.

(** Body of the loop over [delegators].  [balances[name]] is looked up
    through the prototype chain: for a name that is not a key of
    [balances] but is a property of [Object.prototype], the test
    [!balances[name]] is false, no entry is made, and the two assignments
    that follow set properties of the inherited value, which leaves
    [balances] as it is. *)
Definition accrue_one (multiplier : Q) (today : string)
    (balances : Balances) (delegator : string * Q) : Balances :=
  let '(name, base_reward) := delegator in
  let adjustedReward := formatHIVE (base_reward * multiplier) in
  let balances :=
    match get name balances with
    | None =>
        match Objects.inherited name with
        | None => balances ++ [(name, {| balance := 0; total_sent := Some 0;
                                         last_updated := today |})]
        | Some _ => balances
        end
    | Some _ => balances
    end in
  update name (credit today adjustedReward) balances.

Definition accrue (multiplier : Q) (today : string) (balances : Balances)
    (delegators : list (string * Q)) : Balances :=
  fold_left (accrue_one multiplier today) delegators balances.

(** [accumulate]: steps 1 to 6.  The effects are the save of step 5
    followed by those of [processSBIPayouts]. *)
Definition accumulate (env : Env) (today : string) (d : Disk) (n : Net)
    : option (Outcome Run) :=
  match FetchRewards.fetchRewards (payout_summary_json d) with
  | Exit code => Some (Exit code)
  | Uncaught => Some Uncaught
  | Done payoutSummary =>
      let multiplier := getMultiplier (FetchRewards.total_delegation_hp payoutSummary) in
      let balances := loadJSON (delegator_balances_json d) [] in
      let balances := accrue multiplier today balances (FetchRewards.delegators payoutSummary) in
      let d := save_balances d balances in
      match processSBIPayouts env today d n with
      | None => None
      | Some r =>
          Some (Done {| disk := disk r; net_after := net_after r;
                        trace := Save_balances balances :: trace r |})
      end
  end.

End Accumulator.

(** ** Vocabulary of the properties *)

Module Observe.
Import SendSBI.

(** *** The ledger *)

(** The entry [push_delta] pushes after [prev]. *)
Definition new_entry (prev : list Ledger.Entry) (T hp0 : Q) (ts : Z) (dt : string)
    : Ledger.Entry :=
  {| Ledger.vests := T - Ledger.previousTotal prev; Ledger.totalVests := T;
     Ledger.hp := hp0; Ledger.timestamp := ts; Ledger.date := dt |}.

(** *** Allocation *)

(** One unit of the last decimal kept in [base_reward]. *)
Definition precision : Q := 1 # 1000000.

(** *** The summary file *)

(** An element of [delegators] that passes the test of [fetchRewards]. *)
Definition valid_delegator (d : option FetchRewards.RawDelegator) : Prop :=
  exists rd name reward,
    d = Some rd /\
    FetchRewards.raw_name rd = Some name /\ name <> ""%string /\
    FetchRewards.raw_base_reward rd = Some reward.

(** A summary with the structure the scripts expect; the list of delegators
    may be empty. *)
Definition well_formed (s : FetchRewards.RawSummary) : Prop :=
  (exists dt, FetchRewards.raw_date s = Some dt /\ dt <> ""%string) /\
  is_Some (FetchRewards.raw_total_delegation_hp s) /\
  exists ds, FetchRewards.raw_delegators s = Some ds /\ Forall valid_delegator ds.

(** The files [fetchRewards] lets through. *)
Definition accepted (f : File FetchRewards.SummaryDoc) : Prop :=
  exists s, f = Parsed (FetchRewards.Document s) /\ well_formed s /\
            FetchRewards.raw_delegators s <> Some [].

(** The summary reports no contributor, or nothing to distribute. *)
Definition nothing_to_pay (s : FetchRewards.RawSummary) : Prop :=
  FetchRewards.raw_delegators s = Some [] \/
  FetchRewards.raw_distributable_hive s = Some 0.

(** *** Effects of the payout executor *)

Definition count {A : Type} (f : A -> bool) (l : list A) : nat :=
  length (List.filter f l).

(** The effect is a transfer attempt (real or dry-run) made for [d]. *)
Definition is_attempt_for (d : string) (e : Effect) : bool :=
  match e with
  | Transfer d' _ _ _ _ => String.eqb d' d
  | DryRunSend d' _ => String.eqb d' d
  | Save_balances _ | Save_log _ => false
  end.

(** The effect is an attempt for [d] that [sendSBI] reports as a success. *)
Definition is_confirmed_for (d : string) (e : Effect) : bool :=
  match e with
  | Transfer d' _ _ _ confirmed => String.eqb d' d && confirmed
  | DryRunSend d' _ => String.eqb d' d
  | Save_balances _ | Save_log _ => false
  end.

Definition is_save (e : Effect) : bool :=
  match e with
  | Save_balances _ | Save_log _ => true
  | Transfer _ _ _ _ _ | DryRunSend _ _ => false
  end.

Definition attempts_for (d : string) (effects : list Effect) : nat :=
  count (is_attempt_for d) effects.

Definition confirmed_for (d : string) (effects : list Effect) : nat :=
  count (is_confirmed_for d) effects.

Definition logged_for (d : string) (sbiLog : list LogEntry) : nat :=
  count (fun e => String.eqb (log_delegator e) d) sbiLog.

(** The effect is not a save and concerns no delegator but [d]. *)
Definition only_for (d : string) (e : Effect) : Prop :=
  is_save e = false /\ forall d', d' <> d -> is_attempt_for d' e = false.

(** Every attempt is reported as a success: a dry run, or a key and nodes
    that confirm every call. *)
Definition always_succeeds (env : Env) (n : Net) : Prop :=
  IS_DRY_RUN env = true \/
  (ACTIVE_KEY env <> ""%string /\ forall k, outcome n k = true).

(** An amount with at most three decimals, as the scripts write them. *)
Definition is_amount (x : Q) : Prop := formatHIVE x == x.

(** The balances and the log as a later process would load them. *)
Definition stored_balances (d : Disk) : Balances :=
  loadJSON (delegator_balances_json d) [].

Definition stored_log (d : Disk) : list LogEntry :=
  loadJSON (sbi_log_json d) [].

(** A transfer attempt, real or dry-run, for whatever delegator. *)
Definition is_attempt (e : Effect) : bool := negb (is_save e).

(** Durability transfer by transfer: whenever the run proceeds to an
    attempt, the files already hold, for every delegator, the log entry and
    the decrement of each transfer confirmed before that attempt. *)
Definition durable_per_transfer (env : Env) (today : string) (d : Disk) (n : Net) : Prop :=
  forall r, processSBIPayouts env today d n = Some r ->
  forall k e,
    trace r !! k = Some e -> is_attempt e = true ->
    let seen := take k (trace r) in
    let durable := disk_after d seen in
    forall delegator,
      logged_for delegator (stored_log durable) =
        (logged_for delegator (stored_log d) + confirmed_for delegator seen)%nat /\
      forall data,
        Accumulator.get delegator (stored_balances d) = Some data ->
        Accumulator.get delegator (stored_balances durable) =
          Some (Nat.iter (confirmed_for delegator seen) (confirm today) data).

(** No double payout across a crash, for nodes that confirm everything: a
    run that crashes as it proceeds to an attempt, followed by a complete
    run of a new process from the files as the crash left them, confirms for
    no delegator more transfers than the uninterrupted run does. *)
Definition no_double_payout (env : Env) (today : string) (d : Disk) (n : Net) : Prop :=
  always_succeeds env n ->
  forall r, processSBIPayouts env today d n = Some r ->
  forall k e r',
    trace r !! k = Some e -> is_attempt e = true ->
    processSBIPayouts env today (disk_after d (take k (trace r))) n = Some r' ->
    forall delegator,
      (confirmed_for delegator (take k (trace r)) + confirmed_for delegator (trace r')
       <= confirmed_for delegator (trace r))%nat.

(** The exit behaviour the accumulation stage would have if a well-formed
    summary with nothing to pay were a success: the stage ends with exit
    code 0, early or not. *)
Definition nothing_to_pay_is_success : Prop :=
  forall env today d n s,
    payout_summary_json d = Parsed (FetchRewards.Document s) ->
    well_formed s -> nothing_to_pay s ->
    exists o, Accumulator.accumulate env today d n = Some o /\ exit_code o = 0%Z.

End Observe.

(** ** Concrete runs *)

Module Scenario.
Import SendSBI.

Definition today : string := "2024-03-01".

Definition env_live : Env :=
  {| IS_DRY_RUN := false; HIVE_USER := "bayanihive"; ACTIVE_KEY := "5Kactive";
     SBI_EXCLUDE := Some " Carol ,,dave"%string |}.

(** Nodes that confirm every transfer; a new process starts at node 0. *)
Definition net_ok : Net :=
  {| outcome := fun _ => true; calls := 0; currentNodeIndex := 0 |}.

Definition alice_2_4 : BalanceEntry :=
  {| balance := 24 # 10; total_sent := Some 0; last_updated := "2024-02-29" |}.

Definition carol_5 : BalanceEntry :=
  {| balance := 5; total_sent := Some 0; last_updated := "2024-02-29" |}.

Definition disk_alice : Disk :=
  {| delegator_balances_json := Parsed [("alice"%string, alice_2_4); ("carol"%string, carol_5)];
     sbi_log_json := Parsed [];
     config_json := Absent;
     payout_summary_json := Absent |}.

(** A summary with every field in place and an empty list of delegators. *)
Definition summary_nobody : FetchRewards.RawSummary :=
  {| FetchRewards.raw_date := Some today;
     FetchRewards.raw_total_delegation_hp := Some 0;
     FetchRewards.raw_total_curation_hive := Some 0;
     FetchRewards.raw_distributable_hive := Some 0;
     FetchRewards.raw_delegators := Some [] |}.

(** A summary of a day without earnings: one delegator, reward 0. *)
Definition summary_no_earnings : FetchRewards.RawSummary :=
  {| FetchRewards.raw_date := Some today;
     FetchRewards.raw_total_delegation_hp := Some 8000;
     FetchRewards.raw_total_curation_hive := Some 0;
     FetchRewards.raw_distributable_hive := Some 0;
     FetchRewards.raw_delegators :=
       Some [Some {| FetchRewards.raw_name := Some "alice"%string;
                     FetchRewards.raw_base_reward := Some 0 |}] |}.

Definition with_summary (d : Disk) (s : FetchRewards.RawSummary) : Disk :=
  {| delegator_balances_json := delegator_balances_json d;
     sbi_log_json := sbi_log_json d;
     config_json := config_json d;
     payout_summary_json := Parsed (FetchRewards.Document s) |}.




(** Two stake changes of one delegator, then one of another. *)
Definition raw_two_events : Ledger.RawHistory :=
  [ (1%Z, {| Ledger.op_timestamp := 1700000000000;
             Ledger.op := Ledger.delegate_vesting_shares "alice" "bayanihive" 1000 |});
    (2%Z, {| Ledger.op_timestamp := 1700864000000;
             Ledger.op := Ledger.delegate_vesting_shares "alice" "bayanihive" 1500 |});
    (3%Z, {| Ledger.op_timestamp := 1700900000000;
             Ledger.op := Ledger.delegate_vesting_shares "bob" "bayanihive" (1 # 3) |}) ].

End Scenario.

Module Scenario64.

(** A delegator who delegates, raises the delegation, and withdraws it. *)
Definition raw_withdrawn : Ledger.RawHistory :=
  [ (1%Z, {| Ledger.op_timestamp := 1700000000000;
             Ledger.op := Ledger.delegate_vesting_shares "alice" "bayanihive"
                            (613466854046 # 1000000) |});
    (2%Z, {| Ledger.op_timestamp := 1700864000000;
             Ledger.op := Ledger.delegate_vesting_shares "alice" "bayanihive"
                            (1717170298307 # 1000000) |});
    (3%Z, {| Ledger.op_timestamp := 1701900000000;
             Ledger.op := Ledger.delegate_vesting_shares "alice" "bayanihive" 0 |}) ].


End Scenario64.

(** ** Further vocabulary for the ledger *)

Module Notions.
Import Ledger.

(** The operations that [buildDelegationHistory] and
    [mergeNewDelegationEvents] act on: [type === 'delegate_vesting_shares']
    with [data.delegatee === ACCOUNT]. *)
Definition delegates_to (ACCOUNT : string) (indexed_op : Z * Operation) : bool :=
  match op indexed_op.2 with
  | delegate_vesting_shares _ delegatee _ => String.eqb delegatee ACCOUNT
  | _ => false
  end.

(** Such an operation whose [data.delegator] is [delegator]. *)
Definition delegation_by (ACCOUNT delegator : string) (indexed_op : Z * Operation) : bool :=
  match op indexed_op.2 with
  | delegate_vesting_shares d delegatee _ =>
      String.eqb delegatee ACCOUNT && String.eqb d delegator
  | _ => false
  end.

(** Operations in the order of their timestamps, as the chain numbers
    them. *)
Fixpoint time_ordered (rawHistory : RawHistory) : bool :=
  match rawHistory with
  | a :: (b :: _) as rest =>
      (op_timestamp a.2 <=? op_timestamp b.2)%Z && time_ordered rest
  | _ => true
  end.


(** The first operation is dated no later than the second. *)
Definition not_later (a b : Z * Operation) : Prop :=
  (op_timestamp a.2 <= op_timestamp b.2)%Z.

End Notions.

(** ** Further vocabulary for eligibility *)

Module EligibilityNotions.
Import Ledger.

(** The stake a delegator held at the cutoff: the deltas dated at or before
    it, added up. *)
Definition held_at (cutoff : Z) (events : list Entry) : Q :=
  sum (map vests (List.filter (fun e => (timestamp e <=? cutoff)%Z) events)).

End EligibilityNotions.

(** ** The loop of [getActiveDelegators] *)

Module ActiveNotions.
Import Ledger.

(** One turn of the loop of [Allocation.getActiveDelegators], with the
    result of the turns after it. *)
Definition active_step : string * list Entry -> option (list (string * Q)) ->
    option (list (string * Q)) :=
  fun '(delegator, events) acc =>
    match last events, acc with
    | Some latest, Some active =>
        if gtb (totalVests latest) 0 && gtb (hp latest) 0
        then Some ((delegator, hp latest) :: active)
        else Some active
    | _, _ => None
    end.

End ActiveNotions.

(** ** scripts/fetch_real_delegators.js: the incremental sync *)

Module Sync.
Import Ledger.

(** [hive.api.getAccountHistory(ACCOUNT, start, limit, callback)] as the
    script sees it: [None] when the callback gets an error, else the rows
    [[index, op]] of the answer ([null] read as no row). *)
Definition Api : Type := Z -> Z -> option RawHistory.

(** The promise an [async] function returns, once settled. *)
Inductive Promise (A : Type) : Type :=
| Rejected
| Resolved (a : A).
Arguments Rejected {A}.
Arguments Resolved {A} a.

Record SyncResult : Type := {
  newOperations : RawHistory;
  latestIndex : Z;
  hasNew : bool;
}.

(** [getLastIndex]: the row of [sync_state], if any, and its [last_index],
    if not null. *)
Definition getLastIndex (row : option (option Z)) : Z :=
  match row with
  | Some (Some last_index) => last_index
  | _ => 0%Z
  end.

Definition limit : Z := 1000.

(** The [while (true)] loop of [syncAccountHistory]; [None] means that
    [fuel] turns were not enough to leave it. *)
Fixpoint fetch_loop (fuel : nat) (api : Api) (lastIndex start : Z)
    (newOperations : RawHistory) : option (Promise RawHistory) :=
  match fuel with
  | O => None
  | S fuel' =>
      let batchSize := Z.min limit (start - lastIndex) in
      if (batchSize <=? 0)%Z then Some (Resolved newOperations)
      else
        match api start batchSize with
        | None => Some Rejected
        | Some [] => Some (Resolved newOperations)
        | Some (((lowestFetchedIdx, _) :: _) as history) =>
            let filtered := List.filter (fun row => (lastIndex <? row.1)%Z) history in
            let newOperations := newOperations ++ filtered in
            if (lowestFetchedIdx <=? lastIndex + 1)%Z then Some (Resolved newOperations)
            else
              let start := (lowestFetchedIdx - 1)%Z in
              if (start <=? lastIndex)%Z then Some (Resolved newOperations)
              else if (Z.of_nat (length history) <? batchSize)%Z
              then Some (Resolved newOperations)
              else fetch_loop fuel' api lastIndex start newOperations
        end
  end.

(** [(a, b) => a[0] - b[0]]. *)
Definition by_index (a b : Z * Operation) : bool := (a.1 <=? b.1)%Z.

(** The filter with the [seen] set: the first row of each index stays. *)
Fixpoint dedupe (seen : gset Z) (rows : RawHistory) : RawHistory :=
  match rows with
  | [] => []
  | (idx, o) :: rest =>
      if bool_decide (idx ∈ seen) then dedupe seen rest
      else (idx, o) :: dedupe ({[idx]} ∪ seen) rest
  end.

(** [syncAccountHistory(lastIndex)].  The first call asks for the latest
    row.  With an answer that has no row, [res[0][0]] raises a TypeError
    inside the callback and the promise is never resolved: the model counts
    this as a rejection. *)
Definition syncAccountHistory (fuel : nat) (api : Api) (lastIndex : Z)
    : option (Promise SyncResult) :=
  match api (-1)%Z 1%Z with
  | None => Some Rejected
  | Some [] => Some Rejected
  | Some ((latestIndex, _) :: _) =>
      if (latestIndex <=? lastIndex)%Z
      then Some (Resolved {| newOperations := []; latestIndex := latestIndex;
                             hasNew := false |})
      else
        match fetch_loop fuel api lastIndex latestIndex [] with
        | None => None
        | Some Rejected => Some Rejected
        | Some (Resolved newOperations) =>
            let sorted := stable_sort by_index newOperations in
            let deduped := dedupe ∅ sorted in
            Some (Resolved {| newOperations := deduped; latestIndex := latestIndex;
                              hasNew := true |})
        end
  end.

(** The rows numbered [lo + 1] to [hi] of an account whose operations,
    numbered from 0, are [chain]: oldest first. *)
Definition rows (chain : list Operation) (lo hi : Z) : RawHistory :=
  omap (fun i => (fun o => (i, o)) <$> chain !! Z.to_nat i) (seqZ (lo + 1) (hi - lo)).

(** A node that serves that account: a call returns the [limit] rows that
    end at [start], oldest first, and [start = -1] stands for the latest
    row.  This is what the script relies on when it reads [res[0][0]] as
    the latest index and [history[0][0]] as the lowest index of a batch. *)
Definition node (chain : list Operation) : Api :=
  fun start limit =>
    let latest := (Z.of_nat (length chain) - 1)%Z in
    let start := if (start <? 0)%Z then latest else Z.min start latest in
    Some (rows chain (Z.max (-1) (start - limit)) start).

(** Rows in strictly increasing order of their index. *)
Definition ascending (rows : RawHistory) : Prop :=
  StronglySorted (fun a b : Z * Operation => (a.1 < b.1)%Z) rows.

End Sync.

(** ** scripts/fetch_real_delegators.js: curation rewards and [main] *)

Module FetchDelegators.
Import Ledger Sync.

(** The loop of [getCurationRewards].  [fromTime] and [toTime] are the
    bounds of the curation window, which the function derives from the
    clock: 8:00 yesterday to 8:00 today in Manila. *)
Definition claimed_step (fromTime toTime : Z) (totalVests : Q)
    (row : Z * Operation) : Q :=
  let o := row.2 in
  let opTime := op_timestamp o in
  match op o with
  | claim_reward_balance reward_vests =>
      if (fromTime <=? opTime)%Z && (opTime <? toTime)%Z
      then
        let claimedVests := reward_vests in
        if gtb claimedVests 0 then totalVests + claimedVests else totalVests
      else totalVests
  | _ => totalVests
  end.

Definition getCurationRewards (rawHistory : RawHistory) (fromTime toTime : Z)
    (totalVestingFundHive totalVestingShares : Q) : Q :=
  let totalVests := fold_left (claimed_step fromTime toTime) rawHistory 0 in
  vestsToHP totalVests totalVestingFundHive totalVestingShares.

(** A claim that [getCurationRewards] counts. *)
Definition counted (fromTime toTime : Z) (row : Z * Operation) : bool :=
  match op row.2 with
  | claim_reward_balance reward_vests =>
      (fromTime <=? op_timestamp row.2)%Z && (op_timestamp row.2 <? toTime)%Z
      && gtb reward_vests 0
  | _ => false
  end.

Definition reward_vests_of (row : Z * Operation) : Q :=
  match op row.2 with
  | claim_reward_balance reward_vests => reward_vests
  | _ => 0
  end.

(** What [main] finds outside: the row of the sync database, whether a
    node answers and knows the account, the global properties ([None] when
    the call fails), the account history, [delegation_history.json], and
    the clock. *)
Record World : Type := {
  sync_state_row : option (option Z);
  node_answers : bool;
  account_found : bool;
  global_props : option (Q * Q);
  api : Api;
  delegation_history_json : File History;
  fromTime : Z;
  toTime : Z;
  cutoff : Z;
  today : string;
}.

(** What [main] writes, in order. *)
Inductive Effect : Type :=
| Write_delegation_history (delegationHistory : History)
| Save_payout_summary (payoutSummary : Allocation.PayoutSummary)
| UpdateLastIndex (index : Z).

(** [loadExistingDelegationHistory]: [None] when [JSON.parse] throws. *)
Definition loadExistingDelegationHistory (f : File History) : option History :=
  match f with
  | Absent => Some ∅
  | Unparsable => None
  | Parsed data => Some data
  end.

(** [main]: the effects in order and the way the process ends.  Every
    exception is caught and turned into exit code 1. *)
Definition main (ACCOUNT : string) (fuel : nat) (w : World)
    : option (list Effect * Outcome unit) :=
  let lastIndex := getLastIndex (sync_state_row w) in
  if negb (node_answers w) then Some ([], Exit 1)
  else if negb (account_found w) then Some ([], Exit 1)
  else
    match global_props w with
    | None => Some ([], Exit 1)
    | Some (totalVestingFundHive, totalVestingShares) =>
        match syncAccountHistory fuel (api w) lastIndex with
        | None => None
        | Some Rejected => Some ([], Exit 1)
        | Some (Resolved r) =>
            if negb (hasNew r) then Some ([], Done tt)
            else
              let delegationHistory :=
                if (lastIndex =? 0)%Z
                then Some (buildDelegationHistory ACCOUNT (newOperations r)
                             totalVestingFundHive totalVestingShares)
                else
                  match loadExistingDelegationHistory (delegation_history_json w) with
                  | None => None
                  | Some existing =>
                      Some (mergeNewDelegationEvents ACCOUNT existing (newOperations r)
                              totalVestingFundHive totalVestingShares)
                  end in
              match delegationHistory with
              | None => Some ([], Exit 1)
              | Some delegationHistory =>
                  let totalCurationHive :=
                    getCurationRewards (newOperations r) (fromTime w) (toTime w)
                      totalVestingFundHive totalVestingShares in
                  match Allocation.main_summary delegationHistory totalCurationHive
                          (cutoff w) (today w) totalVestingFundHive totalVestingShares with
                  | Exit code =>
                      if (code =? 0)%Z
                      then Some ([Write_delegation_history delegationHistory;
                                  UpdateLastIndex (latestIndex r)], Exit 0)
                      else Some ([Write_delegation_history delegationHistory], Exit code)
                  | Uncaught =>
                      Some ([Write_delegation_history delegationHistory], Exit 1)
                  | Done payoutSummary =>
                      Some ([Write_delegation_history delegationHistory;
                             Save_payout_summary payoutSummary;
                             UpdateLastIndex (latestIndex r)], Done tt)
                  end
              end
        end
    end.

Definition is_update (e : Effect) : bool :=
  match e with
  | UpdateLastIndex _ => true
  | _ => false
  end.

Definition is_write (e : Effect) : bool :=
  match e with
  | Write_delegation_history _ => true
  | _ => false
  end.

End FetchDelegators.

(** ** A concrete account *)

Module Account.
Import Ledger Sync FetchDelegators.

(** The operations of an account, numbered from 0: its creation, three
    delegations to it, and a claim of rewards. *)
Definition chain : list Operation :=
  {| op_timestamp := 1600000000000; op := other_operation "account_create" |}
  :: map snd Scenario.raw_two_events ++
  [ {| op_timestamp := 1701000000000; op := claim_reward_balance 4000 |} ].

(** A first run on that account, long after the delegations, with the
    claim inside the curation window. *)
Definition first_run : World :=
  {| sync_state_row := Some (Some 0%Z);
     node_answers := true;
     account_found := true;
     global_props := Some (1, 2000);
     api := node chain;
     delegation_history_json := Absent;
     fromTime := 1700950000000;
     toTime := 1701036400000;
     cutoff := 1800000000000;
     today := Scenario.today |}.

End Account.

(** ** Further vocabulary for the payout executor *)

Module PayoutNotions.
Import SendSBI.

(** The effect is a call of [hive.broadcast.transfer]. *)
Definition is_broadcast (e : Effect) : bool :=
  match e with
  | Transfer _ _ _ _ _ => true
  | DryRunSend _ _ | Save_balances _ | Save_log _ => false
  end.

(** The entry [accumulate] creates for a delegator it has not seen. *)
Definition fresh (today : string) : BalanceEntry :=
  {| balance := 0; total_sent := Some 0; last_updated := today |}.

(** No balance of the object is negative. *)
Definition nonnegative (balances : Balances) : Prop :=
  Forall (fun kv => 0 <= balance kv.2) balances.

End PayoutNotions.

(** ** Further vocabulary for the accrual *)

Module AccrualNotions.
Import SendSBI.

(** [balances[name]] is an entry of [balances], or can be made one: the
    name is a key of the object, or it is not a property of
    [Object.prototype]. *)
Definition creditable (balances : Balances) (name : string) : bool :=
  match Accumulator.get name balances, Objects.inherited name with
  | None, Some _ => false
  | _, _ => true
  end.

End AccrualNotions.

(** ** Further vocabulary for the exclusion *)

Module ExclusionNotions.
Import SendSBI.

(** A capital letter, A to Z. *)
Definition capital (c : ascii) : bool :=
  (65 <=? nat_of_ascii c)%nat && (nat_of_ascii c <=? 90)%nat.

(** Two characters that differ at most in case: the same character, or a
    capital letter and its small letter, 32 places further. *)
Definition same_letter (a b : ascii) : bool :=
  Ascii.eqb a b
  || (capital a && (nat_of_ascii b =? nat_of_ascii a + 32)%nat)
  || (capital b && (nat_of_ascii a =? nat_of_ascii b + 32)%nat).

(** Two ids that differ at most in the case of their letters. *)
Fixpoint same_ignoring_case (s t : string) : bool :=
  match s, t with
  | EmptyString, EmptyString => true
  | String a s', String b t' => same_letter a b && same_ignoring_case s' t'
  | _, _ => false
  end.

(** An id in ASCII, as account names are.  On such ids [toLowerCase] and
    [trim] of [SendSBI] are those of the code. *)
Fixpoint plain (s : string) : bool :=
  match s with
  | EmptyString => true
  | String c s' => (nat_of_ascii c <? 128)%nat && plain s'
  end.

(** Every character. *)
Definition all_ascii : list ascii := map ascii_of_nat (seq 0 256).

(** The ASCII white space: tab, line feed, vertical tab, form feed,
    carriage return, space. *)
Definition white_space : list nat := [9; 10; 11; 12; 13; 32]%nat.

Definition white (c : ascii) : bool :=
  existsb (Nat.eqb (nat_of_ascii c)) white_space.

(** Nothing but white space. *)
Fixpoint blank (s : string) : bool :=
  match s with
  | EmptyString => true
  | String c s' => white c && blank s'
  end.

Fixpoint ends_white (s : string) : bool :=
  match s with
  | EmptyString => false
  | String c EmptyString => white c
  | String _ s' => ends_white s'
  end.

(** No white space at either end. *)
Definition tight (s : string) : bool :=
  match s with
  | EmptyString => true
  | String c _ => negb (white c) && negb (ends_white s)
  end.

Fixpoint no_comma (s : string) : bool :=
  match s with
  | EmptyString => true
  | String c s' => negb (Ascii.eqb c ","%char) && no_comma s'
  end.

(** One piece of SBI_EXCLUDE between two commas: a name, possibly empty,
    with white space around it. *)
Record Piece : Type := {
  lead : string;
  core : string;
  trail : string;
}.

Definition written (p : Piece) : string := lead p +:+ core p +:+ trail p.

Definition well_formed (p : Piece) : bool :=
  blank (lead p) && blank (trail p) && tight (core p) && no_comma (core p).

(** The value of SBI_EXCLUDE made of the pieces. *)
Definition joined (pieces : list Piece) : string :=
  String.concat "," (map written pieces).

(** The names that config.json lists: the array [excluded_from_sbi] of
    the parsed file, nothing for a file that is missing or does not parse or
    has no such array. *)
Inductive lists : File Config -> list string -> Prop :=
| lists_array names : lists (Parsed {| excluded_from_sbi := Some names |}) names
| lists_no_array : lists (Parsed {| excluded_from_sbi := None |}) []
| lists_absent : lists Absent []
| lists_unparsable : lists Unparsable [].

(** The names of the merged exclusion list: those of config.json and the
    non-empty ones of SBI_EXCLUDE. *)
Definition named (listed : list string) (pieces : list Piece) (x : string) : Prop :=
  x ∈ listed \/ (x ∈ map core pieces /\ x <> ""%string).

End ExclusionNotions.

(** * Properties *)

(** ** The definitions on small inputs *)

Example toFixed_rounds_half_away_from_zero :
  toFixed 3 (10005 # 10000) = 1001 # 1000 /\
  toFixed 3 (- (10005 # 10000)) = - (1001 # 1000) /\
  toFixed 3 (10004 # 10000) = 1 /\
  toFixed 6 (1 # 3) = 333333 # 1000000 /\
  toFixed 3 (- (4 # 10000)) == 0.
Proof. repeat split. Qed.

Example isoDate_days :
  Ledger.isoDate 0 = "1970-01-01"%string /\
  Ledger.isoDate (-1) = "1969-12-31"%string /\
  Ledger.isoDate 1709251199999 = "2024-02-29"%string /\
  Ledger.isoDate 1709251200000 = "2024-03-01"%string.
Proof. repeat split; vm_compute; reflexivity. Qed.

Example stable_sort_keeps_ties_in_order :
  Ledger.stable_sort (fun a b : Z * string => (a.1 <=? b.1)%Z)
    [(2%Z, "a"); (1%Z, "b"); (2%Z, "c"); (1%Z, "d")]%string =
  [(1%Z, "b"); (1%Z, "d"); (2%Z, "a"); (2%Z, "c")]%string.
Proof. reflexivity. Qed.

Example split_trim_filter :
  SendSBI.split_comma "a, b ,,C " = ["a"; " b "; ""; "C "]%string /\
  SendSBI.split_comma "" = [""%string] /\
  SendSBI.trim "  b c  " = "b c"%string /\
  SendSBI.fromEnv {| SendSBI.IS_DRY_RUN := true; SendSBI.HIVE_USER := "";
                     SendSBI.ACTIVE_KEY := ""; SendSBI.SBI_EXCLUDE := None |} = [] /\
  SendSBI.toLowerCase "AbC-z.Z9" = "abc-z.z9"%string.
Proof. repeat split; vm_compute; reflexivity. Qed.

(** Two refused calls and a confirmed one: the node is switched after each
    refusal; after three refusals the send is given up and the node stays. *)
Example sendSBI_retries :
  let third := {| SendSBI.outcome := fun k => Nat.eqb k 2;
                  SendSBI.calls := 0; SendSBI.currentNodeIndex := 0 |} in
  let never := {| SendSBI.outcome := fun _ => false;
                  SendSBI.calls := 0; SendSBI.currentNodeIndex := 3 |} in
  (let '(success, n, effects) := SendSBI.sendSBI Scenario.env_live "alice" third in
   (success, SendSBI.currentNodeIndex n,
    map (fun e => match e with
                  | SendSBI.Transfer _ node _ _ c => (node, c)
                  | _ => (0%nat, false)
                  end) effects))
  = (true, 2%nat, [(0%nat, false); (1%nat, false); (2%nat, true)]) /\
  (let '(success, n, effects) := SendSBI.sendSBI Scenario.env_live "alice" never in
   (success, SendSBI.currentNodeIndex n, SendSBI.calls n, length effects))
  = (false, 1%nat, 3%nat, 3%nat).
Proof. split; reflexivity. Qed.

(** Building a history: the second event of alice is stored as a delta, an
    event that repeats a total is dropped, operations for other accounts
    are ignored. *)
Example buildDelegationHistory_deltas :
  let raw :=
    Scenario.raw_two_events ++
    [ (4%Z, {| Ledger.op_timestamp := 1700950000000;
               Ledger.op := Ledger.delegate_vesting_shares "alice" "bayanihive" 1500 |});
      (5%Z, {| Ledger.op_timestamp := 1700960000000;
               Ledger.op := Ledger.delegate_vesting_shares "alice" "someone" 9 |});
      (6%Z, {| Ledger.op_timestamp := 1700970000000;
               Ledger.op := Ledger.claim_reward_balance 12 |}) ] in
  let h := Ledger.buildDelegationHistory "bayanihive" raw 1 2000 in
  map (fun e => (Ledger.vests e, Ledger.totalVests e, Ledger.date e))
      (default [] (h !! "alice"%string)) =
    [(1000, 1000, "2023-11-14"%string); (500, 1500, "2023-11-24"%string)] /\
  map Ledger.hp (default [] (h !! "alice"%string)) = [1 # 2; 3 # 4] /\
  length (default [] (h !! "bob"%string)) = 1%nat /\
  h !! "someone"%string = None.
Proof. cbv zeta. repeat split; vm_compute; reflexivity. Qed.

(** ** Numbers *)

Section NumFacts.

Lemma geb_true a b : geb a b = true <-> b <= a.
Proof. unfold geb. apply Qle_bool_iff. Qed.

Lemma geb_false a b : geb a b = false <-> a < b.
Proof.
  unfold geb. split; intros H.
  - apply Qnot_le_lt. intros Hle. apply Qle_bool_iff in Hle. congruence.
  - destruct (Qle_bool b a) eqn:E; [|reflexivity].
    apply Qle_bool_iff in E. lra.
Qed.

Lemma gtb_true a b : gtb a b = true <-> b < a.
Proof.
  unfold gtb. rewrite negb_true_iff. apply (geb_false b a).
Qed.

Lemma gtb_false a b : gtb a b = false <-> a <= b.
Proof.
  unfold gtb. rewrite negb_false_iff. apply Qle_bool_iff.
Qed.

Lemma ltb_true a b : ltb a b = true <-> a < b.
Proof. unfold ltb. rewrite negb_true_iff. apply geb_false. Qed.

Lemma ltb_false a b : ltb a b = false <-> b <= a.
Proof. unfold ltb. rewrite negb_false_iff. apply Qle_bool_iff. Qed.

Lemma Math_max_spec a b :
  (a <= b /\ Math_max a b = b) \/ (b < a /\ Math_max a b = a).
Proof.
  unfold Math_max. destruct (Qle_bool a b) eqn:E.
  - left. split; [now apply Qle_bool_iff|reflexivity].
  - right. split; [now apply (geb_false b a)|reflexivity].
Qed.

Lemma Math_min_spec a b :
  (a <= b /\ Math_min a b = a) \/ (b < a /\ Math_min a b = b).
Proof.
  unfold Math_min. destruct (Qle_bool a b) eqn:E.
  - left. split; [now apply Qle_bool_iff|reflexivity].
  - right. split; [now apply (geb_false b a)|reflexivity].
Qed.

Lemma scale_pos d : 0 < scale d.
Proof.
  unfold scale. change 0 with (inject_Z 0). rewrite <- Zlt_Qlt.
  apply Z.pow_pos_nonneg; lia.
Qed.

(** [nearest y] is within one half of [y]. *)
Lemma nearest_bounds y :
  y - (1 # 2) < inject_Z (nearest y) /\ inject_Z (nearest y) <= y + (1 # 2).
Proof.
  unfold nearest. split.
  - pose proof (Qlt_floor (y + (1 # 2))) as H.
    rewrite inject_Z_plus in H. change (inject_Z 1) with 1 in H. lra.
  - apply Qfloor_le.
Qed.

Lemma div_scale_error (s a n : Q) :
  0 < s -> a * s - (1 # 2) < n -> n <= a * s + (1 # 2) ->
  Qabs (n / s - a) <= (1 # 2) / s.
Proof.
  intros Hs Hlo Hhi.
  assert (Hne : ~ s == 0) by lra.
  assert (E : n / s - a == (n - a * s) / s) by (field; exact Hne).
  rewrite E. apply Qabs_Qle_condition. split.
  - apply Qle_shift_div_l; [exact Hs|].
    assert (E2 : - ((1 # 2) / s) * s == - (1 # 2)) by (field; exact Hne).
    rewrite E2. lra.
  - apply Qle_shift_div_r; [exact Hs|].
    assert (E2 : (1 # 2) / s * s == 1 # 2) by (field; exact Hne).
    rewrite E2. lra.
Qed.

(** Rounding to [d] decimals moves a number by at most half a unit of the
    last decimal. *)
Lemma toFixed_error d x : Qabs (toFixed d x - x) <= (1 # 2) / scale d.
Proof.
  pose proof (scale_pos d) as Hs.
  unfold toFixed. destruct (Qle_bool 0 x) eqn:E; rewrite Qred_correct.
  - destruct (nearest_bounds (x * scale d)) as [Hlo Hhi].
    now apply div_scale_error.
  - destruct (nearest_bounds (- x * scale d)) as [Hlo Hhi].
    pose proof (div_scale_error (scale d) (- x) _ Hs Hlo Hhi) as H.
    assert (E2 : - (inject_Z (nearest (- x * scale d)) / scale d) - x ==
                 - (inject_Z (nearest (- x * scale d)) / scale d - - x)) by ring.
    rewrite E2, Qabs_opp. exact H.
Qed.

#[global] Instance toFixed_comp d : Proper (Qeq ==> eq) (toFixed d).
Proof.
  intros x y Hxy. unfold toFixed.
  assert (Hb : Qle_bool 0 x = Qle_bool 0 y).
  { destruct (Qle_bool 0 x) eqn:Ex, (Qle_bool 0 y) eqn:Ey; try reflexivity.
    - apply Qle_bool_iff in Ex. apply (geb_false y 0) in Ey. lra.
    - apply Qle_bool_iff in Ey. apply (geb_false x 0) in Ex. lra. }
  rewrite Hb. destruct (Qle_bool 0 y); apply Qred_complete.
  - unfold nearest. now rewrite Hxy.
  - unfold nearest. now rewrite Hxy.
Qed.

Lemma toFixed_nonneg d x : 0 <= x -> 0 <= toFixed d x.
Proof.
  intros Hx. unfold toFixed.
  apply Qle_bool_iff in Hx as Hb. rewrite Hb, Qred_correct.
  pose proof (scale_pos d) as Hs.
  apply Qle_shift_div_l; [exact Hs|]. ring_simplify.
  change 0 with (inject_Z 0). rewrite <- Zle_Qle.
  unfold nearest. change 0%Z with (Qfloor 0).
  apply Qfloor_resp_le. pose proof (Qmult_le_0_compat x (scale d)). lra.
Qed.

Lemma Qfloor_plus_Z x (n : Z) : Qfloor (x + inject_Z n) = (Qfloor x + n)%Z.
Proof.
  pose proof (Qfloor_le x) as Ha.
  pose proof (Qlt_floor x) as Hb.
  pose proof (Qfloor_le (x + inject_Z n)) as Hc.
  pose proof (Qlt_floor (x + inject_Z n)) as Hd.
  rewrite inject_Z_plus in Hb, Hd.
  assert (E1 : inject_Z 1 == 1) by reflexivity.
  assert (H1 : (Qfloor (x + inject_Z n) < Qfloor x + n + 1)%Z).
  { rewrite Zlt_Qlt, !inject_Z_plus. lra. }
  assert (H2 : (Qfloor x + n < Qfloor (x + inject_Z n) + 1)%Z).
  { rewrite Zlt_Qlt, !inject_Z_plus. lra. }
  lia.
Qed.

(** A confirmed transfer takes at least one half off a balance that was at
    least one chunk. *)
Lemma formatHIVE_chunk_down b : formatHIVE (b - 1) <= b - (1 # 2).
Proof.
  pose proof (toFixed_error 3 (b - 1)) as H.
  apply Qabs_Qle_condition in H. destruct H as [_ H].
  unfold formatHIVE.
  assert (E : (1 # 2) / scale 3 == 1 # 2000) by reflexivity.
  rewrite E in H. lra.
Qed.

Lemma sum_from (l : list Q) (a : Q) : fold_left Qplus l a == a + sum l.
Proof.
  unfold sum. revert a. induction l as [|x l IH]; intros a; simpl.
  - lra.
  - rewrite IH, (IH (0 + x)). lra.
Qed.

Lemma sum_cons x l : sum (x :: l) == x + sum l.
Proof. unfold sum at 1. simpl. rewrite sum_from. lra. Qed.

Lemma sum_snoc l x : sum (l ++ [x]) == sum l + x.
Proof. unfold sum. rewrite fold_left_app. simpl. reflexivity. Qed.

Lemma nearest_Z_plus_half (z : Z) : nearest (inject_Z z) = z.
Proof.
  unfold nearest.
  assert (E : inject_Z z + (1 # 2) == (1 # 2) + inject_Z z) by ring.
  rewrite E, Qfloor_plus_Z. reflexivity.
Qed.

(** A number with [d] decimals is left alone by [toFixed d]. *)
Lemma toFixed_decimal d (z : Z) :
  toFixed d (inject_Z z / scale d) == inject_Z z / scale d.
Proof.
  pose proof (scale_pos d) as Hs.
  assert (Hne : ~ scale d == 0) by lra.
  unfold toFixed. destruct (Qle_bool 0 (inject_Z z / scale d)); rewrite Qred_correct.
  - assert (E : inject_Z z / scale d * scale d == inject_Z z) by (field; exact Hne).
    unfold nearest. rewrite E. fold (nearest (inject_Z z)).
    now rewrite nearest_Z_plus_half.
  - assert (E : - (inject_Z z / scale d) * scale d == inject_Z (- z)).
    { rewrite inject_Z_opp. field. exact Hne. }
    unfold nearest. rewrite E. fold (nearest (inject_Z (- z))).
    rewrite nearest_Z_plus_half, inject_Z_opp. field. exact Hne.
Qed.

Lemma toFixed_is_decimal d x : exists z, toFixed d x == inject_Z z / scale d.
Proof.
  unfold toFixed. destruct (Qle_bool 0 x).
  - eexists. rewrite Qred_correct. reflexivity.
  - exists (- nearest (- x * scale d))%Z. rewrite Qred_correct, inject_Z_opp.
    pose proof (scale_pos d). field. lra.
Qed.

(** Adding an integer to a number with [d] decimals gives one. *)
Lemma toFixed_fixpoint_shift d x (k : Z) :
  toFixed d x == x -> toFixed d (x + inject_Z k) == x + inject_Z k.
Proof.
  intros Hx. destruct (toFixed_is_decimal d x) as [z Hz].
  rewrite Hx in Hz. pose proof (scale_pos d) as Hs.
  assert (E : x + inject_Z k == inject_Z (z + k * 10 ^ Z.of_nat d) / scale d).
  { rewrite Hz, inject_Z_plus, inject_Z_mult. fold (scale d). field. lra. }
  rewrite (toFixed_comp d _ _ E), E. apply toFixed_decimal.
Qed.

End NumFacts.

(** ** The delegation ledger *)

Module LedgerFacts.
Import Ledger Observe.

(** What [push_delta] leaves under each key. *)
Lemma push_delta_lookup (h : History) d T hp0 ts dt d' :
  push_delta h d T hp0 ts dt !! d' =
    if decide (d = d')
    then
      let prev := default [] (h !! d) in
      Some (if gtb (Math_abs (T - previousTotal prev)) epsilon
            then prev ++ [new_entry prev T hp0 ts dt] else prev)
    else h !! d'.
Proof.
  unfold push_delta, new_entry.
  destruct (h !! d) as [prev|] eqn:Hd; simpl.
  - rewrite Hd. simpl.
    destruct (gtb _ epsilon); destruct (decide (d = d')) as [<-|Hne];
      rewrite ?lookup_insert_eq, ?lookup_insert_ne by done; done.
  - rewrite lookup_insert_eq. simpl.
    destruct (gtb _ epsilon); destruct (decide (d = d')) as [<-|Hne];
      rewrite ?lookup_insert_eq, ?lookup_insert_ne by done; done.
Qed.

Lemma zero_delta_small x : x == 0 -> Math_abs x <= epsilon.
Proof.
  intros Hx. unfold Math_abs, epsilon.
  apply Qabs_Qle_condition. split; lra.
Qed.

Lemma previousTotal_snoc prev e : previousTotal (prev ++ [e]) = totalVests e.
Proof. unfold previousTotal. now rewrite last_snoc. Qed.

Lemma replay_snoc prev e : replay (prev ++ [e]) == replay prev + vests e.
Proof. unfold replay. rewrite map_app. simpl. apply sum_snoc. Qed.

(** Pushing a total the delegator already has as its last stored total
    changes nothing. *)
Lemma push_delta_same_total (h : History) d T hp0 ts dt events :
  h !! d = Some events -> previousTotal events == T ->
  push_delta h d T hp0 ts dt = h.
Proof.
  intros Hd HT. apply map_eq. intros d'. rewrite push_delta_lookup.
  destruct (decide (d = d')) as [<-|Hne]; [|reflexivity].
  rewrite Hd. cbv zeta. change (default [] (Some events)) with events.
  assert (Hdisc : gtb (Math_abs (T - previousTotal events)) epsilon = false).
  { apply gtb_false.
    apply zero_delta_small. rewrite HT. ring. }
  now rewrite Hdisc.
Qed.

(** The delta that a second delivery computes, and its fate. *)
Lemma push_delta_twice (h : History) d T hp0 ts dt :
  let h1 := push_delta h d T hp0 ts dt in
  Math_abs (T - previousTotal (default [] (h1 !! d))) <= epsilon /\
  push_delta h1 d T hp0 ts dt = h1.
Proof.
  intros h1.
  assert (Hsmall : Math_abs (T - previousTotal (default [] (h1 !! d))) <= epsilon).
  { unfold h1. rewrite push_delta_lookup. rewrite decide_True by reflexivity.
    cbv zeta. cbn [from_option id]. destruct (gtb _ epsilon) eqn:E.
    - rewrite previousTotal_snoc. cbn [totalVests new_entry].
      apply zero_delta_small. ring.
    - now apply gtb_false in E. }
  split; [exact Hsmall|].
  apply map_eq. intros d'. rewrite push_delta_lookup.
  destruct (decide (d = d')) as [<-|Hne]; [|reflexivity].
  apply gtb_false in Hsmall. cbv zeta. rewrite Hsmall.
  unfold h1. rewrite push_delta_lookup, decide_True by reflexivity.
  reflexivity.
Qed.

End LedgerFacts.

(** ** Sorting *)

Module SortFacts.
Import Ledger.

Lemma insert_sorted_Permutation {A} (before : A -> A -> bool) x l :
  Permutation (insert_sorted before x l) (x :: l).
Proof.
  induction l as [|y l IH]; simpl; [reflexivity|].
  destruct (before x y); [reflexivity|].
  rewrite IH. apply perm_swap.
Qed.

Lemma stable_sort_Permutation {A} (before : A -> A -> bool) l :
  Permutation (stable_sort before l) l.
Proof.
  induction l as [|x l IH]; simpl; [reflexivity|].
  rewrite insert_sorted_Permutation. now constructor.
Qed.

Lemma sum_Permutation l1 l2 : Permutation l1 l2 -> sum l1 == sum l2.
Proof.
  induction 1 as [|x l1 l2 _ IH|x y l|l1 l2 l3 _ IH1 _ IH2].
  - reflexivity.
  - rewrite !sum_cons, IH. reflexivity.
  - rewrite !sum_cons. ring.
  - now rewrite IH1.
Qed.

Lemma stable_sort_sum {A} (before : A -> A -> bool) (f : A -> Q) l :
  sum (map f (stable_sort before l)) == sum (map f l).
Proof.
  apply sum_Permutation, Permutation_map, stable_sort_Permutation.
Qed.

Lemma stable_sort_length {A} (before : A -> A -> bool) (l : list A) :
  length (stable_sort before l) = length l.
Proof. apply Permutation_length, stable_sort_Permutation. Qed.

End SortFacts.

(** ** Eligibility *)

Module EligibilityFacts.
Import Ledger Eligibility.

Lemma walk_from_nonneg cutoff events st :
  0 <= st.2 -> 0 <= (fold_left (walk_step cutoff) events st).2.
Proof.
  revert st. induction events as [|ev events IH]; intros [run elig] H; simpl.
  - exact H.
  - apply IH. destruct (timestamp ev <=? cutoff)%Z; simpl.
    + destruct (Math_max_spec 0 (run + vests ev)) as [[? ->]|[? ->]]; lra.
    + exact H.
Qed.

Lemma walk_from_running cutoff events st :
  (fold_left (walk_step cutoff) events st).1 == st.1 + sum (map vests events).
Proof.
  revert st. induction events as [|ev events IH]; intros [run elig]; simpl.
  - unfold sum. simpl. ring.
  - rewrite IH, sum_cons. destruct (timestamp ev <=? cutoff)%Z; simpl; ring.
Qed.

(** The running balance at the end of the walk is the replay of the
    deltas. *)
Lemma runningBalance_replay events cutoff :
  runningBalance events cutoff == replay events.
Proof.
  unfold runningBalance, walk, replay.
  rewrite walk_from_running, SortFacts.stable_sort_sum. simpl. ring.
Qed.

Lemma eligible_bounds events cutoff :
  0 <= eligibleVests events cutoff /\
  eligibleVests events cutoff <= currentDelegation events cutoff.
Proof.
  unfold eligibleVests, currentDelegation, runningBalance, walk.
  pose proof (walk_from_nonneg cutoff
                (stable_sort by_event_time events) (0, 0)) as Hn.
  destruct (fold_left _ _ _) as [run elig]. simpl in *.
  assert (He : 0 <= elig) by (apply Hn; lra).
  destruct (Math_max_spec 0 run) as [[? ->]|[? ->]];
    [destruct (Math_min_spec elig run) as [[? ->]|[? ->]]
    |destruct (Math_min_spec elig 0) as [[? ->]|[? ->]]]; lra.
Qed.

End EligibilityFacts.

(** ** Allocation *)

Module AllocationFacts.
Import Allocation Observe.

Lemma count_succ (n : nat) : inject_Z (Z.of_nat (S n)) == 1 + inject_Z (Z.of_nat n).
Proof. rewrite Nat2Z.inj_succ, <- Z.add_1_l, inject_Z_plus. reflexivity. Qed.

(** The rounded shares of any list of stakes add up to the exact share of
    their sum, within half a unit of the sixth decimal per stake. *)
Lemma rounded_shares_sum (D t : Q) (l : list (string * Q)) :
  Qabs (sum (map (fun kv => baseReward D t kv.2) l) - D * (sum (map snd l) / t))
    <= inject_Z (Z.of_nat (length l)) * ((1 # 2) / scale 6).
Proof.
  induction l as [|[k h] l IH].
  - cbn [map length]. change (sum []) with 0.
    assert (E : 0 - D * (0 / t) == 0) by (unfold Qdiv; ring).
    rewrite E. change (inject_Z (Z.of_nat 0)) with 0.
    apply Qabs_Qle_condition. split; lra.
  - cbn [map length]. rewrite !sum_cons, count_succ. cbn [snd].
    set (S := sum (map (fun kv => baseReward D t kv.2) l)) in *.
    set (H := sum (map snd l)) in *.
    assert (E : baseReward D t h + S - D * ((h + H) / t) ==
                (baseReward D t h - D * (h / t)) + (S - D * (H / t)))
      by (unfold Qdiv; ring).
    rewrite E.
    eapply Qle_trans; [apply Qabs_triangle|].
    pose proof (toFixed_error 6 (D * (h / t))) as Hr.
    unfold baseReward. cbv zeta.
    set (e := (1 # 2) / scale 6) in *.
    assert (E2 : (1 + inject_Z (Z.of_nat (length l))) * e ==
                 e + inject_Z (Z.of_nat (length l)) * e) by ring.
    rewrite E2. now apply Qplus_le_compat.
Qed.

Lemma sum_positive (l : list (string * Q)) :
  l <> [] -> Forall (fun kv => 0 < kv.2) l -> 0 < sum (map snd l).
Proof.
  intros Hne Hpos.
  assert (Hnn : forall l', Forall (fun kv : string * Q => 0 < kv.2) l' ->
                           0 <= sum (map snd l')).
  { induction 1 as [|kv l' Hkv _ IH]; [change (sum (map snd [])) with 0; lra|].
    cbn [map]. rewrite sum_cons. lra. }
  destruct Hpos as [|kv l' Hkv Hl']; [congruence|].
  cbn [map]. rewrite sum_cons. specialize (Hnn _ Hl'). lra.
Qed.

Lemma allocate_rewards stakes total D :
  map (fun r => (name r, base_reward r)) (allocate stakes total D) =
  map (fun kv => (kv.1, baseReward D total kv.2)) (sortedDelegators stakes).
Proof.
  unfold allocate. rewrite map_map. apply map_ext. now intros [k h].
Qed.

Lemma allocate_base_rewards stakes total D :
  map base_reward (allocate stakes total D) =
  map (fun kv => baseReward D total kv.2) (sortedDelegators stakes).
Proof.
  unfold allocate. rewrite map_map. apply map_ext. now intros [k h].
Qed.

Lemma baseReward_exact D total h :
  baseReward D total h = toFixed 6 (D * h / total).
Proof.
  unfold baseReward. cbv zeta. apply toFixed_comp. unfold Qdiv. ring.
Qed.

Lemma half_unit_le_precision n :
  inject_Z (Z.of_nat n) * ((1 # 2) / scale 6) <= precision * inject_Z (Z.of_nat n).
Proof.
  assert (E : (1 # 2) / scale 6 == 1 # 2000000) by reflexivity.
  rewrite E. unfold precision.
  assert (0 <= inject_Z (Z.of_nat n)).
  { change 0 with (inject_Z 0). rewrite <- Zle_Qle. lia. }
  lra.
Qed.

(** The eligibility pass hands [main] a total that is the sum of the stakes
    it collected, each of them positive when the conversion rate is. *)
Lemma eligibleDelegators_total h cutoff fund shares :
  let r := Eligibility.eligibleDelegators h cutoff fund shares in
  r.2 == totalHP r.1 /\
  (0 < fund -> 0 < shares -> Forall (fun kv => 0 < kv.2) r.1).
Proof.
  unfold Eligibility.eligibleDelegators.
  assert (G : forall kvs acc,
    (acc.2 == totalHP acc.1 /\
     (0 < fund -> 0 < shares -> Forall (fun kv : string * Q => 0 < kv.2) acc.1)) ->
    let r := fold_left (Eligibility.eligible_step cutoff fund shares) kvs acc in
    r.2 == totalHP r.1 /\
    (0 < fund -> 0 < shares -> Forall (fun kv : string * Q => 0 < kv.2) r.1)).
  { induction kvs as [|[d events] kvs IH]; intros [l t] Hacc; [exact Hacc|].
    cbn [fold_left]. apply IH. unfold Eligibility.eligible_step.
    destruct (gtb (Eligibility.eligibleVests events cutoff) 0) eqn:E; [|exact Hacc].
    destruct Hacc as [Ht Hpos]. cbn [fst snd] in *. split.
    - unfold totalHP in *. rewrite map_app. cbn [map snd].
      rewrite sum_snoc, Ht. reflexivity.
    - intros Hf Hs. apply Forall_app. split; [now apply Hpos|].
      constructor; [|constructor]. cbn [snd].
      apply gtb_true in E. unfold Ledger.vestsToHP.
      apply Qlt_shift_div_l; [exact Hs|]. ring_simplify.
      apply Qmult_lt_0_compat; assumption. }
  apply G. cbn [fst snd]. split; [reflexivity|]. intros _ _. constructor.
Qed.

End AllocationFacts.

(** ** The payout executor *)

Module SendSBIFacts.
Import SendSBI Observe.

Lemma count_app {A} (f : A -> bool) l1 l2 :
  count f (l1 ++ l2) = (count f l1 + count f l2)%nat.
Proof. unfold count. now rewrite List.filter_app, length_app. Qed.

Lemma count_cons {A} (f : A -> bool) x l :
  count f (x :: l) = ((if f x then 1 else 0) + count f l)%nat.
Proof. unfold count. simpl. now destruct (f x). Qed.

Lemma count_none {A} (f : A -> bool) l :
  Forall (fun x => f x = false) l -> count f l = 0%nat.
Proof.
  induction 1 as [|x l Hx _ IH]; [reflexivity|].
  rewrite count_cons, Hx, IH. reflexivity.
Qed.

Lemma only_for_other d d' e :
  only_for d e -> d' <> d -> is_attempt_for d' e = false /\ is_confirmed_for d' e = false.
Proof.
  intros [_ H] Hne. split; [now apply H|].
  specialize (H d' Hne). destruct e; simpl in *; try reflexivity.
  - now rewrite H.
  - exact H.
Qed.

Lemma eqb_refl_true d : String.eqb d d = true.
Proof. apply String.eqb_refl. Qed.

Lemma eqb_neq_false d d' : d' <> d -> String.eqb d d' = false.
Proof. intros H. apply String.eqb_neq. congruence. Qed.

Lemma try_transfer_spec remaining env d n :
  let '(success, n', effs) := try_transfer remaining env d n in
  Forall (only_for d) effs /\
  outcome n' = outcome n /\
  attempts_for d effs = length effs /\
  confirmed_for d effs = (if success then 1 else 0)%nat.
Proof.
  revert n. induction remaining as [|r IH]; intros n; simpl.
  - repeat split; constructor.
  - destruct (outcome n (calls n)) eqn:Hc.
    + repeat split.
      * constructor; [|constructor]. split; [reflexivity|].
        intros d' Hne. simpl. now apply eqb_neq_false.
      * unfold attempts_for. rewrite count_cons. simpl. now rewrite eqb_refl_true.
      * unfold confirmed_for. rewrite count_cons. simpl. now rewrite eqb_refl_true.
    + set (n1 := match r with O => _ | S _ => _ end).
      specialize (IH n1).
      destruct (try_transfer r env d n1) as [[success n'] effs].
      destruct IH as (Hf & Ho & Ha & Hk).
      repeat split.
      * constructor; [|exact Hf]. split; [reflexivity|].
        intros d' Hne. simpl. now apply eqb_neq_false.
      * rewrite Ho. unfold n1. now destruct r.
      * unfold attempts_for in *. rewrite count_cons. simpl.
        now rewrite eqb_refl_true, Ha.
      * unfold confirmed_for in *. rewrite count_cons. simpl.
        now rewrite eqb_refl_true, Hk.
Qed.

Lemma sendSBI_spec env d n :
  let '(success, n', effs) := sendSBI env d n in
  Forall (only_for d) effs /\
  outcome n' = outcome n /\
  attempts_for d effs = length effs /\
  confirmed_for d effs = (if success then 1 else 0)%nat.
Proof.
  unfold sendSBI. destruct (IS_DRY_RUN env).
  - repeat split.
    + constructor; [|constructor]. split; [reflexivity|].
      intros d' Hne. simpl. now apply eqb_neq_false.
    + unfold attempts_for. rewrite count_cons. simpl. now rewrite eqb_refl_true.
    + unfold confirmed_for. rewrite count_cons. simpl. now rewrite eqb_refl_true.
  - destruct (String.eqb (ACTIVE_KEY env) "").
    + repeat split; constructor.
    + apply try_transfer_spec.
Qed.

(** When every attempt succeeds, [sendSBI] makes exactly one. *)
Lemma sendSBI_always env d n :
  always_succeeds env n ->
  exists n' e, sendSBI env d n = (true, n', [e]) /\
               is_confirmed_for d e = true /\ always_succeeds env n'.
Proof.
  intros Hall. unfold sendSBI. destruct (IS_DRY_RUN env) eqn:Hdry.
  - exists n, (DryRunSend d (memo_of env d)). repeat split; [|exact Hall].
    simpl. apply eqb_refl_true.
  - destruct Hall as [Hd|[Hkey Hout]]; [congruence|].
    apply String.eqb_neq in Hkey. rewrite Hkey. simpl. rewrite Hout.
    eexists _, _. repeat split.
    + simpl. now rewrite eqb_refl_true.
    + right. split; [now apply String.eqb_neq|exact Hout].
Qed.

(** The loop always leaves with the fuel [processSBIPayouts] gives it. *)
Lemma payout_loop_total fuel env today d data n :
  (Z.to_nat (Qfloor (2 * balance data)) < fuel)%nat ->
  is_Some (payout_loop fuel env today d data n).
Proof.
  revert data n. induction fuel as [|fuel IH]; intros data n Hf; [lia|].
  cbn [payout_loop]. destruct (geb (balance data) SBI_CHUNK) eqn:Hb; [|eauto].
  destruct (sendSBI env d n) as [[success n'] effs].
  destruct success; [|eauto].
  destruct (IH (confirm today data) n') as [r Hr]; [|rewrite Hr; eauto].
  apply geb_true in Hb. unfold SBI_CHUNK in Hb. cbn [confirm balance].
  pose proof (formatHIVE_chunk_down (balance data)) as Hd.
  unfold SBI_CHUNK.
  assert (H1 : (Qfloor (2 * formatHIVE (balance data - 1)) <=
                Qfloor (2 * balance data - 1))%Z) by (apply Qfloor_resp_le; lra).
  assert (H2 : (Qfloor (2 * balance data - 1) = Qfloor (2 * balance data) - 1)%Z).
  { assert (E : 2 * balance data - 1 == 2 * balance data + inject_Z (-1)) by ring.
    rewrite E, Qfloor_plus_Z. lia. }
  assert (H3 : (2 <= Qfloor (2 * balance data))%Z).
  { apply (Qfloor_resp_le 2). lra. }
  lia.
Qed.

Lemma always_succeeds_outcome env n n' :
  outcome n' = outcome n -> always_succeeds env n -> always_succeeds env n'.
Proof.
  intros Ho [Hd|[Hk Hall]]; [now left|right].
  split; [exact Hk|]. intros k. now rewrite Ho.
Qed.

Lemma logged_for_replicate today d d' k :
  logged_for d' (replicate k (log_entry today d)) =
  if String.eqb d d' then k else 0%nat.
Proof.
  unfold logged_for. induction k as [|k IH]; simpl.
  - now destruct (String.eqb d d').
  - rewrite count_cons, IH. simpl. now destruct (String.eqb d d').
Qed.

(** What one run of the loop for [d] amounts to: [k] confirmed transfers,
    [k] entries pushed, [confirm] applied [k] times to the entry. *)
Lemma payout_loop_spec fuel env today d data n r :
  payout_loop fuel env today d data n = Some r ->
  exists k,
    value r = Nat.iter k (confirm today) data /\
    pushed r = replicate k (log_entry today d) /\
    Forall (only_for d) (effects r) /\
    confirmed_for d (effects r) = k /\
    outcome (net r) = outcome n.
Proof.
  revert data n r. induction fuel as [|fuel IH]; intros data n r; [discriminate|].
  cbn [payout_loop]. destruct (geb (balance data) SBI_CHUNK).
  - pose proof (sendSBI_spec env d n) as Hs.
    destruct (sendSBI env d n) as [[success n'] effs].
    destruct Hs as (Hf & Ho & _ & Hc). destruct success.
    + destruct (payout_loop fuel env today d (confirm today data) n') as [r'|] eqn:Hr';
        [|discriminate].
      intros [= <-]. destruct (IH _ _ _ Hr') as (k & Hv & Hp & Hf' & Hc' & Ho').
      exists (S k). cbn [value pushed net effects]. repeat split.
      * now rewrite Nat.iter_succ_r.
      * now rewrite Hp.
      * now apply Forall_app.
      * unfold confirmed_for in *. now rewrite count_app, Hc, Hc'.
      * congruence.
    + intros [= <-]. exists 0%nat. cbn [value pushed net effects].
      repeat split; assumption.
  - intros [= <-]. exists 0%nat. repeat split. constructor.
Qed.

Lemma payout_entry_spec env today excluded d data n r :
  payout_entry env today excluded d data n = Some r ->
  exists k,
    value r = Nat.iter k (confirm today) data /\
    pushed r = replicate k (log_entry today d) /\
    Forall (only_for d) (effects r) /\
    confirmed_for d (effects r) = k /\
    outcome (net r) = outcome n.
Proof.
  unfold payout_entry.
  destruct (String.eqb d "_meta");
    [intros [= <-]; exists 0%nat; repeat split; constructor|].
  destruct (is_excluded excluded d);
    [intros [= <-]; exists 0%nat; repeat split; constructor|].
  apply payout_loop_spec.
Qed.

Lemma payout_entry_total env today excluded d data n :
  is_Some (payout_entry env today excluded d data n).
Proof.
  unfold payout_entry.
  destruct (String.eqb d "_meta"); [eauto|].
  destruct (is_excluded excluded d); [eauto|].
  apply payout_loop_total. unfold fuel_for. lia.
Qed.

Lemma payout_entries_total env today excluded entries n :
  is_Some (payout_entries env today excluded entries n).
Proof.
  revert n. induction entries as [|[d data] entries IH]; intros n; cbn [payout_entries].
  - eauto.
  - destruct (payout_entry_total env today excluded d data n) as [r1 ->].
    destruct (IH (net r1)) as [r2 ->]. eauto.
Qed.

Lemma processSBIPayouts_total env today d n :
  is_Some (processSBIPayouts env today d n).
Proof.
  unfold processSBIPayouts.
  destruct (payout_entries_total env today
              (getExcludedDelegators env (config_json d))
              (loadJSON (delegator_balances_json d) []) n) as [r ->].
  eauto.
Qed.

Lemma only_for_counts d d' effs :
  Forall (only_for d) effs -> d' <> d ->
  attempts_for d' effs = 0%nat /\ confirmed_for d' effs = 0%nat.
Proof.
  intros Hf Hne. split; apply count_none; eapply Forall_impl; try exact Hf;
    intros e He; now destruct (only_for_other d d' e He Hne).
Qed.

Lemma only_for_no_save d effs :
  Forall (only_for d) effs -> count is_save effs = 0%nat.
Proof.
  intros Hf. apply count_none. eapply Forall_impl; [exact Hf|].
  now intros e [He _].
Qed.

(** The loop over the entries never saves, keeps the keys, and leaves the
    nodes' behaviour as it was. *)
Lemma payout_entries_shape env today excluded entries n r :
  payout_entries env today excluded entries n = Some r ->
  map fst (value r) = map fst entries /\
  count is_save (effects r) = 0%nat /\
  outcome (net r) = outcome n.
Proof.
  revert n r. induction entries as [|[d data] entries IH]; intros n r;
    cbn [payout_entries].
  - intros [= <-]. repeat split.
  - destruct (payout_entry env today excluded d data n) as [r1|] eqn:H1; [|discriminate].
    destruct (payout_entries env today excluded entries (net r1)) as [r2|] eqn:H2;
      [|discriminate].
    intros [= <-]. cbn [value effects net].
    destruct (payout_entry_spec _ _ _ _ _ _ _ H1) as (k & _ & _ & Hf & _ & Ho).
    destruct (IH _ _ H2) as (Hk & Hs & Ho2). repeat split.
    + cbn [map fst]. now rewrite Hk.
    + now rewrite count_app, (only_for_no_save d), Hs.
    + congruence.
Qed.

(** A delegator gets one log entry per confirmed transfer. *)
Lemma payout_entries_logged env today excluded entries n r d :
  payout_entries env today excluded entries n = Some r ->
  logged_for d (pushed r) = confirmed_for d (effects r).
Proof.
  revert n r. induction entries as [|[k data] entries IH]; intros n r;
    cbn [payout_entries].
  - now intros [= <-].
  - destruct (payout_entry env today excluded k data n) as [r1|] eqn:H1; [|discriminate].
    destruct (payout_entries env today excluded entries (net r1)) as [r2|] eqn:H2;
      [|discriminate].
    intros [= <-]. cbn [pushed effects].
    destruct (payout_entry_spec _ _ _ _ _ _ _ H1) as (j & _ & Hp & Hf & Hc & _).
    unfold logged_for, confirmed_for in *. rewrite !count_app, (IH _ _ H2).
    f_equal. fold (logged_for d (pushed r1)). rewrite Hp, logged_for_replicate.
    destruct (String.eqb k d) eqn:E.
    + apply String.eqb_eq in E. subst k. now rewrite <- Hc.
    + apply String.eqb_neq in E.
      symmetry. apply (only_for_counts k d); [exact Hf|congruence].
Qed.

(** Delegators that are not keys of the object get nothing. *)
Lemma payout_entries_foreign env today excluded entries n r d :
  payout_entries env today excluded entries n = Some r ->
  d ∉ map fst entries ->
  attempts_for d (effects r) = 0%nat /\ confirmed_for d (effects r) = 0%nat.
Proof.
  revert n r. induction entries as [|[k data] entries IH]; intros n r;
    cbn [payout_entries].
  - now intros [= <-].
  - destruct (payout_entry env today excluded k data n) as [r1|] eqn:H1; [|discriminate].
    destruct (payout_entries env today excluded entries (net r1)) as [r2|] eqn:H2;
      [|discriminate].
    intros [= <-] Hnot. cbn [effects]. cbn [map fst] in Hnot.
    apply not_elem_of_cons in Hnot as [Hne Hnot].
    destruct (payout_entry_spec _ _ _ _ _ _ _ H1) as (j & _ & _ & Hf & _ & _).
    destruct (only_for_counts k d _ Hf Hne) as [Ha Hc].
    destruct (IH _ _ H2 Hnot) as [Ha2 Hc2].
    unfold attempts_for, confirmed_for in *. rewrite !count_app. lia.
Qed.

Import Accumulator.

Lemma get_cons_eq d data (entries : Balances) : get d ((d, data) :: entries) = Some data.
Proof. cbn [get]. now rewrite String.eqb_refl. Qed.

Lemma get_cons_ne d k data (entries : Balances) :
  k <> d -> get d ((k, data) :: entries) = get d entries.
Proof. intros H. cbn [get]. apply String.eqb_neq in H. now rewrite H. Qed.

Lemma get_Some_key d data (entries : Balances) :
  get d entries = Some data -> d ∈ map fst entries.
Proof.
  induction entries as [|[k e] entries IH]; [discriminate|].
  cbn [get map fst]. destruct (String.eqb k d) eqn:E.
  - apply String.eqb_eq in E. subst. intros _. apply elem_of_cons. now left.
  - intros H. apply elem_of_cons. right. now apply IH.
Qed.

(** With distinct keys, what the run does for [d] is what the body of the
    loop does on the entry of [d]. *)
Lemma payout_entries_at env today excluded entries n r d data :
  payout_entries env today excluded entries n = Some r ->
  NoDup (map fst entries) ->
  get d entries = Some data ->
  exists n1 r1,
    outcome n1 = outcome n /\
    payout_entry env today excluded d data n1 = Some r1 /\
    get d (value r) = Some (value r1) /\
    attempts_for d (effects r) = attempts_for d (effects r1) /\
    confirmed_for d (effects r) = confirmed_for d (effects r1).
Proof.
  revert n r. induction entries as [|[k e] entries IH]; intros n r;
    cbn [payout_entries]; [discriminate 3|].
  destruct (payout_entry env today excluded k e n) as [r1|] eqn:H1; [|discriminate].
  destruct (payout_entries env today excluded entries (net r1)) as [r2|] eqn:H2;
    [|discriminate].
  intros [= <-] Hnd Hget. cbn [value effects]. cbn [map fst] in Hnd.
  apply NoDup_cons in Hnd as [Hk Hnd].
  destruct (payout_entry_spec _ _ _ _ _ _ _ H1) as (j & _ & _ & Hf & _ & Ho).
  destruct (String.eqb k d) eqn:E.
  - apply String.eqb_eq in E. subst k.
    rewrite get_cons_eq in Hget. injection Hget as ->.
    exists n, r1. rewrite get_cons_eq.
    destruct (payout_entries_foreign _ _ _ _ _ _ d H2 Hk) as [Ha Hc].
    unfold attempts_for, confirmed_for in *. rewrite !count_app, Ha, Hc.
    repeat split; auto.
  - apply String.eqb_neq in E. rewrite get_cons_ne in Hget by exact E.
    destruct (IH _ _ H2 Hnd Hget) as (n1 & r1' & Ho1 & Hp & Hg & Ha & Hc).
    exists n1, r1'. rewrite get_cons_ne by exact E.
    destruct (only_for_counts k d _ Hf) as [Ha0 Hc0]; [congruence|].
    unfold attempts_for, confirmed_for in *. rewrite !count_app, Ha0, Hc0.
    repeat split; auto. congruence.
Qed.

(** The balance and [total_sent] of a delegator move by one [confirm] per
    confirmed transfer. *)
Lemma payout_entries_account env today excluded entries n r d data :
  payout_entries env today excluded entries n = Some r ->
  NoDup (map fst entries) ->
  get d entries = Some data ->
  get d (value r) =
    Some (Nat.iter (confirmed_for d (effects r)) (confirm today) data).
Proof.
  intros Hr Hnd Hget.
  destruct (payout_entries_at _ _ _ _ _ _ _ _ Hr Hnd Hget)
    as (n1 & r1 & _ & Hp & Hg & _ & Hc).
  destruct (payout_entry_spec _ _ _ _ _ _ _ Hp) as (j & Hv & _ & _ & Hj & _).
  rewrite Hg, Hc, Hj, Hv. reflexivity.
Qed.

(** Balance 2.4, every attempt confirmed: two turns of the loop. *)
Lemma payout_loop_two_chunks env today d data n :
  always_succeeds env n ->
  balance data == 24 # 10 ->
  exists r,
    payout_loop (fuel_for data) env today d data n = Some r /\
    value r = confirm today (confirm today data) /\
    balance (value r) = 2 # 5 /\
    attempts_for d (effects r) = 2%nat /\
    confirmed_for d (effects r) = 2%nat.
Proof.
  intros Hall Hb.
  assert (Hfuel : fuel_for data = 5%nat).
  { unfold fuel_for. assert (E : 2 * balance data == 48 # 10) by (rewrite Hb; reflexivity).
    now rewrite E. }
  assert (Hb1 : balance (confirm today data) = 7 # 5).
  { cbn [confirm balance]. unfold formatHIVE, SBI_CHUNK.
    assert (E : balance data - 1 == 14 # 10) by (rewrite Hb; reflexivity).
    now rewrite E. }
  assert (Hb2 : balance (confirm today (confirm today data)) = 2 # 5).
  { cbn [confirm balance] in *. now rewrite Hb1. }
  destruct (sendSBI_always env d n Hall) as (n1 & e1 & Hs1 & Hc1 & Hall1).
  destruct (sendSBI_always env d n1 Hall1) as (n2 & e2 & Hs2 & Hc2 & Hall2).
  assert (Ha : forall e, is_confirmed_for d e = true -> is_attempt_for d e = true).
  { intros [d' ? ? ? c|d' ?| |]; simpl; try discriminate; [|auto].
    now intros [? _]%andb_true_iff. }
  rewrite Hfuel. cbn [payout_loop].
  assert (G0 : geb (balance data) SBI_CHUNK = true)
    by (apply geb_true; unfold SBI_CHUNK; lra).
  rewrite G0, Hs1. cbn [payout_loop]. rewrite Hb1.
  change (geb (7 # 5) SBI_CHUNK) with true. cbv iota. rewrite Hs2.
  cbn [payout_loop]. rewrite Hb2.
  change (geb (2 # 5) SBI_CHUNK) with false. cbv iota.
  eexists. split; [reflexivity|]. cbn [value effects]. repeat split.
  - exact Hb2.
  - unfold attempts_for. rewrite !count_app, !count_cons, !Ha by assumption.
    reflexivity.
  - unfold confirmed_for. rewrite !count_app, !count_cons, Hc1, Hc2.
    reflexivity.
Qed.

(** On amounts with three decimals, [confirm] applied [k] times takes [k]
    chunks off the balance and adds [k] chunks to [total_sent]. *)
Lemma confirm_iter_amounts today data k :
  is_amount (balance data) ->
  is_amount (orZero (total_sent data)) ->
  let data' := Nat.iter k (confirm today) data in
  balance data' == balance data - SBI_CHUNK * inject_Z (Z.of_nat k) /\
  orZero (total_sent data') ==
    orZero (total_sent data) + SBI_CHUNK * inject_Z (Z.of_nat k) /\
  is_amount (balance data') /\ is_amount (orZero (total_sent data')).
Proof.
  unfold is_amount, formatHIVE, SBI_CHUNK. intros Hb Ht. cbv zeta.
  induction k as [|k (IHb & IHt & IHab & IHat)].
  - cbn [Nat.iter nat_rect]. change (inject_Z (Z.of_nat 0)) with 0.
    split; [ring|]. split; [ring|]. split; assumption.
  - change (Nat.iter (S k) (confirm today) data)
      with (confirm today (Nat.iter k (confirm today) data)).
    set (prev := Nat.iter k (confirm today) data) in *.
    cbn [confirm balance total_sent].
    change (orZero (Some ?x)) with x. unfold formatHIVE, SBI_CHUNK.
    assert (Eb : toFixed 3 (balance prev - 1) == balance prev - 1).
    { assert (E : balance prev - 1 == balance prev + inject_Z (-1)) by ring.
      rewrite (toFixed_comp 3 _ _ E), E. now apply toFixed_fixpoint_shift. }
    assert (Et : toFixed 3 (orZero (total_sent prev) + 1) ==
                 orZero (total_sent prev) + 1).
    { apply (toFixed_fixpoint_shift 3 _ 1). exact IHat. }
    assert (Es : inject_Z (Z.of_nat (S k)) == inject_Z (Z.of_nat k) + 1).
    { rewrite Nat2Z.inj_succ, <- Z.add_1_r, inject_Z_plus. reflexivity. }
    clearbody prev. split; [|split; [|split]].
    + rewrite Eb, IHb, Es. ring.
    + rewrite Et, IHt, Es. ring.
    + rewrite (toFixed_comp 3 _ _ Eb). reflexivity.
    + rewrite (toFixed_comp 3 _ _ Et). reflexivity.
Qed.

(** After a confirmed transfer the loop goes on from the entry as [confirm]
    left it, the log entry pushed: the next attempt sees the decrement. *)
Lemma payout_loop_proceeds fuel env today d data n n' effs :
  geb (balance data) SBI_CHUNK = true ->
  sendSBI env d n = (true, n', effs) ->
  payout_loop (S fuel) env today d data n =
    match payout_loop fuel env today d (confirm today data) n' with
    | None => None
    | Some r =>
        Some {| value := value r; pushed := log_entry today d :: pushed r;
                net := net r; effects := effs ++ effects r |}
    end.
Proof. intros Hb Hs. cbn [payout_loop]. now rewrite Hb, Hs. Qed.

End SendSBIFacts.

Module ExclusionFacts.
Import SendSBI Observe SendSBIFacts Accumulator.

Lemma lower_ascii_idem c : lower_ascii (lower_ascii c) = lower_ascii c.
Proof. destruct c as [[] [] [] [] [] [] [] []]; reflexivity. Qed.

Lemma toLowerCase_idem s : toLowerCase (toLowerCase s) = toLowerCase s.
Proof.
  induction s as [|c s IH]; [reflexivity|].
  cbn [toLowerCase]. now rewrite lower_ascii_idem, IH.
Qed.

(** Membership in the [Set] built by [getExcludedDelegators]. *)
Lemma is_excluded_iff env cfg d :
  is_excluded (getExcludedDelegators env cfg) d = true <->
  exists x, x ∈ fromFile cfg ++ fromEnv env /\ toLowerCase x = toLowerCase d.
Proof.
  unfold is_excluded, getExcludedDelegators.
  rewrite bool_decide_eq_true, elem_of_list_to_set, list_elem_of_In, in_map_iff.
  split; intros (x & H1 & H2).
  - exists x. split; [now apply list_elem_of_In|exact H1].
  - exists x. split; [exact H2|now apply list_elem_of_In].
Qed.

Lemma fromEnv_iff env s :
  s ∈ fromEnv env <->
  s <> ""%string /\
  exists piece, piece ∈ split_comma (default ""%string (SBI_EXCLUDE env)) /\
                trim piece = s.
Proof.
  unfold fromEnv. rewrite list_elem_of_filter, list_elem_of_In, in_map_iff.
  unfold nonempty. rewrite negb_true_iff, String.eqb_neq.
  split; intros [H1 (x & H2 & H3)]; (split; [exact H1|exists x]).
  - split; [now apply list_elem_of_In|exact H2].
  - split; [exact H3|now apply list_elem_of_In].
Qed.


End ExclusionFacts.

(** ** The accumulation stage *)

Module StageFacts.
Import FetchRewards SendSBI Accumulator Observe SendSBIFacts.

Lemma validate_delegators_valid ds :
  Forall valid_delegator ds -> exists l, validate_delegators ds = Done l.
Proof.
  induction 1 as [|d ds (rd & name & reward & -> & Hn & Hne & Hr) _ [l IH]].
  - now exists [].
  - cbn [validate_delegators]. rewrite Hn, Hr.
    apply String.eqb_neq in Hne. rewrite Hne. cbn [negb]. rewrite IH. eauto.
Qed.

Lemma validate_delegators_invalid ds :
  ~ Forall valid_delegator ds ->
  validate_delegators ds = Exit 1 \/ validate_delegators ds = Uncaught.
Proof.
  induction ds as [|d ds IH]; intros Hnot.
  - exfalso. apply Hnot. constructor.
  - cbn [validate_delegators]. destruct d as [rd|]; [|now right].
    destruct (raw_name rd) as [name|] eqn:Hn; [|now left].
    destruct (raw_base_reward rd) as [reward|] eqn:Hr; [|now left].
    destruct (String.eqb name "") eqn:Hne; [now left|]. cbn [negb].
    assert (Hd : valid_delegator (Some rd)).
    { exists rd, name, reward. repeat split; try assumption.
      now apply String.eqb_neq. }
    destruct IH as [IH|IH]; [|rewrite IH; now left|rewrite IH; now right].
    intros Hds. apply Hnot. now constructor.
Qed.

Lemma fetchRewards_accepted f :
  accepted f -> exists summary, fetchRewards f = Done summary.
Proof.
  intros (s & -> & ((dt & Hdt & Hne) & [hp Hhp] & (ds & Hds & Hall)) & Hnonempty).
  unfold fetchRewards. cbn [loadJSON]. unfold truthy. rewrite Hdt, Hhp, Hds.
  apply String.eqb_neq in Hne. rewrite Hne. cbn [negb].
  destruct ds as [|d ds]; [now rewrite Hds in Hnonempty|].
  destruct (validate_delegators_valid _ Hall) as [l ->]. eauto.
Qed.

Lemma fetchRewards_not_accepted f :
  ~ accepted f -> fetchRewards f = Exit 1 \/ fetchRewards f = Uncaught.
Proof.
  intros Hnot. unfold fetchRewards.
  destruct f as [| |[|s]]; cbn [loadJSON]; try now left.
  unfold truthy.
  destruct (raw_date s) as [dt|] eqn:Hdt; [|now left].
  destruct (String.eqb dt "") eqn:Hne; [now left|]. cbn [negb].
  destruct (raw_total_delegation_hp s) as [hp|] eqn:Hhp; [|now left].
  destruct (raw_delegators s) as [[|d ds]|] eqn:Hds; try now left.
  destruct (validate_delegators_invalid (d :: ds)) as [E|E];
    [|rewrite E; now left|rewrite E; now right].
  intros Hall. apply Hnot. exists s. split; [reflexivity|]. split.
  - split; [exists dt; split; [exact Hdt|now apply String.eqb_neq]|].
    split; [rewrite Hhp; eauto|]. exists (d :: ds). now split.
  - rewrite Hds. discriminate.
Qed.

Lemma disk_after_no_save d effs :
  count is_save effs = 0%nat -> disk_after d effs = d.
Proof.
  unfold disk_after. revert d. induction effs as [|e effs IH]; intros d; [reflexivity|].
  rewrite count_cons. destruct e; cbn [is_save]; try discriminate;
    intros H; cbn [fold_left apply_effect]; now apply IH.
Qed.

Lemma disk_after_app d effs1 effs2 :
  disk_after d (effs1 ++ effs2) = disk_after (disk_after d effs1) effs2.
Proof. unfold disk_after. apply fold_left_app. Qed.

Lemma count_take_none {A} (f : A -> bool) l k :
  count f l = 0%nat -> count f (take k l) = 0%nat.
Proof.
  revert k. induction l as [|x l IH]; intros [|k]; try reflexivity.
  rewrite count_cons. cbn [take]. rewrite count_cons.
  destruct (f x); [discriminate|]. cbn. apply IH.
Qed.

Lemma get_update name f (balances : Balances) :
  get name (update name f balances) = f <$> get name balances.
Proof.
  induction balances as [|[k e] balances IH]; [reflexivity|].
  cbn [update get]. destruct (String.eqb k name) eqn:E; cbn [get]; rewrite E.
  - reflexivity.
  - exact IH.
Qed.

Lemma get_snoc name k e (balances : Balances) :
  get name (balances ++ [(k, e)]) =
  match get name balances with
  | Some x => Some x
  | None => if String.eqb k name then Some e else None
  end.
Proof.
  induction balances as [|[k' e'] balances IH]; [reflexivity|].
  cbn [app get]. now destruct (String.eqb k' name).
Qed.

Lemma update_absent name f (balances : Balances) :
  get name balances = None -> update name f balances = balances.
Proof.
  induction balances as [|[k e] rest IH]; [reflexivity|].
  cbn [get update]. destruct (String.eqb k name); [discriminate|].
  intros H. now rewrite IH.
Qed.

Lemma get_update_ne name name' f (balances : Balances) :
  name' <> name -> get name' (update name f balances) = get name' balances.
Proof.
  intros Hne. induction balances as [|[k e] rest IH]; [reflexivity|].
  cbn [update]. destruct (String.eqb k name) eqn:Ek.
  - apply String.eqb_eq in Ek. subst k. cbn [get].
    rewrite (eqb_neq_false name name') by exact Hne. reflexivity.
  - cbn [get]. destruct (String.eqb k name'); [reflexivity|exact IH].
Qed.

(** What the loop body of [accumulate] leaves under the name it handles. *)
Lemma accrue_one_get multiplier today balances name base_reward :
  AccrualNotions.creditable balances name = true ->
  get name (accrue_one multiplier today balances (name, base_reward)) =
  Some (credit today (formatHIVE (base_reward * multiplier))
          (default {| balance := 0; total_sent := Some 0; last_updated := today |}
                   (get name balances))).
Proof.
  unfold AccrualNotions.creditable, accrue_one. rewrite get_update.
  destruct (get name balances) as [e|] eqn:E.
  - intros _. now rewrite E.
  - destruct (Objects.inherited name); [discriminate|]. intros _.
    now rewrite get_snoc, E, String.eqb_refl.
Qed.

(** A name that only [Object.prototype] knows is passed over. *)
Lemma accrue_one_inherited multiplier today balances name base_reward :
  AccrualNotions.creditable balances name = false ->
  accrue_one multiplier today balances (name, base_reward) = balances.
Proof.
  unfold AccrualNotions.creditable, accrue_one.
  destruct (get name balances) as [e|] eqn:E; [discriminate|].
  destruct (Objects.inherited name); [|discriminate].
  intros _. now apply update_absent.
Qed.

Lemma accrue_one_other multiplier today balances name base_reward name' :
  name' <> name ->
  get name' (accrue_one multiplier today balances (name, base_reward)) = get name' balances.
Proof.
  intros Hne. unfold accrue_one. rewrite get_update_ne by exact Hne.
  destruct (get name balances); [reflexivity|].
  destruct (Objects.inherited name); [reflexivity|].
  rewrite get_snoc. rewrite (eqb_neq_false name name') by exact Hne.
  now destruct (get name' balances).
Qed.

Lemma accrue_other multiplier today balances delegators name :
  name ∉ map fst delegators ->
  get name (accrue multiplier today balances delegators) = get name balances.
Proof.
  unfold accrue. revert balances.
  induction delegators as [|[k base] delegators IH]; intros balances Hn; [reflexivity|].
  cbn [fold_left]. cbn [map fst] in Hn. apply not_elem_of_cons in Hn as [Hne Hn].
  rewrite IH by exact Hn. now apply accrue_one_other.
Qed.

Lemma creditable_other multiplier today balances name base_reward name' :
  name' <> name ->
  AccrualNotions.creditable
    (accrue_one multiplier today balances (name, base_reward)) name' =
  AccrualNotions.creditable balances name'.
Proof.
  intros Hne. unfold AccrualNotions.creditable.
  now rewrite accrue_one_other by exact Hne.
Qed.

(** What the loop of [accumulate] leaves for a delegator it lists. *)
Lemma accrue_listed multiplier today balances delegators name base_reward :
  NoDup (map fst delegators) ->
  (name, base_reward) ∈ delegators ->
  AccrualNotions.creditable balances name = true ->
  get name (accrue multiplier today balances delegators) =
    Some (credit today (formatHIVE (base_reward * multiplier))
            (default (PayoutNotions.fresh today) (get name balances))).
Proof.
  unfold accrue. revert balances.
  induction delegators as [|[k b] delegators IH]; intros balances Hnd Hin Hc.
  { now apply elem_of_nil in Hin. }
  cbn [map fst] in Hnd. apply NoDup_cons in Hnd as [Hk Hnd].
  cbn [fold_left]. apply elem_of_cons in Hin as [Heq|Hin].
  - injection Heq as -> ->.
    fold (accrue multiplier today (accrue_one multiplier today balances (k, b)) delegators).
    rewrite (accrue_other _ _ _ _ k Hk). now apply accrue_one_get.
  - assert (Hne : name <> k).
    { intros ->. apply Hk. apply list_elem_of_fmap. now exists (k, base_reward). }
    rewrite (IH _ Hnd Hin).
    + now rewrite (accrue_one_other _ _ _ _ _ _ Hne).
    + now rewrite creditable_other.
Qed.

(** ... and for a name that only [Object.prototype] knows. *)
Lemma accrue_inherited multiplier today balances delegators name :
  AccrualNotions.creditable balances name = false ->
  get name (accrue multiplier today balances delegators) = get name balances.
Proof.
  unfold accrue. revert balances.
  induction delegators as [|[k b] delegators IH]; intros balances Hc; [reflexivity|].
  cbn [fold_left]. destruct (decide (name = k)) as [->|Hne].
  - rewrite accrue_one_inherited by exact Hc. now apply IH.
  - rewrite IH by now rewrite creditable_other.
    now apply accrue_one_other.
Qed.

End StageFacts.

(** ** Doubles, and the ledger over them *)

(** ** Rounding to binary64 *)

Module Binary64Facts.
Import Binary64.

Lemma pow2_pos e : 0 < pow2 e.
Proof. apply Qpower_0_lt. reflexivity. Qed.

Lemma pow2_add a b : pow2 (a + b) == pow2 a * pow2 b.
Proof. apply Qpower_plus. discriminate. Qed.

Lemma pow2_le a b : (a <= b)%Z -> pow2 a <= pow2 b.
Proof. intros H. apply Qpower_le_compat_l; [exact H|discriminate]. Qed.

Lemma pow2_Z e : (0 <= e)%Z -> pow2 e == inject_Z (2 ^ e).
Proof. intros H. unfold pow2. now rewrite Zpower_Qpower. Qed.

Lemma pow2_opp e : pow2 (- e) == / pow2 e.
Proof. apply Qpower_opp. Qed.

Lemma Q_as_quotient x : x == inject_Z (Qnum x) / inject_Z (Zpos (Qden x)).
Proof.
  destruct x as [n d]. cbn [Qnum Qden]. unfold Qeq, Qdiv, Qmult, Qinv, inject_Z.
  cbn. lia.
Qed.

(** [ilog2] does not overshoot. *)
Lemma ilog2_lower x : 0 < x -> pow2 (ilog2 x) <= x.
Proof.
  intros Hx. unfold ilog2. cbv zeta.
  set (a := Z.log2 (Qnum x)). set (b := Z.log2 (Zpos (Qden x))).
  destruct (Qle_bool (pow2 (a - b)) x) eqn:E; [now apply Qle_bool_iff|].
  assert (Hn : (0 < Qnum x)%Z).
  { destruct x as [n d]. unfold Qlt in Hx. cbn in *. lia. }
  destruct (Z.log2_spec (Qnum x) Hn) as [Ha _]. fold a in Ha.
  destruct (Z.log2_spec (Zpos (Qden x)) (Pos2Z.is_pos _)) as [_ Hb]. fold b in Hb.
  assert (Ha0 : (0 <= a)%Z) by apply Z.log2_nonneg.
  assert (Hb0 : (0 <= b)%Z) by apply Z.log2_nonneg.
  replace (a - b - 1)%Z with (a + - (Z.succ b))%Z by lia.
  rewrite pow2_add, pow2_opp, (pow2_Z a Ha0), (pow2_Z (Z.succ b)) by lia.
  assert (Hp : (0 < 2 ^ Z.succ b)%Z) by (apply Z.pow_pos_nonneg; lia).
  assert (Hq : (0 < 2 ^ a)%Z) by (apply Z.pow_pos_nonneg; lia).
  apply Qle_shift_div_r.
  { change 0 with (inject_Z 0). now rewrite <- Zlt_Qlt. }
  revert Ha Hb Hp Hq. generalize (2 ^ a)%Z (2 ^ Z.succ b)%Z. intros A B Ha Hb Hp Hq.
  destruct x as [n d]. unfold Qle, Qmult, inject_Z. cbn [Qnum Qden] in *.
  nia.
Qed.

Lemma half_even_comp y y' : y == y' -> half_even y = half_even y'.
Proof.
  intros E. unfold half_even. cbv zeta. rewrite (Qfloor_comp _ _ E).
  assert (E' : y - inject_Z (Qfloor y') == y' - inject_Z (Qfloor y')) by now rewrite E.
  now rewrite (Qcompare_comp _ _ E' _ _ (Qeq_refl (1 # 2))).
Qed.

Lemma half_even_error y : Qabs (inject_Z (half_even y) - y) <= 1 # 2.
Proof.
  unfold half_even. cbv zeta.
  pose proof (Qfloor_le y) as H1. pose proof (Qlt_floor y) as H2.
  rewrite inject_Z_plus in H2. change (inject_Z 1) with 1 in H2.
  set (f := Qfloor y) in *.
  assert (Hf : Qabs (inject_Z f - y) <= 1 # 2 <-> y - inject_Z f <= 1 # 2).
  { split; intros H.
    - apply Qabs_Qle_condition in H. lra.
    - apply Qabs_Qle_condition. split; lra. }
  assert (Hf1 : Qabs (inject_Z (f + 1) - y) <= 1 # 2 <-> 1 # 2 <= y - inject_Z f).
  { rewrite inject_Z_plus. change (inject_Z 1) with 1. split; intros H.
    - apply Qabs_Qle_condition in H. lra.
    - apply Qabs_Qle_condition. split; lra. }
  destruct (Qcompare_spec (y - inject_Z f) (1 # 2)) as [E|E|E].
  - destruct (Z.even f); [apply Hf|apply Hf1]; lra.
  - apply Hf. lra.
  - apply Hf1. lra.
Qed.

Lemma half_even_Z k : half_even (inject_Z k) = k.
Proof.
  unfold half_even. cbv zeta. rewrite Qfloor_Z.
  assert (E : inject_Z k - inject_Z k == 0) by ring.
  now rewrite (Qcompare_comp _ _ E _ _ (Qeq_refl (1 # 2))).
Qed.

(** *** The grid *)

Lemma grid_0 : grid 0.
Proof. exists 0%Z. change (inject_Z 0) with 0. ring. Qed.

Lemma grid_opp x : grid x -> grid (- x).
Proof. intros [k H]. exists (- k)%Z. rewrite H, inject_Z_opp. ring. Qed.

Lemma grid_plus x y : grid x -> grid y -> grid (x + y).
Proof.
  intros [k H] [l H']. exists (k + l)%Z. rewrite H, H', inject_Z_plus. ring.
Qed.

Lemma grid_minus x y : grid x -> grid y -> grid (x - y).
Proof. intros Hx Hy. apply grid_plus; [exact Hx|now apply grid_opp]. Qed.

Lemma grid_comp x y : x == y -> grid x -> grid y.
Proof. intros E [k H]. exists k. now rewrite <- E. Qed.

(** *** What [round64] returns *)

Lemma ulp_exponent_ge x : (-1074 <= ulp_exponent x)%Z.
Proof. unfold ulp_exponent. lia. Qed.

Lemma round64_0 x : x == 0 -> round64 x = 0.
Proof. intros E. unfold round64. apply Qeq_bool_iff in E. now rewrite E. Qed.

Lemma round64_value x :
  ~ x == 0 ->
  let e := ulp_exponent x in
  let m := half_even (Qabs x / pow2 e) in
  (0 <= x -> round64 x == inject_Z m * pow2 e) /\
  (x <= 0 -> round64 x == - (inject_Z m * pow2 e)).
Proof.
  intros Hx e m. unfold round64.
  destruct (Qeq_bool x 0) eqn:E0; [apply Qeq_bool_iff in E0; contradiction|].
  cbv zeta. fold e. fold m. rewrite Qred_correct.
  destruct (Qle_bool 0 x) eqn:E.
  - split; [reflexivity|]. intros H. apply Qle_bool_iff in E.
    exfalso. apply Hx. lra.
  - split; [|reflexivity]. intros H. apply Qle_bool_iff in H. congruence.
Qed.

Lemma round64_grid x : grid (round64 x).
Proof.
  destruct (Qeq_dec x 0) as [E|E].
  { rewrite (round64_0 x E). apply grid_0. }
  pose proof (round64_value x E) as [Hp Hn]. cbv zeta in Hp, Hn.
  set (e := ulp_exponent x) in *. set (m := half_even (Qabs x / pow2 e)) in *.
  pose proof (ulp_exponent_ge x) as He. fold e in He.
  assert (Hg : grid (inject_Z m * pow2 e)).
  { exists (m * 2 ^ (e + 1074))%Z.
    rewrite inject_Z_mult, <- (pow2_Z (e + 1074)) by lia.
    rewrite <- Qmult_assoc, <- pow2_add.
    replace (e + 1074 + -1074)%Z with e by lia. reflexivity. }
  destruct (Qlt_le_dec x 0) as [H|H].
  - apply (grid_comp (- (inject_Z m * pow2 e))); [symmetry; apply Hn; lra|].
    now apply grid_opp.
  - apply (grid_comp (inject_Z m * pow2 e)); [symmetry; now apply Hp|exact Hg].
Qed.

(** The result is within half a unit of the last place. *)
Lemma round64_half_ulp x :
  ~ x == 0 -> Qabs (round64 x - x) <= pow2 (ulp_exponent x) * (1 # 2).
Proof.
  intros Hx. pose proof (round64_value x Hx) as [Hp Hn]. cbv zeta in Hp, Hn.
  set (e := ulp_exponent x) in *. set (m := half_even (Qabs x / pow2 e)) in *.
  pose proof (pow2_pos e) as He.
  pose proof (half_even_error (Qabs x / pow2 e)) as Hm. fold m in Hm.
  assert (Hs : Qabs (inject_Z m * pow2 e - Qabs x) <= pow2 e * (1 # 2)).
  { assert (E : inject_Z m * pow2 e - Qabs x ==
                (inject_Z m - Qabs x / pow2 e) * pow2 e) by (field; lra).
    rewrite E, Qabs_Qmult, (Qabs_pos (pow2 e)) by lra.
    rewrite (Qmult_comm (pow2 e)). apply Qmult_le_compat_r; [exact Hm|lra]. }
  destruct (Qlt_le_dec x 0) as [H|H].
  - rewrite (Qabs_neg x) in Hs by lra.
    assert (E : round64 x - x == - (inject_Z m * pow2 e - - x)).
    { rewrite Hn by lra. ring. }
    rewrite E, Qabs_opp. exact Hs.
  - rewrite (Qabs_pos x) in Hs by exact H.
    assert (E : round64 x - x == inject_Z m * pow2 e - x).
    { rewrite Hp by exact H. ring. }
    rewrite E. exact Hs.
Qed.

Lemma u_value : u == 1 # 9007199254740992.
Proof. reflexivity. Qed.

Lemma Qabs_pos_lt x : ~ x == 0 -> 0 < Qabs x.
Proof.
  intros Hx. destruct (Qlt_le_dec x 0) as [H|H].
  - rewrite Qabs_neg by lra. lra.
  - rewrite Qabs_pos by exact H.
    destruct (Qlt_le_dec 0 x) as [H'|H']; [exact H'|].
    exfalso. apply Hx. lra.
Qed.

(** In the normal range the error is relative. *)
Lemma round64_error_normal x :
  ~ x == 0 -> (-1074 <= ilog2 (Qabs x) - 52)%Z ->
  Qabs (round64 x - x) <= u * Qabs x.
Proof.
  intros Hx He. eapply Qle_trans; [now apply round64_half_ulp|].
  unfold ulp_exponent. rewrite Z.max_l by exact He.
  pose proof (Qabs_pos_lt x Hx) as Hpos.
  pose proof (ilog2_lower (Qabs x) Hpos) as Hl.
  replace (ilog2 (Qabs x) - 52)%Z with (ilog2 (Qabs x) + -52)%Z by lia.
  rewrite pow2_add.
  assert (E : pow2 (-52) * (1 # 2) == u) by reflexivity.
  rewrite <- Qmult_assoc, E, Qmult_comm.
  apply Qmult_le_l; [reflexivity|exact Hl].
Qed.

(** Below the normal range the numbers of the grid are doubles. *)
Lemma round64_exact_small x :
  grid x -> ~ x == 0 -> (ilog2 (Qabs x) - 52 < -1074)%Z -> round64 x == x.
Proof.
  intros [k Hk] Hx He.
  pose proof (round64_value x Hx) as [Hp Hn]. cbv zeta in Hp, Hn.
  assert (Ee : ulp_exponent x = (-1074)%Z) by (unfold ulp_exponent; lia).
  rewrite Ee in Hp, Hn.
  pose proof (pow2_pos (-1074)) as H0.
  assert (Ha : Qabs x / pow2 (-1074) == inject_Z (Z.abs k)).
  { rewrite Hk, Qabs_Qmult, (Qabs_pos (pow2 (-1074))) by lra.
    change (Qabs (inject_Z k)) with (inject_Z (Z.abs k)). field. lra. }
  rewrite (half_even_comp _ _ Ha), half_even_Z in Hp, Hn.
  destruct (Qlt_le_dec x 0) as [H|H].
  - rewrite Hn by lra. rewrite Hk in H |- *.
    assert (Hk0 : (k < 0)%Z).
    { destruct (Z_lt_le_dec k 0) as [?|Hge]; [assumption|exfalso].
      assert (0 <= inject_Z k) by (change 0 with (inject_Z 0); now rewrite <- Zle_Qle).
      assert (0 <= inject_Z k * pow2 (-1074)) by (apply Qmult_le_0_compat; lra). lra. }
    rewrite Z.abs_neq by lia. rewrite inject_Z_opp. ring.
  - rewrite Hp by exact H. rewrite Hk in H |- *.
    assert (Hk0 : (0 <= k)%Z).
    { destruct (Z_lt_le_dec k 0) as [Hlt|?]; [exfalso|assumption].
      assert (inject_Z k < 0) by (change 0 with (inject_Z 0); now rewrite <- Zlt_Qlt).
      assert (0 <= inject_Z k * pow2 (-1074)) by exact H.
      assert (0 <= (- inject_Z k) * pow2 (-1074)) by (apply Qmult_le_0_compat; lra).
      assert (E : inject_Z k * pow2 (-1074) == 0) by lra.
      apply Hx. rewrite Hk. exact E. }
    rewrite Z.abs_eq by exact Hk0. reflexivity.
Qed.

(** Rounding a number of the grid, such as the sum or the difference of
    two doubles, has a relative error of at most [u], underflow
    included. *)
Lemma round64_error_grid x : grid x -> Qabs (round64 x - x) <= u * Qabs x.
Proof.
  intros Hg. destruct (Qeq_dec x 0) as [E|E].
  { rewrite (round64_0 x E), E. apply Qle_bool_iff. reflexivity. }
  destruct (Z_lt_le_dec (ilog2 (Qabs x) - 52) (-1074)) as [H|H].
  - rewrite (round64_exact_small x Hg E H).
    assert (E0 : x - x == 0) by ring. rewrite E0. change (Qabs 0) with 0.
    apply Qmult_le_0_compat; [discriminate|apply Qabs_nonneg].
  - now apply round64_error_normal.
Qed.

End Binary64Facts.

Module Ledger64Facts.
Import Ledger Binary64 Binary64Facts Objects Ledger64.

Lemma pow2_m50 : pow2 (-50) == 1 # 1125899906842624.
Proof. reflexivity. Qed.

Lemma previousTotal_snoc64 prev e : previousTotal (prev ++ [e]) = totalVests e.
Proof. unfold previousTotal. now rewrite last_snoc. Qed.

Lemma replay_snoc64 prev e : replay (prev ++ [e]) = fadd (replay prev) (vests e).
Proof. unfold replay. now rewrite map_app, fold_left_app. Qed.

Lemma chained_nil : chained [].
Proof. intros i e H. discriminate. Qed.

Lemma chained_snoc es e :
  chained es -> grid (totalVests e) ->
  vests e = fsub (totalVests e) (previousTotal es) ->
  chained (es ++ [e]).
Proof.
  intros Hes Hg Hv i x Hx.
  destruct (decide (i < length es)%nat) as [Hi|Hi].
  - rewrite lookup_app_l in Hx by done.
    rewrite take_app_le by lia. now apply Hes.
  - rewrite lookup_app_r in Hx by lia.
    destruct (i - length es)%nat as [|k] eqn:Hk; [|destruct k; discriminate].
    injection Hx as <-.
    assert (i = length es) as -> by lia.
    rewrite take_app_length. now split.
Qed.

Lemma chained_take es n : chained es -> chained (take n es).
Proof.
  intros Hes i e Hi.
  apply lookup_take_Some in Hi as [Hi Hlt].
  rewrite take_take. replace (i `min` n)%nat with i by lia.
  now apply Hes.
Qed.

Lemma chained_snoc_inv es e :
  chained (es ++ [e]) ->
  chained es /\ grid (totalVests e) /\
  vests e = fsub (totalVests e) (previousTotal es).
Proof.
  intros H. split.
  - pose proof (chained_take _ (length es) H) as H'.
    now rewrite take_app_length in H'.
  - specialize (H (length es) e).
    rewrite take_app_length in H. apply H.
    rewrite lookup_app_r by lia. now rewrite Nat.sub_diag.
Qed.

Lemma all_chained_empty : all_chained ∅.
Proof. intros d es H. rewrite lookup_empty in H. discriminate. Qed.

Lemma push_chained h d prev T hp0 ts dt :
  all_chained h -> chained prev -> grid T ->
  all_chained (push h d prev T hp0 ts dt).
Proof.
  intros Hh Hprev Hg. unfold push.
  destruct (gtb _ _); [|done].
  intros d' es Hes.
  destruct (decide (d = d')) as [<-|Hne].
  - rewrite lookup_insert_eq in Hes. injection Hes as <-.
    now apply chained_snoc.
  - rewrite lookup_insert_ne in Hes by done. now apply (Hh d').
Qed.

Lemma push_delta_chained h d T hp0 ts dt h' :
  all_chained h -> grid T ->
  push_delta h d T hp0 ts dt = Some h' -> all_chained h'.
Proof.
  intros Hh Hg. unfold push_delta.
  destruct (h !! d) as [prev|] eqn:Hd.
  - intros [= <-]. apply push_chained; [done| |done]. now apply (Hh d).
  - destruct (inherited d) as [[[|n]|]|].
    + destruct (gtb _ _); [discriminate|]. now intros [= <-].
    + discriminate.
    + destruct (gtb _ _); [discriminate|]. now intros [= <-].
    + intros [= <-]. apply push_chained; [|apply chained_nil|done].
      intros d' es Hes.
      destruct (decide (d = d')) as [<-|Hne].
      * rewrite lookup_insert_eq in Hes. injection Hes as <-. apply chained_nil.
      * rewrite lookup_insert_ne in Hes by done. now apply (Hh d').
Qed.

Lemma fold_build_None evs :
  fold_left build_step evs None = None.
Proof. induction evs; simpl; auto. Qed.

Lemma fold_merge_None ACCOUNT fund shares ops :
  fold_left (merge_step ACCOUNT fund shares) ops None = None.
Proof. induction ops; simpl; auto. Qed.

Lemma fold_build_chained evs h h' :
  all_chained h -> Forall (fun ev => grid (ev_totalVests ev)) evs ->
  fold_left build_step evs (Some h) = Some h' -> all_chained h'.
Proof.
  revert h. induction evs as [|ev evs IH]; intros h Hh Hall; simpl.
  - now intros [= <-].
  - inversion Hall as [|? ? Hev Hrest]; subst.
    destruct (push_delta h _ _ _ _ _) as [h1|] eqn:E.
    + apply IH; [|done]. eapply push_delta_chained; eauto.
    + rewrite fold_build_None. discriminate.
Qed.

Lemma insert_sorted_Forall {A} (P : A -> Prop) before x l :
  P x -> Forall P l -> Forall P (insert_sorted before x l).
Proof.
  intros Hx. induction 1 as [|y l Hy Hl IH]; simpl.
  - now constructor.
  - destruct (before x y); repeat constructor; auto.
Qed.

Lemma stable_sort_Forall {A} (P : A -> Prop) before l :
  Forall P l -> Forall P (stable_sort before l).
Proof.
  induction 1 as [|x l Hx Hl IH]; simpl; [constructor|].
  now apply insert_sorted_Forall.
Qed.

Lemma delegationEvents_grid ACCOUNT raw fund shares :
  Forall (fun ev => grid (ev_totalVests ev))
    (delegationEvents ACCOUNT raw fund shares).
Proof.
  unfold delegationEvents. induction raw as [|[i o] raw IH]; simpl; [constructor|].
  destruct (op o) as [d de vs| |]; simpl; try exact IH.
  destruct (String.eqb de ACCOUNT); simpl; [|exact IH].
  constructor; [|exact IH]. simpl. apply round64_grid.
Qed.

Lemma build_chained ACCOUNT raw fund shares h :
  buildDelegationHistory ACCOUNT raw fund shares = Some h -> all_chained h.
Proof.
  unfold buildDelegationHistory. apply fold_build_chained.
  - apply all_chained_empty.
  - apply stable_sort_Forall, delegationEvents_grid.
Qed.

Lemma merge_chained ACCOUNT fund shares ops h h' :
  all_chained h ->
  mergeNewDelegationEvents ACCOUNT h ops fund shares = Some h' -> all_chained h'.
Proof.
  unfold mergeNewDelegationEvents.
  revert h. induction ops as [|[i o] ops IH]; intros h Hh; simpl.
  - now intros [= <-].
  - destruct (op o) as [d de vs| |]; simpl; try (now apply IH).
    destruct (String.eqb de ACCOUNT); [|now apply IH].
    destruct (push_delta h _ _ _ _ _) as [h1|] eqn:E.
    + apply IH. eapply push_delta_chained; eauto. apply round64_grid.
    + rewrite fold_merge_None. discriminate.
Qed.

Lemma produced_chained ACCOUNT h : produced ACCOUNT h -> all_chained h.
Proof.
  induction 1 as [raw fund shares h Hb | h0 ops fund shares h Hp IH Hm].
  - eapply build_chained; eauto.
  - eapply merge_chained; eauto.
Qed.

Lemma abs_le_iff x y : Qabs x <= y <-> - y <= x /\ x <= y.
Proof. apply Qabs_Qle_condition. Qed.

Lemma previousTotal_grid es : chained es -> grid (previousTotal es).
Proof.
  intros H. destruct es as [|e0 es0] using rev_ind; [apply grid_0|].
  rewrite previousTotal_snoc64. now apply chained_snoc_inv in H as (_ & Hg & _).
Qed.

Lemma previousTotal_bound es M :
  0 <= M -> Forall (fun e => Qabs (totalVests e) <= M) es ->
  Qabs (previousTotal es) <= M.
Proof.
  intros HM H. destruct es as [|e0 es0] using rev_ind; [exact HM|].
  rewrite previousTotal_snoc64.
  apply Forall_app in H as [_ H]. now inversion H.
Qed.

(** One step of the replay: the error grows by at most [M * 2^-50] as
    long as it is below [4 * M]. *)
Lemma replay_step s Tp T M E :
  grid s -> grid Tp -> grid T ->
  Qabs T <= M -> Qabs Tp <= M -> Qabs (s - Tp) <= E -> E <= 4 * M ->
  Qabs (fadd s (fsub T Tp) - T) <= E + M * pow2 (-50).
Proof.
  intros Hs HTp HT HbT HbTp HE HE4.
  unfold fadd, fsub.
  set (d := round64 (T - Tp)).
  pose proof (round64_error_grid (T - Tp) (grid_minus _ _ HT HTp)) as Hd.
  fold d in Hd.
  assert (Hgd : grid d) by apply round64_grid.
  pose proof (round64_error_grid (s + d) (grid_plus _ _ Hs Hgd)) as Hs'.
  set (s' := round64 (s + d)) in *.
  rewrite pow2_m50. rewrite u_value in Hd, Hs'.
  apply abs_le_iff in HbT, HbTp, HE.
  assert (HA : Qabs (T - Tp) <= 2 * M) by (apply abs_le_iff; lra).
  assert (Hd1 : Qabs (d - (T - Tp)) <= (1 # 9007199254740992) * (2 * M)).
  { eapply Qle_trans; [exact Hd|]. apply Qmult_le_l; [reflexivity|exact HA]. }
  apply abs_le_iff in Hd1.
  assert (HB : Qabs (s + d) <= 6 * M) by (apply abs_le_iff; lra).
  assert (Hs1 : Qabs (s' - (s + d)) <= (1 # 9007199254740992) * (6 * M)).
  { eapply Qle_trans; [exact Hs'|]. apply Qmult_le_l; [reflexivity|exact HB]. }
  apply abs_le_iff in Hs1.
  apply abs_le_iff. lra.
Qed.

Lemma replay_bound es M :
  chained es -> Forall (fun e => Qabs (totalVests e) <= M) es -> 0 <= M ->
  (Z.of_nat (length es) <= 2 ^ 52)%Z ->
  grid (replay es) /\
  Qabs (replay es - previousTotal es) <=
    inject_Z (Z.of_nat (length es)) * M * pow2 (-50).
Proof.
  intros Hch Hall HM. induction es as [|e es IH] using rev_ind; intros Hlen.
  - split; [apply grid_0|].
    change (Qabs (0 - 0) <= inject_Z 0 * M * pow2 (-50)).
    assert (H0 : inject_Z 0 * M * pow2 (-50) == 0)
      by (change (inject_Z 0) with 0; ring).
    rewrite H0. apply Qle_bool_iff. reflexivity.
  - apply chained_snoc_inv in Hch as (Hch & Hg & Hv).
    apply Forall_app in Hall as [Hall He]. inversion He as [|? ? HbT _]; subst.
    rewrite length_app in Hlen. simpl in Hlen.
    destruct (IH Hch Hall) as [Hgs Herr]; [lia|].
    rewrite replay_snoc64, previousTotal_snoc64, Hv.
    split; [apply round64_grid|].
    rewrite length_app. simpl length.
    replace (Z.of_nat (length es + 1)) with (Z.of_nat (length es) + 1)%Z by lia.
    rewrite inject_Z_plus.
    assert (H1 : (inject_Z (Z.of_nat (length es)) + inject_Z 1) * M * pow2 (-50) ==
                 inject_Z (Z.of_nat (length es)) * M * pow2 (-50) + M * pow2 (-50))
      by (change (inject_Z 1) with 1; ring).
    rewrite H1.
    apply replay_step; auto.
    + now apply previousTotal_grid.
    + now apply previousTotal_bound.
    + assert (Hk : inject_Z (Z.of_nat (length es)) <= inject_Z (2 ^ 52)).
      { rewrite <- Zle_Qle. lia. }
      rewrite pow2_m50.
      change (inject_Z (2 ^ 52)) with (4503599627370496 # 1) in Hk.
      assert (inject_Z (Z.of_nat (length es)) * M <= (4503599627370496 # 1) * M).
      { apply Qmult_le_compat_r; assumption. }
      lra.
Qed.

End Ledger64Facts.

Module Scenario64Facts.
Import Ledger Binary64 Ledger64.

(** The history built from [raw_withdrawn]: what is stored for the
    delegator, the replayed sum and the last stored total. *)
Lemma withdrawn_replay :
  exists h events,
    buildDelegationHistory "bayanihive" Scenario64.raw_withdrawn 1 2000 = Some h /\
    h !! "alice"%string = Some events /\
    map totalVests events =
      [5269640150615151 # 8589934592; 7375190272891129 # 4294967296; 0] /\
    replay events = 1 # 4294967296.
Proof.
  destruct (buildDelegationHistory "bayanihive" Scenario64.raw_withdrawn 1 2000)
    as [h|] eqn:E; [|vm_compute in E; discriminate].
  exists h. pose proof E as E'. vm_compute in E'. injection E' as E'.
  destruct (h !! "alice"%string) as [events|] eqn:Ea;
    [|subst h; vm_compute in Ea; discriminate].
  exists events. split; [reflexivity|]. split; [reflexivity|].
  subst h. vm_compute in Ea. injection Ea as <-. split; reflexivity.
Qed.

End Scenario64Facts.

Module Redelivery64.
Import Ledger Binary64 Binary64Facts Objects Ledger64 Notions.











End Redelivery64.

Module CaseFacts.
Import SendSBI ExclusionNotions.

Lemma in_all_ascii c : In c all_ascii.
Proof.
  unfold all_ascii. rewrite <- (ascii_nat_embedding c).
  apply in_map, in_seq. pose proof (nat_ascii_bounded c). lia.
Qed.

Lemma same_letter_table :
  forallb (fun a => forallb (fun b =>
    Bool.eqb (Ascii.eqb (lower_ascii a) (lower_ascii b)) (same_letter a b))
    all_ascii) all_ascii = true.
Proof. vm_compute. reflexivity. Qed.

Lemma same_letter_lower a b :
  Ascii.eqb (lower_ascii a) (lower_ascii b) = same_letter a b.
Proof.
  pose proof same_letter_table as H.
  rewrite forallb_forall in H. specialize (H a (in_all_ascii a)).
  rewrite forallb_forall in H. specialize (H b (in_all_ascii b)).
  now apply Bool.eqb_prop in H.
Qed.

Lemma same_ignoring_case_iff s t :
  same_ignoring_case s t = true <-> toLowerCase s = toLowerCase t.
Proof.
  revert t. induction s as [|a s IH]; intros [|b t]; cbn [same_ignoring_case toLowerCase];
    try (split; [discriminate|discriminate]); [split; reflexivity|].
  rewrite andb_true_iff, IH, <- same_letter_lower, Ascii.eqb_eq.
  split; [intros [-> ->]; reflexivity|intros [= -> ->]; now split].
Qed.

End CaseFacts.

Module TrimFacts.
Import SendSBI ExclusionNotions.

Lemma white_is_space c : white c = is_space c.
Proof. destruct c as [[] [] [] [] [] [] [] []]; reflexivity. Qed.

Lemma white_not_comma c : white c = true -> Ascii.eqb c ","%char = false.
Proof. destruct c as [[] [] [] [] [] [] [] []]; vm_compute; congruence. Qed.

Lemma append_nil_l s : "" +:+ s = s.
Proof. reflexivity. Qed.

Lemma append_cons c s t : String c s +:+ t = String c (s +:+ t).
Proof. reflexivity. Qed.

Lemma append_assoc a b c : a +:+ (b +:+ c) = (a +:+ b) +:+ c.
Proof.
  induction a as [|x a IH]; [reflexivity|].
  rewrite !append_cons. f_equal. exact IH.
Qed.

Lemma append_nil_r s : s +:+ "" = s.
Proof.
  induction s as [|c s IH]; [reflexivity|].
  rewrite append_cons. f_equal. exact IH.
Qed.

Lemma rev_app_spec s acc : String.rev_app s acc = String.rev s +:+ acc.
Proof.
  unfold String.rev. revert acc. induction s as [|c s IH]; intros acc; [reflexivity|].
  cbn [String.rev_app]. rewrite IH, (IH (String c "")).
  now rewrite <- append_assoc, append_cons, append_nil_l.
Qed.

Lemma rev_cons c s : String.rev (String c s) = String.rev s +:+ String c "".
Proof. unfold String.rev at 1. cbn [String.rev_app]. apply rev_app_spec. Qed.

Lemma rev_append s t : String.rev (s +:+ t) = String.rev t +:+ String.rev s.
Proof.
  induction s as [|c s IH].
  - now rewrite append_nil_l, append_nil_r.
  - now rewrite append_cons, !rev_cons, IH, append_assoc.
Qed.

Lemma rev_involutive s : String.rev (String.rev s) = s.
Proof.
  induction s as [|c s IH]; [reflexivity|].
  now rewrite rev_cons, rev_append, IH.
Qed.

Lemma blank_app s t : blank (s +:+ t) = blank s && blank t.
Proof.
  induction s as [|c s IH]; [reflexivity|].
  rewrite append_cons. cbn [blank]. now rewrite IH, andb_assoc.
Qed.

Lemma blank_rev s : blank (String.rev s) = blank s.
Proof.
  induction s as [|c s IH]; [reflexivity|].
  rewrite rev_cons, blank_app, IH. cbn [blank]. rewrite andb_true_r. apply andb_comm.
Qed.

Lemma trim_start_blank s t : blank s = true -> trim_start (s +:+ t) = trim_start t.
Proof.
  induction s as [|c s IH]; [reflexivity|].
  rewrite append_cons. cbn [blank trim_start]. rewrite andb_true_iff, white_is_space.
  intros [-> Hs]. now apply IH.
Qed.

Lemma trim_start_all_blank s : blank s = true -> trim_start s = "".
Proof.
  intros H. rewrite <- (append_nil_r s). now rewrite trim_start_blank.
Qed.

Lemma ends_white_rev c s :
  ends_white (String c s) = false ->
  exists c' s', String.rev (String c s) = String c' s' /\ white c' = false.
Proof.
  revert c. induction s as [|d s IH]; intros c H.
  - exists c, ""%string. split; [reflexivity|exact H].
  - change (ends_white (String d s) = false) in H.
    destruct (IH d H) as (c' & s' & E & W).
    rewrite rev_cons, E. exists c', (s' +:+ String c ""). split; [reflexivity|exact W].
Qed.

(** [trim] takes the white space off a padded name. *)
Lemma trim_written p : well_formed p = true -> trim (written p) = core p.
Proof.
  unfold well_formed, written. rewrite !andb_true_iff.
  intros [[[Hl Hr] Ht] _]. unfold trim.
  rewrite trim_start_blank by exact Hl.
  destruct (core p) as [|c s] eqn:Hc.
  - rewrite append_nil_l, (trim_start_all_blank (trail p)) by exact Hr. reflexivity.
  - unfold tight in Ht. apply andb_true_iff in Ht as [Hw He].
    apply negb_true_iff in Hw, He.
    rewrite append_cons. cbn [trim_start]. rewrite <- white_is_space, Hw.
    rewrite <- append_cons.
    rewrite rev_append, trim_start_blank by now rewrite blank_rev.
    destruct (ends_white_rev c s He) as (c' & s' & E & W).
    rewrite E. cbn [trim_start]. rewrite <- white_is_space, W, <- E.
    apply rev_involutive.
Qed.

Lemma blank_no_comma s : blank s = true -> no_comma s = true.
Proof.
  induction s as [|c s IH]; [reflexivity|].
  cbn [blank no_comma]. rewrite !andb_true_iff. intros [Hc Hs].
  split; [|now apply IH]. now rewrite white_not_comma.
Qed.

Lemma no_comma_app s t : no_comma (s +:+ t) = no_comma s && no_comma t.
Proof.
  induction s as [|c s IH]; [reflexivity|].
  rewrite append_cons. cbn [no_comma]. now rewrite IH, andb_assoc.
Qed.

Lemma written_no_comma p : well_formed p = true -> no_comma (written p) = true.
Proof.
  unfold well_formed, written. rewrite !andb_true_iff.
  intros [[[Hl Hr] _] Hc].
  rewrite !no_comma_app, Hc, !blank_no_comma by assumption. reflexivity.
Qed.

Lemma split_aux_last cur s :
  no_comma s = true -> split_comma_aux cur s = [String.rev cur +:+ s].
Proof.
  revert cur. induction s as [|c s IH]; intros cur; cbn [no_comma split_comma_aux].
  - now rewrite append_nil_r.
  - rewrite andb_true_iff, negb_true_iff. intros [-> Hs].
    rewrite IH by exact Hs.
    now rewrite rev_cons, <- append_assoc, append_cons, append_nil_l.
Qed.

Lemma split_aux_more cur s rest :
  no_comma s = true ->
  split_comma_aux cur (s +:+ String ","%char rest) =
    (String.rev cur +:+ s) :: split_comma_aux "" rest.
Proof.
  revert cur. induction s as [|c s IH]; intros cur;
    rewrite ?append_nil_l, ?append_cons; cbn [no_comma split_comma_aux].
  - intros _. now rewrite ?Ascii.eqb_refl, append_nil_r.
  - rewrite andb_true_iff, negb_true_iff. intros [-> Hs].
    rewrite IH by exact Hs.
    now rewrite rev_cons, <- append_assoc, append_cons, append_nil_l.
Qed.

Lemma split_concat w ws :
  Forall (fun s => no_comma s = true) (w :: ws) ->
  split_comma (String.concat "," (w :: ws)) = w :: ws.
Proof.
  unfold split_comma. revert w. induction ws as [|w' ws IH]; intros w H.
  - inversion H; subst. cbn [String.concat]. now rewrite split_aux_last.
  - inversion H as [|? ? Hw Hrest]; subst.
    change (String.concat "," (w :: w' :: ws))
      with (w +:+ String ","%char (String.concat "," (w' :: ws))).
    rewrite split_aux_more by exact Hw. f_equal. now apply IH.
Qed.

(** What [fromEnv] is when SBI_EXCLUDE is made of the pieces. *)
Lemma fromEnv_joined env pieces x :
  default ""%string (SBI_EXCLUDE env) = joined pieces ->
  Forall (fun p => well_formed p = true) pieces ->
  x ∈ fromEnv env <-> x ∈ map core pieces /\ x <> ""%string.
Proof.
  intros Henv Hwf. unfold fromEnv. rewrite Henv. unfold joined.
  rewrite list_elem_of_filter. unfold nonempty.
  rewrite negb_true_iff, String.eqb_neq.
  destruct pieces as [|p pieces].
  - cbn. split.
    + intros [Hne Hin]. apply list_elem_of_singleton in Hin. congruence.
    + intros [Hin _]. now apply elem_of_nil in Hin.
  - change (map written (p :: pieces)) with (written p :: map written pieces).
    rewrite split_concat.
    2:{ change (written p :: map written pieces) with (written <$> p :: pieces).
        apply Forall_fmap. eapply Forall_impl; [exact Hwf|].
        intros q Hq. now apply written_no_comma. }
    change (written p :: map written pieces) with (map written (p :: pieces)).
    assert (E : map trim (map written (p :: pieces)) = map core (p :: pieces)).
    { rewrite map_map. apply map_ext_Forall.
      eapply Forall_impl; [exact Hwf|]. intros q Hq. now apply trim_written. }
    rewrite E. tauto.
Qed.

Lemma fromFile_lists config_json listed :
  lists config_json listed -> fromFile config_json = listed.
Proof. now destruct 1. Qed.

End TrimFacts.

(** * The claims *)

(** ** Multiplier policy *)

Lemma getMultiplier_below_10000 x : x < 10000 -> getMultiplier x = 3.
Proof.
  intros H. unfold getMultiplier. apply ltb_true in H. now rewrite H.
Qed.

(** Between 20000 and 30000 the multiplier is the value on the line from
    (20000, 2) to (30000, 1), rounded to three decimals. *)
Lemma getMultiplier_20000_30000 x :
  20000 <= x -> x < 30000 ->
  getMultiplier x = toFixed 3 (2 + (1 - 2) * ((x - 20000) / (30000 - 20000))).
Proof.
  intros Hlo Hhi. unfold getMultiplier. cbv zeta.
  assert (H1 : ltb x 10000 = false) by (apply ltb_false; lra).
  assert (H2 : ltb x 20000 = false) by (apply ltb_false; lra).
  assert (H3 : ltb x 30000 = true) by (apply ltb_true; lra).
  rewrite H1, H2, H3.
  destruct (Math_max_spec (1 # 2) (2 - (x - 20000) / 10000)) as [[_ ->]|[Hlt _]].
  - apply toFixed_comp. field.
  - exfalso.
    assert (Hy : (x - 20000) / 10000 < 1) by (apply Qlt_shift_div_r; lra).
    lra.
Qed.

(** Claim C5.  The multiplier policy returns 3.0 for a total eligible stake
    of 8000, which is below the first tier boundary of 10000, in both
    versions of the policy.  For 25000 the piecewise-linear policy returns
    1.5, the value of the tier function of the tier 20000 to 30000,
    [2 - (totalHP - 20000) / 10000], which is the linear interpolation
    between the tier bounds (20000, 2.0) and (30000, 1.0); the step policy
    returns the value of its tier, 1. *)
Theorem multiplier_scenarios :
  8000 < 10000 /\
  getMultiplier 8000 = 3 /\
  getMultiplier_step 8000 = 3 /\
  getMultiplier 25000 = 3 # 2 /\
  getMultiplier 25000 == 2 - (25000 - 20000) / 10000 /\
  getMultiplier 25000 == 2 + (1 - 2) * ((25000 - 20000) / (30000 - 20000)) /\
  1 < getMultiplier 25000 /\ getMultiplier 25000 < 2 /\
  getMultiplier_step 25000 = 1.
Proof.
  assert (E : getMultiplier 25000 = 3 # 2) by reflexivity.
  rewrite !E. repeat split; try reflexivity.
Qed.

(** ** Ledger replay *)

(** Claim C2, as stated, fails on the code: the delegator of
    [Scenario64.raw_withdrawn] delegates 613466.854046 VESTS, raises the
    delegation to 1717170.298307 VESTS and withdraws it.  The three stored
    deltas sum, in doubles, to 2^-32, and the last stored total is 0. *)
Lemma replay_misses_a_withdrawal : ~ Ledger64.replay_reproduces_total "bayanihive".
Proof.
  intros H.
  destruct Scenario64Facts.withdrawn_replay as (h & events & Hb & Ha & Ht & Hr).
  destruct events as [|e1 [|e2 [|e3 [|e4 rest]]]]; try discriminate Ht.
  injection Ht as _ _ H3.
  specialize (H h "alice"%string [e1; e2; e3] e3
                (Ledger64.produced_build _ _ _ _ _ Hb) Ha eq_refl).
  rewrite Hr, H3 in H. discriminate H.
Qed.

(** Claim C2, amended.  In a history produced by build and merge, every
    stored delta is the rounded difference between its total and the total
    stored before it, and summing the stored deltas of a contributor in
    order, up to and including any entry, gives that entry's total up to
    the rounding of the additions: with [n] entries summed and all stored
    totals at most [M] in absolute value, the difference is at most
    [n * M * 2^-50]. *)
Theorem ledger_replay_within_rounding (ACCOUNT : string) (h : Ledger.History)
    (delegator : string) (events : list Ledger.Entry) (M : Q) :
  Ledger64.produced ACCOUNT h ->
  h !! delegator = Some events ->
  Forall (fun e => Qabs (Ledger.totalVests e) <= M) events ->
  M <= Binary64.pow2 1000 ->
  (Z.of_nat (length events) <= 2 ^ 52)%Z ->
  forall i e, events !! i = Some e ->
    Ledger.vests e =
      Binary64.fsub (Ledger.totalVests e) (Ledger.previousTotal (take i events)) /\
    Qabs (Ledger64.replay (take (S i) events) - Ledger.totalVests e) <=
      inject_Z (Z.of_nat (S i)) * M * Binary64.pow2 (-50).
Proof.
  intros Hp Hd Hall _ Hlen i e Hi.
  pose proof (Ledger64Facts.produced_chained _ _ Hp _ _ Hd) as Hch.
  split; [now apply Hch|].
  assert (HM : 0 <= M).
  { eapply Qle_trans; [apply Qabs_nonneg|].
    eapply (proj1 (Forall_lookup _ _) Hall); exact Hi. }
  pose proof (lookup_lt_Some _ _ _ Hi) as Hlt.
  destruct (Ledger64Facts.replay_bound (take (S i) events) M) as [_ Hb].
  - now apply Ledger64Facts.chained_take.
  - now apply Forall_take.
  - exact HM.
  - rewrite length_take. lia.
  - rewrite (take_S_r _ _ _ Hi) in Hb |- *.
    rewrite Ledger64Facts.previousTotal_snoc64 in Hb.
    rewrite length_app, length_take in Hb. simpl in Hb.
    replace (i `min` length events + 1)%nat with (S i) in Hb by lia.
    exact Hb.
Qed.

Lemma ledger_replay_within_rounding_witness :
  exists h events,
    Ledger64.buildDelegationHistory "bayanihive" Scenario64.raw_withdrawn 1 2000
      = Some h /\
    h !! "alice"%string = Some events /\
    length events = 3%nat /\
    forall i e, events !! i = Some e ->
      Ledger.vests e =
        Binary64.fsub (Ledger.totalVests e) (Ledger.previousTotal (take i events)) /\
      Qabs (Ledger64.replay (take (S i) events) - Ledger.totalVests e) <=
        inject_Z (Z.of_nat (S i)) * 2097152 * Binary64.pow2 (-50).
Proof.
  destruct (Ledger64.buildDelegationHistory "bayanihive" Scenario64.raw_withdrawn 1 2000)
    as [h|] eqn:E; [|vm_compute in E; discriminate].
  pose proof E as E'. vm_compute in E'. injection E' as E'.
  destruct (h !! "alice"%string) as [events|] eqn:Ea;
    [|subst h; vm_compute in Ea; discriminate].
  pose proof Ea as Ea'. rewrite <- E' in Ea'. vm_compute in Ea'. injection Ea' as Ea'.
  exists h, events. split; [reflexivity|]. split; [exact Ea|].
  split; [now rewrite <- Ea'|].
  apply (ledger_replay_within_rounding "bayanihive" h "alice" events 2097152).
  - exact (Ledger64.produced_build _ _ _ _ _ E).
  - exact Ea.
  - rewrite <- Ea'. repeat constructor; vm_compute; discriminate.
  - vm_compute. discriminate.
  - rewrite <- Ea'. vm_compute. discriminate.
Defined.

(** ** Merge idempotence *)




(** Over exact numbers, merging one operation twice in a row changes
    nothing more, whatever its kind and its target. *)
Lemma merge_twice_any_operation (ACCOUNT : string) (h : Ledger.History)
    (o : Z * Ledger.Operation) (fund shares : Q) :
  Ledger.mergeNewDelegationEvents ACCOUNT
    (Ledger.mergeNewDelegationEvents ACCOUNT h [o] fund shares) [o] fund shares =
  Ledger.mergeNewDelegationEvents ACCOUNT h [o] fund shares.
Proof.
  unfold Ledger.mergeNewDelegationEvents. cbn [fold_left].
  unfold Ledger.merge_step.
  destruct (Ledger.op o.2) as [delegator delegatee vs| |]; try reflexivity.
  destruct (String.eqb delegatee ACCOUNT); [|reflexivity].
  apply LedgerFacts.push_delta_twice.
Qed.

(** Merging an event whose total is the last total stored for its delegator
    changes nothing, whenever that total was stored. *)
Lemma merge_known_total_noop (ACCOUNT : string) (h : Ledger.History)
    (index timestamp : Z) (delegator : string) (vesting_shares fund shares : Q)
    (events : list Ledger.Entry) :
  h !! delegator = Some events ->
  Ledger.previousTotal events == vesting_shares ->
  Ledger.mergeNewDelegationEvents ACCOUNT h
    [(index, {| Ledger.op_timestamp := timestamp;
                Ledger.op := Ledger.delegate_vesting_shares delegator ACCOUNT
                               vesting_shares |})] fund shares = h.
Proof.
  intros Hd HT. unfold Ledger.mergeNewDelegationEvents. cbn [fold_left].
  unfold Ledger.merge_step. cbn [snd Ledger.op Ledger.op_timestamp].
  rewrite String.eqb_refl. now apply (LedgerFacts.push_delta_same_total h _ _ _ _ _ events).
Qed.

(** The idempotence is that of the event merged last for its delegator: an
    older event of the same delegator, merged again after a newer one, is
    compared with the newer total and pushed as a new delta. *)
Example merge_older_event_again :
  let h := Ledger.mergeNewDelegationEvents "bayanihive" ∅
             (take 2 Scenario.raw_two_events) 1 2000 in
  let h' := Ledger.mergeNewDelegationEvents "bayanihive" h
              (take 1 Scenario.raw_two_events) 1 2000 in
  map Ledger.vests (default [] (h !! "alice"%string)) = [1000; 500] /\
  map Ledger.vests (default [] (h' !! "alice"%string)) = [1000; 500; - (500)].
Proof. cbv zeta. split; vm_compute; reflexivity. Qed.

(** ** Eligibility *)

(** Claim C4.  For every list of entries of a delegator and every cutoff,
    the eligible stake is at least 0 and at most the current stake
    [currentDelegation = Math.max(0, runningBalance)], where
    [runningBalance] is the balance at the end of the walk over the deltas
    (their sum); so it is at most the running balance whenever that is not
    negative, and it is zero whenever the running balance is zero or
    negative. *)
Theorem eligible_stake_bounds (events : list Ledger.Entry) (cutoff : Z) :
  let eligible := Eligibility.eligibleVests events cutoff in
  let running := Eligibility.runningBalance events cutoff in
  running == Ledger.replay events /\
  0 <= eligible /\
  eligible <= Eligibility.currentDelegation events cutoff /\
  (0 <= running -> eligible <= running) /\
  (running <= 0 -> eligible == 0).
Proof.
  cbv zeta.
  destruct (EligibilityFacts.eligible_bounds events cutoff) as [H0 H1].
  split; [apply EligibilityFacts.runningBalance_replay|].
  split; [exact H0|]. split; [exact H1|].
  unfold Eligibility.currentDelegation in H1.
  destruct (Math_max_spec 0 (Eligibility.runningBalance events cutoff))
    as [[Hr E]|[Hr E]]; rewrite E in H1; split; intros H; lra.
Qed.

(** 1000 delegated twenty days before now and 500 more five days before now,
    which is after the cutoff of six days before now: the eligible stake is
    1000 out of a current stake of 1500.  (Timestamps count milliseconds from
    the day of the first event; now is day 20.) *)
Lemma eligible_stake_bounds_witness :
  let day := 86400000%Z in
  let events :=
    [ {| Ledger.vests := 1000; Ledger.totalVests := 1000; Ledger.hp := 1;
         Ledger.timestamp := 0; Ledger.date := "1970-01-01" |};
      {| Ledger.vests := 500; Ledger.totalVests := 1500; Ledger.hp := 3 # 2;
         Ledger.timestamp := 15 * day; Ledger.date := "1970-01-16" |} ] in
  let cutoff := (20 * day - 6 * day)%Z in
  Eligibility.eligibleVests events cutoff = 1000 /\
  Eligibility.runningBalance events cutoff = 1500 /\
  Eligibility.eligibleVests events cutoff <= Eligibility.runningBalance events cutoff.
Proof.
  intros day events cutoff. split; [reflexivity|]. split; [reflexivity|].
  refine (proj1 (proj2 (proj2 (proj2 (eligible_stake_bounds events cutoff)))) _).
  discriminate.
Defined.

(** Stake withdrawn after the cutoff does not stay eligible, and a history
    whose deltas sum to a negative balance has no eligible stake. *)
Example eligible_after_withdrawal :
  let entry v t :=
    {| Ledger.vests := v; Ledger.totalVests := 0; Ledger.hp := 0;
       Ledger.timestamp := t; Ledger.date := "" |} in
  Eligibility.eligibleVests [entry 1000 0%Z; entry (- (600)) 50%Z] 10 = 400 /\
  Eligibility.eligibleVests [entry (- (600)) 50%Z; entry 1000 0%Z] 10 = 400 /\
  Eligibility.eligibleVests [entry 1000 0%Z; entry (- (1200)) 5%Z] 10 = 0 /\
  Eligibility.eligibleVests [entry 1000 20%Z] 10 = 0.
Proof. cbv zeta. repeat split. Qed.

(** ** Allocation *)

(** Claim C6.  For a non-empty list of eligible delegators with positive
    stakes and a distributable amount [D >= 0], with [eligibleTotalHP] the
    sum of the stakes: every delegator gets exactly one reward, which is
    [D * stake / total] rounded once to six decimals, and the rewards add up
    to [D] within one unit of the sixth decimal per delegator. *)
Theorem allocation_conserves (stakes : list (string * Q)) (D : Q) :
  stakes <> [] ->
  Forall (fun kv => 0 < kv.2) stakes ->
  0 <= D ->
  let total := Allocation.totalHP stakes in
  let rewards := Allocation.allocate stakes total D in
  Permutation
    (map (fun r => (Allocation.name r, Allocation.base_reward r)) rewards)
    (map (fun kv => (kv.1, toFixed 6 (D * kv.2 / total))) stakes) /\
  Qabs (sum (map Allocation.base_reward rewards) - D)
    <= Observe.precision * inject_Z (Z.of_nat (length stakes)).
Proof.
  intros Hne Hpos HD total rewards. split.
  - unfold rewards. rewrite AllocationFacts.allocate_rewards.
    unfold Allocation.sortedDelegators.
    rewrite (map_ext _ (fun kv => (kv.1, toFixed 6 (D * kv.2 / total))))
      by (intros kv; now rewrite AllocationFacts.baseReward_exact).
    apply Permutation_map, SortFacts.stable_sort_Permutation.
  - unfold rewards. rewrite AllocationFacts.allocate_base_rewards.
    pose proof (AllocationFacts.rounded_shares_sum D total
                  (Allocation.sortedDelegators stakes)) as H.
    unfold Allocation.sortedDelegators in *.
    rewrite (SortFacts.stable_sort_sum _ snd), SortFacts.stable_sort_length in H.
    fold (Allocation.totalHP stakes) in H. fold total in H.
    assert (Ht : 0 < total) by (apply AllocationFacts.sum_positive; assumption).
    assert (E : D * (total / total) == D) by (field; lra).
    rewrite E in H.
    eapply Qle_trans; [exact H|apply AllocationFacts.half_unit_le_precision].
Qed.

Lemma allocation_conserves_witness :
  let stakes := [("alice"%string, 1000); ("bob"%string, 2000)] in
  let rewards := Allocation.allocate stakes (Allocation.totalHP stakes) 1 in
  map Allocation.base_reward rewards = [666667 # 1000000; 333333 # 1000000] /\
  Qabs (sum (map Allocation.base_reward rewards) - 1) <= Observe.precision * 2.
Proof.
  intros stakes rewards. split; [reflexivity|].
  refine (proj2 (allocation_conserves stakes 1 _ _ _)).
  - discriminate.
  - repeat constructor.
  - discriminate.
Defined.

(** ** The payout executor: the scenario of the two chunks *)

(** Claim C7.  A contributor that is not excluded, with balance 2.4, when
    every transfer attempt succeeds: the payout executor makes exactly two
    attempts for it, both successful, leaves it with balance 0.4, with
    [total_sent] larger by 2.0, and appends exactly two entries for it to
    the payout log. *)
Theorem two_chunks_from_2_4 (env : SendSBI.Env) (today : string)
    (d : SendSBI.Disk) (n : SendSBI.Net)
    (delegator : string) (data : SendSBI.BalanceEntry) :
  Observe.always_succeeds env n ->
  NoDup (map fst (Observe.stored_balances d)) ->
  Accumulator.get delegator (Observe.stored_balances d) = Some data ->
  delegator <> "_meta"%string ->
  SendSBI.is_excluded (SendSBI.getExcludedDelegators env (SendSBI.config_json d))
    delegator = false ->
  SendSBI.balance data == 24 # 10 ->
  Observe.is_amount (SendSBI.orZero (SendSBI.total_sent data)) ->
  exists r data',
    SendSBI.processSBIPayouts env today d n = Some r /\
    Observe.attempts_for delegator (SendSBI.trace r) = 2%nat /\
    Observe.confirmed_for delegator (SendSBI.trace r) = 2%nat /\
    Accumulator.get delegator (Observe.stored_balances (SendSBI.disk r)) = Some data' /\
    SendSBI.balance data' == 4 # 10 /\
    SendSBI.orZero (SendSBI.total_sent data') ==
      SendSBI.orZero (SendSBI.total_sent data) + 2 /\
    Observe.logged_for delegator (Observe.stored_log (SendSBI.disk r)) =
      (Observe.logged_for delegator (Observe.stored_log d) + 2)%nat.
Proof.
  intros Hall Hnd Hget Hmeta Hex Hb Hamt.
  unfold SendSBI.processSBIPayouts. fold (Observe.stored_balances d).
  fold (Observe.stored_log d).
  destruct (SendSBIFacts.payout_entries_total env today
              (SendSBI.getExcludedDelegators env (SendSBI.config_json d))
              (Observe.stored_balances d) n) as [r Hr].
  rewrite Hr.
  destruct (SendSBIFacts.payout_entries_at _ _ _ _ _ _ _ _ Hr Hnd Hget)
    as (n1 & r1 & Ho & Hp & Hg & Ha & Hc).
  unfold SendSBI.payout_entry in Hp.
  apply String.eqb_neq in Hmeta. rewrite Hmeta, Hex in Hp.
  destruct (SendSBIFacts.payout_loop_two_chunks env today delegator data n1)
    as (r1' & Hl & Hv & Hbal & Ha2 & Hc2);
    [now apply (SendSBIFacts.always_succeeds_outcome env n)|exact Hb|].
  rewrite Hl in Hp. injection Hp as <-.
  eexists _, (SendSBI.value r1'). split; [reflexivity|].
  cbn [SendSBI.trace SendSBI.disk].
  unfold Observe.attempts_for, Observe.confirmed_for, Observe.stored_balances,
    Observe.stored_log in *.
  cbn [SendSBI.save_log SendSBI.save_balances SendSBI.delegator_balances_json
       SendSBI.sbi_log_json loadJSON].
  rewrite !SendSBIFacts.count_app.
  repeat split.
  - rewrite Ha, Ha2. reflexivity.
  - rewrite Hc, Hc2. reflexivity.
  - exact Hg.
  - rewrite Hbal. reflexivity.
  - rewrite Hv.
    assert (Hbal0 : Observe.is_amount (SendSBI.balance data)).
    { unfold Observe.is_amount, formatHIVE. rewrite (toFixed_comp 3 _ _ Hb), Hb.
      reflexivity. }
    destruct (SendSBIFacts.confirm_iter_amounts today data 2 Hbal0 Hamt)
      as (_ & Ht & _).
    cbn [Nat.iter nat_rect] in Ht. rewrite Ht. unfold SendSBI.SBI_CHUNK. reflexivity.
  - unfold Observe.logged_for. rewrite SendSBIFacts.count_app. f_equal.
    fold (Observe.logged_for delegator (SendSBI.pushed r)).
    rewrite (SendSBIFacts.payout_entries_logged _ _ _ _ _ _ delegator Hr).
    unfold Observe.confirmed_for. rewrite Hc, Hc2. reflexivity.
Qed.

Lemma two_chunks_from_2_4_witness :
  exists r data',
    SendSBI.processSBIPayouts Scenario.env_live Scenario.today
      Scenario.disk_alice Scenario.net_ok = Some r /\
    Observe.attempts_for "alice" (SendSBI.trace r) = 2%nat /\
    Observe.confirmed_for "alice" (SendSBI.trace r) = 2%nat /\
    Accumulator.get "alice" (Observe.stored_balances (SendSBI.disk r)) = Some data' /\
    SendSBI.balance data' == 4 # 10 /\
    SendSBI.orZero (SendSBI.total_sent data') == 0 + 2 /\
    Observe.logged_for "alice" (Observe.stored_log (SendSBI.disk r)) = (0 + 2)%nat.
Proof.
  apply (two_chunks_from_2_4 Scenario.env_live Scenario.today Scenario.disk_alice
           Scenario.net_ok "alice" Scenario.alice_2_4).
  - right. split; [discriminate|reflexivity].
  - apply (bool_decide_unpack _). vm_compute. exact I.
  - reflexivity.
  - discriminate.
  - vm_compute. reflexivity.
  - reflexivity.
  - reflexivity.
Defined.

(** ** Exit behaviour of the accumulation stage *)

Lemma accumulate_exit env today d n code :
  FetchRewards.fetchRewards (SendSBI.payout_summary_json d) = Exit code ->
  Accumulator.accumulate env today d n = Some (Exit code).
Proof. intros H. unfold Accumulator.accumulate. now rewrite H. Qed.

Lemma accumulate_done env today d n summary :
  FetchRewards.fetchRewards (SendSBI.payout_summary_json d) = Done summary ->
  exists r,
    SendSBI.processSBIPayouts env today
      (SendSBI.save_balances d
         (Accumulator.accrue (getMultiplier (FetchRewards.total_delegation_hp summary))
            today (Observe.stored_balances d) (FetchRewards.delegators summary))) n
      = Some r /\
    Accumulator.accumulate env today d n =
      Some (Done {| SendSBI.disk := SendSBI.disk r;
                    SendSBI.net_after := SendSBI.net_after r;
                    SendSBI.trace :=
                      SendSBI.Save_balances
                        (Accumulator.accrue
                           (getMultiplier (FetchRewards.total_delegation_hp summary))
                           today (Observe.stored_balances d)
                           (FetchRewards.delegators summary))
                      :: SendSBI.trace r |}).
Proof.
  intros H. unfold Accumulator.accumulate. rewrite H.
  fold (Observe.stored_balances d).
  destruct (SendSBIFacts.processSBIPayouts_total env today
              (SendSBI.save_balances d
                 (Accumulator.accrue
                    (getMultiplier (FetchRewards.total_delegation_hp summary))
                    today (Observe.stored_balances d)
                    (FetchRewards.delegators summary))) n) as [r Hr].
  exists r. split; [exact Hr|]. now rewrite Hr.
Qed.

(** Claim C8 as it stands fails: a summary with every field in place and an
    empty list of delegators, which is well formed and reports zero
    contributors, makes the stage exit with code 1. *)
Lemma nothing_to_pay_is_success_refuted :
  Observe.well_formed Scenario.summary_nobody /\
  Observe.nothing_to_pay Scenario.summary_nobody /\
  Accumulator.accumulate Scenario.env_live Scenario.today
    (Scenario.with_summary Scenario.disk_alice Scenario.summary_nobody)
    Scenario.net_ok = Some (Exit 1) /\
  ~ Observe.nothing_to_pay_is_success.
Proof.
  assert (Hwf : Observe.well_formed Scenario.summary_nobody).
  { split; [exists Scenario.today; split; [reflexivity|discriminate]|].
    split; [eexists; reflexivity|]. exists []. split; [reflexivity|constructor]. }
  split; [exact Hwf|]. split; [left; reflexivity|]. split; [reflexivity|].
  intros H.
  specialize (H Scenario.env_live Scenario.today
                (Scenario.with_summary Scenario.disk_alice Scenario.summary_nobody)
                Scenario.net_ok Scenario.summary_nobody eq_refl Hwf
                (or_introl eq_refl)).
  destruct H as (o & Ho & Hcode). vm_compute in Ho. injection Ho as <-.
  discriminate Hcode.
Qed.

(** Claim C8, as the code has it.  The accumulation stage exits with code 1
    when [payout_summary.json] is missing, not parsable, or not accepted by
    the validation of [fetchRewards], and a summary with an empty list of
    delegators is among those not accepted; every accepted summary, also
    one with nothing to distribute, lets the stage run to its end: it saves
    the balances, runs the payouts and ends normally, with no early exit. *)
Theorem accumulation_exit_behaviour (env : SendSBI.Env) (today : string)
    (d : SendSBI.Disk) (n : SendSBI.Net) :
  (~ Observe.accepted (SendSBI.payout_summary_json d) ->
     exists o, Accumulator.accumulate env today d n = Some o /\
               exit_code o = 1%Z /\ forall r, o <> Done r) /\
  (forall s, SendSBI.payout_summary_json d = Parsed (FetchRewards.Document s) ->
     FetchRewards.raw_delegators s = Some [] ->
     Accumulator.accumulate env today d n = Some (Exit 1)) /\
  (Observe.accepted (SendSBI.payout_summary_json d) ->
     exists r, Accumulator.accumulate env today d n = Some (Done r) /\
               exit_code (Done r) = 0%Z /\
               Observe.count Observe.is_save (SendSBI.trace r) = 3%nat).
Proof.
  split; [|split].
  - intros Hnot.
    destruct (StageFacts.fetchRewards_not_accepted _ Hnot) as [E|E].
    + exists (Exit 1). split; [now apply accumulate_exit|].
      split; [reflexivity|discriminate].
    + exists Uncaught. unfold Accumulator.accumulate. rewrite E.
      split; [reflexivity|]. split; [reflexivity|discriminate].
  - intros s Hs Hds. apply accumulate_exit. rewrite Hs.
    unfold FetchRewards.fetchRewards. cbn [loadJSON]. rewrite Hds.
    destruct (negb _); [reflexivity|].
    now destruct (FetchRewards.raw_total_delegation_hp s).
  - intros Hacc.
    destruct (StageFacts.fetchRewards_accepted _ Hacc) as [summary Hsum].
    destruct (accumulate_done env today d n summary Hsum) as (r & Hr & Ha).
    eexists. split; [exact Ha|]. split; [reflexivity|].
    cbn [SendSBI.trace]. rewrite SendSBIFacts.count_cons. cbn [Observe.is_save].
    unfold SendSBI.processSBIPayouts in Hr.
    destruct (SendSBI.payout_entries _ _ _ _ _) as [st|] eqn:Hst; [|discriminate].
    injection Hr as <-. cbn [SendSBI.trace].
    destruct (SendSBIFacts.payout_entries_shape _ _ _ _ _ _ Hst) as (_ & Hsave & _).
    rewrite SendSBIFacts.count_app, Hsave. reflexivity.
Qed.

Lemma accumulation_exit_behaviour_witness :
  (exists o,
     Accumulator.accumulate Scenario.env_live Scenario.today
       Scenario.disk_alice Scenario.net_ok = Some o /\ exit_code o = 1%Z) /\
  Accumulator.accumulate Scenario.env_live Scenario.today
    (Scenario.with_summary Scenario.disk_alice Scenario.summary_nobody)
    Scenario.net_ok = Some (Exit 1) /\
  (exists r,
     Accumulator.accumulate Scenario.env_live Scenario.today
       (Scenario.with_summary Scenario.disk_alice Scenario.summary_no_earnings)
       Scenario.net_ok = Some (Done r) /\
     Observe.count Observe.is_save (SendSBI.trace r) = 3%nat).
Proof.
  split; [|split].
  - destruct (proj1 (accumulation_exit_behaviour Scenario.env_live Scenario.today
                       Scenario.disk_alice Scenario.net_ok))
      as (o & Ho & Hcode & _).
    + intros (s & Hs & _). discriminate Hs.
    + exists o. split; assumption.
  - refine (proj1 (proj2 (accumulation_exit_behaviour Scenario.env_live Scenario.today
              (Scenario.with_summary Scenario.disk_alice Scenario.summary_nobody)
              Scenario.net_ok)) Scenario.summary_nobody eq_refl eq_refl).
  - destruct (proj2 (proj2 (accumulation_exit_behaviour Scenario.env_live
                Scenario.today
                (Scenario.with_summary Scenario.disk_alice Scenario.summary_no_earnings)
                Scenario.net_ok)))
      as (r & Hr & _ & Hsaves).
    + exists Scenario.summary_no_earnings. split; [reflexivity|]. split.
      * split; [exists Scenario.today; split; [reflexivity|discriminate]|].
        split; [eexists; reflexivity|].
        eexists. split; [reflexivity|].
        constructor; [|constructor].
        eexists _, _, _. repeat split; discriminate.
      * discriminate.
    + exists r. split; assumption.
Defined.

(** A day without earnings: the summary is accepted and the stage runs to
    its end. *)
Example no_earnings_runs_to_the_end :
  exists r,
    Accumulator.accumulate Scenario.env_live Scenario.today
      (Scenario.with_summary Scenario.disk_alice Scenario.summary_no_earnings)
      Scenario.net_ok = Some (Done r) /\
    Observe.confirmed_for "alice" (SendSBI.trace r) = 2%nat.
Proof. eexists. split; vm_compute; reflexivity. Qed.

(** The early exit with code 0 is in [main] of fetch_real_delegators.js:
    no active delegator, or no eligible stake. *)
Lemma main_summary_early_exit h totalCurationHive cutoff today fund shares :
  Allocation.getActiveDelegators h = Some [] \/
  (exists active, Allocation.getActiveDelegators h = Some active /\ active <> [] /\
     (Eligibility.eligibleDelegators h cutoff fund shares).2 == 0) ->
  Allocation.main_summary h totalCurationHive cutoff today fund shares = Exit 0.
Proof.
  unfold Allocation.main_summary. intros [->|(active & -> & Hne & Hz)].
  - reflexivity.
  - destruct active; [congruence|]. cbn [length Nat.eqb].
    destruct (Eligibility.eligibleDelegators h cutoff fund shares) as [l t].
    cbn [snd] in Hz. apply Qeq_bool_iff in Hz. now rewrite Hz.
Qed.

(** When [main] writes a summary, it has at least one delegator: the
    summaries that [fetchRewards] turns down for an empty list do not come
    from [main]. *)
Lemma main_summary_has_delegators h totalCurationHive cutoff today fund shares s :
  Allocation.main_summary h totalCurationHive cutoff today fund shares = Done s ->
  FetchRewards.raw_delegators (FetchRewards.written s) <> Some [].
Proof.
  unfold Allocation.main_summary.
  destruct (Allocation.getActiveDelegators h) as [active|]; [|discriminate].
  destruct (Nat.eqb (length active) 0); [discriminate|].
  pose proof (AllocationFacts.eligibleDelegators_total h cutoff fund shares) as [Ht _].
  destruct (Eligibility.eligibleDelegators h cutoff fund shares) as [l t].
  cbn [fst snd] in Ht.
  destruct (Qeq_bool t 0) eqn:E; [discriminate|].
  intros [= <-]. cbn [FetchRewards.written FetchRewards.raw_delegators
                      Allocation.delegators].
  destruct l as [|kv l].
  - exfalso. apply Qeq_bool_neq in E. apply E. rewrite Ht. reflexivity.
  - intros H. injection H as H. apply (f_equal (@length _)) in H.
    rewrite length_map in H. unfold Allocation.allocate in H.
    rewrite length_map in H. unfold Allocation.sortedDelegators in H.
    rewrite SortFacts.stable_sort_length in H. discriminate H.
Qed.

(** ** Exclusion *)

(** Claim C10.  The exclusion test ignores letter case.  With [listed] the
    names of [excluded_from_sbi] in config.json and SBI_EXCLUDE made of
    comma-separated pieces, each a name with white space around it, all
    of them in ASCII, a delegator is excluded exactly when one of the
    listed names, or one of the names of the pieces that is not empty,
    differs from its id at most in the case of the letters; two ids that
    differ at most in case are excluded alike; and the loop over the
    balances passes over a delegator (other than the reserved key) when it
    is excluded and runs the payout loop for it otherwise. *)
Theorem exclusion_ignores_case (env : SendSBI.Env)
    (config_json : File SendSBI.Config) (listed : list string)
    (pieces : list ExclusionNotions.Piece) (delegator : string) :
  ExclusionNotions.lists config_json listed ->
  default ""%string (SendSBI.SBI_EXCLUDE env) = ExclusionNotions.joined pieces ->
  Forall (fun p => ExclusionNotions.well_formed p = true) pieces ->
  Forall (fun x => ExclusionNotions.plain x = true)
    (delegator :: listed ++ map ExclusionNotions.core pieces) ->
  let excluded := SendSBI.getExcludedDelegators env config_json in
  let matched :=
    exists x, ExclusionNotions.named listed pieces x /\
              ExclusionNotions.same_ignoring_case x delegator = true in
  (SendSBI.is_excluded excluded delegator = true <-> matched) /\
  (forall other, ExclusionNotions.same_ignoring_case other delegator = true ->
     SendSBI.is_excluded excluded other = SendSBI.is_excluded excluded delegator) /\
  (forall today data n, delegator <> "_meta"%string ->
     (matched ->
      SendSBI.payout_entry env today excluded delegator data n =
        Some {| SendSBI.value := data; SendSBI.pushed := [];
                SendSBI.net := n; SendSBI.effects := [] |}) /\
     (~ matched ->
      SendSBI.payout_entry env today excluded delegator data n =
        SendSBI.payout_loop (SendSBI.fuel_for data) env today delegator data n)).
Proof.
  intros Hcfg Henv Hwf _ excluded matched.
  assert (Hiff : SendSBI.is_excluded excluded delegator = true <-> matched).
  { unfold excluded, matched, ExclusionNotions.named.
    rewrite ExclusionFacts.is_excluded_iff.
    rewrite (TrimFacts.fromFile_lists _ _ Hcfg).
    split; intros (x & Hx & Hc); exists x.
    - apply CaseFacts.same_ignoring_case_iff in Hc. split; [|exact Hc].
      apply elem_of_app in Hx as [Hx|Hx]; [now left|right].
      now apply (TrimFacts.fromEnv_joined env pieces x Henv Hwf).
    - apply CaseFacts.same_ignoring_case_iff in Hc. split; [|exact Hc].
      apply elem_of_app. destruct Hx as [Hx|Hx]; [now left|right].
      now apply (TrimFacts.fromEnv_joined env pieces x Henv Hwf). }
  split; [exact Hiff|]. split.
  - intros other Hc. apply CaseFacts.same_ignoring_case_iff in Hc.
    unfold SendSBI.is_excluded. now rewrite Hc.
  - intros today data n Hmeta. unfold SendSBI.payout_entry.
    apply String.eqb_neq in Hmeta. rewrite Hmeta.
    split; intros Hm.
    + apply Hiff in Hm. now rewrite Hm.
    + destruct (SendSBI.is_excluded excluded delegator) eqn:E; [|reflexivity].
      exfalso. apply Hm, Hiff. reflexivity.
Qed.

Lemma exclusion_ignores_case_witness :
  let excluded :=
    SendSBI.getExcludedDelegators Scenario.env_live
      (Parsed {| SendSBI.excluded_from_sbi := Some ["Erin"%string] |}) in
  ExclusionNotions.joined
    [ {| ExclusionNotions.lead := " "; ExclusionNotions.core := "Carol";
         ExclusionNotions.trail := " " |};
      {| ExclusionNotions.lead := ""; ExclusionNotions.core := "";
         ExclusionNotions.trail := "" |};
      {| ExclusionNotions.lead := ""; ExclusionNotions.core := "dave";
         ExclusionNotions.trail := "" |} ] = " Carol ,,dave"%string /\
  SendSBI.is_excluded excluded "CAROL" = true /\
  SendSBI.is_excluded excluded "carol" = true /\
  SendSBI.payout_entry Scenario.env_live Scenario.today excluded "CAROL"
    Scenario.carol_5 Scenario.net_ok =
    Some {| SendSBI.value := Scenario.carol_5; SendSBI.pushed := [];
            SendSBI.net := Scenario.net_ok; SendSBI.effects := [] |}.
Proof.
  intros excluded. subst excluded. split; [reflexivity|].
  destruct (exclusion_ignores_case Scenario.env_live
              (Parsed {| SendSBI.excluded_from_sbi := Some ["Erin"%string] |})
              ["Erin"%string]
              [ {| ExclusionNotions.lead := " "; ExclusionNotions.core := "Carol";
                   ExclusionNotions.trail := " " |};
                {| ExclusionNotions.lead := ""; ExclusionNotions.core := "";
                   ExclusionNotions.trail := "" |};
                {| ExclusionNotions.lead := ""; ExclusionNotions.core := "dave";
                   ExclusionNotions.trail := "" |} ]
              "CAROL") as (H1 & H2 & H3).
  - constructor.
  - reflexivity.
  - repeat constructor.
  - repeat constructor.
  - assert (Hm : exists x,
               ExclusionNotions.named ["Erin"%string]
                 [ {| ExclusionNotions.lead := " "; ExclusionNotions.core := "Carol";
                      ExclusionNotions.trail := " " |};
                   {| ExclusionNotions.lead := ""; ExclusionNotions.core := "";
                      ExclusionNotions.trail := "" |};
                   {| ExclusionNotions.lead := ""; ExclusionNotions.core := "dave";
                      ExclusionNotions.trail := "" |} ] x /\
               ExclusionNotions.same_ignoring_case x "CAROL" = true).
    { exists "Carol"%string. split; [|reflexivity].
      right. split; [left|discriminate]. }
    split; [now apply H1|]. split.
    + rewrite (H2 "carol"%string eq_refl). now apply H1.
    + apply (H3 Scenario.today Scenario.carol_5 Scenario.net_ok); [discriminate|exact Hm].
Defined.

(** An id in capitals is met by an entry in lower case, and the other way
    round; blank pieces of SBI_EXCLUDE are dropped. *)
Example exclusion_examples :
  let excluded :=
    SendSBI.getExcludedDelegators Scenario.env_live
      (Parsed {| SendSBI.excluded_from_sbi := Some ["Erin"%string] |}) in
  SendSBI.fromEnv Scenario.env_live = ["Carol"%string; "dave"%string] /\
  SendSBI.is_excluded excluded "carol" = true /\
  SendSBI.is_excluded excluded "CAROL" = true /\
  SendSBI.is_excluded excluded "erin" = true /\
  SendSBI.is_excluded excluded "Dave" = true /\
  SendSBI.is_excluded excluded "" = false /\
  SendSBI.is_excluded excluded "alice" = false.
Proof. cbv zeta. repeat split; vm_compute; reflexivity. Qed.




(** An excluded contributor goes from 2.0 to 5.0 over two cycles of the
    stage (base reward 0.5, multiplier 3) and no transfer is attempted. *)
Example excluded_accrues_to_5 :
  let carol_2 := {| SendSBI.balance := 2; SendSBI.total_sent := Some 0;
                    SendSBI.last_updated := "2024-02-28" |} in
  let summary :=
    {| FetchRewards.raw_date := Some Scenario.today;
       FetchRewards.raw_total_delegation_hp := Some 8000;
       FetchRewards.raw_total_curation_hive := Some (10 # 19);
       FetchRewards.raw_distributable_hive := Some (1 # 2);
       FetchRewards.raw_delegators :=
         Some [Some {| FetchRewards.raw_name := Some "carol"%string;
                       FetchRewards.raw_base_reward := Some (1 # 2) |}] |} in
  let d0 :=
    {| SendSBI.delegator_balances_json := Parsed [("carol"%string, carol_2)];
       SendSBI.sbi_log_json := Absent;
       SendSBI.config_json := Absent;
       SendSBI.payout_summary_json := Parsed (FetchRewards.Document summary) |} in
  exists r1 r2 e,
    Accumulator.accumulate Scenario.env_live Scenario.today d0 Scenario.net_ok
      = Some (Done r1) /\
    Accumulator.accumulate Scenario.env_live Scenario.today (SendSBI.disk r1)
      Scenario.net_ok = Some (Done r2) /\
    Accumulator.get "carol" (Observe.stored_balances (SendSBI.disk r2)) = Some e /\
    SendSBI.balance e = 5 /\
    Observe.attempts_for "carol" (SendSBI.trace r1 ++ SendSBI.trace r2) = 0%nat /\
    Observe.stored_log (SendSBI.disk r2) = [].
Proof.
  cbv zeta. eexists _, _, _.
  split; [vm_compute; reflexivity|].
  split; [vm_compute; reflexivity|].
  split; [vm_compute; reflexivity|].
  repeat split.
Qed.

(** ** Durability of the payouts *)

(** Claim C1 as it stands fails.  With balance 2.4 and nodes that confirm
    everything, when the run proceeds to its second attempt the files hold
    neither the decrement nor the log entry of the first, confirmed,
    transfer; and a run that crashes at that point, followed by a complete
    run, confirms three transfers where the uninterrupted run confirms
    two. *)
Lemma durable_per_transfer_refuted :
  (exists r,
     SendSBI.processSBIPayouts Scenario.env_live Scenario.today
       Scenario.disk_alice Scenario.net_ok = Some r /\
     map (Observe.is_confirmed_for "alice") (SendSBI.trace r) =
       [true; true; false; false] /\
     map Observe.is_save (SendSBI.trace r) = [false; false; true; true] /\
     SendSBI.disk_after Scenario.disk_alice (take 1 (SendSBI.trace r)) =
       Scenario.disk_alice) /\
  ~ Observe.durable_per_transfer Scenario.env_live Scenario.today
      Scenario.disk_alice Scenario.net_ok /\
  ~ Observe.no_double_payout Scenario.env_live Scenario.today
      Scenario.disk_alice Scenario.net_ok.
Proof.
  split; [eexists; split; [vm_compute; reflexivity|repeat split]|].
  split; intros H.
  - unfold Observe.durable_per_transfer in H.
    remember (SendSBI.processSBIPayouts Scenario.env_live Scenario.today
                Scenario.disk_alice Scenario.net_ok) as o eqn:E.
    vm_compute in E. subst o.
    specialize (H _ eq_refl 1%nat _ eq_refl eq_refl "alice"%string).
    destruct H as [H _]. vm_compute in H. discriminate H.
  - unfold Observe.no_double_payout in H.
    assert (Hall : Observe.always_succeeds Scenario.env_live Scenario.net_ok)
      by (right; split; [discriminate|reflexivity]).
    specialize (H Hall).
    remember (SendSBI.processSBIPayouts Scenario.env_live Scenario.today
                Scenario.disk_alice Scenario.net_ok) as o eqn:E.
    vm_compute in E. subst o.
    specialize (H _ eq_refl 1%nat).
    remember (SendSBI.processSBIPayouts _ _ _ _) as o eqn:E in H.
    vm_compute in E. subst o.
    specialize (H _ _ eq_refl eq_refl eq_refl "alice"%string).
    vm_compute in H. lia.
Qed.

(** Claim C1, as the code has it.  A run of the payout executor always ends,
    and its effects are the transfer attempts followed by two saves, of the
    balances and then of the log: nothing is written before the last
    attempt, so the files stay as they were for as long as the run has not
    reached its saves, and a run started from the files a crash left
    behind is a run from the original files.  What a completed run writes
    records each confirmed transfer exactly once: for every delegator the
    log gains one entry per confirmed transfer, and (keys being distinct)
    the entry of the delegator is the old one with [confirm] applied once
    per confirmed transfer, that is one chunk less of balance and one chunk
    more of [total_sent] each time. *)
Theorem payouts_recorded_once_and_saved_at_the_end (env : SendSBI.Env)
    (today : string) (d : SendSBI.Disk) (n : SendSBI.Net) :
  exists r sends b l,
    SendSBI.processSBIPayouts env today d n = Some r /\
    SendSBI.trace r = sends ++ [SendSBI.Save_balances b; SendSBI.Save_log l] /\
    Observe.count Observe.is_save sends = 0%nat /\
    SendSBI.disk_after d (SendSBI.trace r) = SendSBI.disk r /\
    (forall k, (k <= length sends)%nat ->
       SendSBI.disk_after d (take k (SendSBI.trace r)) = d) /\
    (forall k today' n', (k <= length sends)%nat ->
       SendSBI.processSBIPayouts env today'
         (SendSBI.disk_after d (take k (SendSBI.trace r))) n' =
       SendSBI.processSBIPayouts env today' d n') /\
    (forall delegator,
       Observe.logged_for delegator (Observe.stored_log (SendSBI.disk r)) =
       (Observe.logged_for delegator (Observe.stored_log d) +
        Observe.confirmed_for delegator (SendSBI.trace r))%nat) /\
    (NoDup (map fst (Observe.stored_balances d)) ->
     forall delegator data,
       Accumulator.get delegator (Observe.stored_balances d) = Some data ->
       let confirmed := Observe.confirmed_for delegator (SendSBI.trace r) in
       let data' := Nat.iter confirmed (SendSBI.confirm today) data in
       Accumulator.get delegator (Observe.stored_balances (SendSBI.disk r)) =
         Some data' /\
       (Observe.is_amount (SendSBI.balance data) ->
        Observe.is_amount (SendSBI.orZero (SendSBI.total_sent data)) ->
        SendSBI.balance data' ==
          SendSBI.balance data - SendSBI.SBI_CHUNK * inject_Z (Z.of_nat confirmed) /\
        SendSBI.orZero (SendSBI.total_sent data') ==
          SendSBI.orZero (SendSBI.total_sent data) +
          SendSBI.SBI_CHUNK * inject_Z (Z.of_nat confirmed))).
Proof.
  unfold SendSBI.processSBIPayouts.
  fold (Observe.stored_balances d). fold (Observe.stored_log d).
  destruct (SendSBIFacts.payout_entries_total env today
              (SendSBI.getExcludedDelegators env (SendSBI.config_json d))
              (Observe.stored_balances d) n) as [st Hst].
  rewrite Hst.
  destruct (SendSBIFacts.payout_entries_shape _ _ _ _ _ _ Hst) as (_ & Hsave & _).
  assert (Hprefix : forall k, (k <= length (SendSBI.effects st))%nat ->
            SendSBI.disk_after d
              (take k (SendSBI.effects st ++
                         [SendSBI.Save_balances (SendSBI.value st);
                          SendSBI.Save_log (Observe.stored_log d ++ SendSBI.pushed st)]))
            = d).
  { intros k Hk. rewrite take_app_le by exact Hk.
    apply StageFacts.disk_after_no_save. now apply StageFacts.count_take_none. }
  eexists _, (SendSBI.effects st), _, _. split; [reflexivity|].
  cbn [SendSBI.trace SendSBI.disk].
  split; [reflexivity|]. split; [exact Hsave|]. split; [|split; [|split; [|split]]].
  - rewrite StageFacts.disk_after_app.
    rewrite (StageFacts.disk_after_no_save d (SendSBI.effects st)) by exact Hsave.
    reflexivity.
  - exact Hprefix.
  - intros k today' n' Hk. now rewrite Hprefix.
  - intros delegator. unfold Observe.stored_log at 1.
    cbn [SendSBI.save_log SendSBI.sbi_log_json loadJSON].
    unfold Observe.logged_for, Observe.confirmed_for.
    rewrite !SendSBIFacts.count_app. cbn [Observe.count List.filter
      Observe.is_confirmed_for length]. rewrite Nat.add_0_r. f_equal.
    apply (SendSBIFacts.payout_entries_logged _ _ _ _ _ _ delegator Hst).
  - intros Hnd delegator data Hget. cbv zeta. split.
    + unfold Observe.stored_balances at 1.
      cbn [SendSBI.save_log SendSBI.save_balances SendSBI.delegator_balances_json
           loadJSON].
      rewrite (SendSBIFacts.payout_entries_account _ _ _ _ _ _ _ _ Hst Hnd Hget).
      unfold Observe.confirmed_for. rewrite SendSBIFacts.count_app.
      cbn [Observe.count List.filter Observe.is_confirmed_for length].
      now rewrite Nat.add_0_r.
    + intros Hb Ht.
      destruct (SendSBIFacts.confirm_iter_amounts today data
                  (Observe.confirmed_for delegator
                     (SendSBI.effects st ++
                      [SendSBI.Save_balances (SendSBI.value st);
                       SendSBI.Save_log (Observe.stored_log d ++ SendSBI.pushed st)]))
                  Hb Ht) as (H1 & H2 & _).
      split; assumption.
Qed.

Lemma payouts_recorded_once_and_saved_at_the_end_witness :
  exists r data',
    SendSBI.processSBIPayouts Scenario.env_live Scenario.today
      Scenario.disk_alice Scenario.net_ok = Some r /\
    SendSBI.disk_after Scenario.disk_alice (take 2 (SendSBI.trace r)) =
      Scenario.disk_alice /\
    Observe.logged_for "alice" (Observe.stored_log (SendSBI.disk r)) = 2%nat /\
    Accumulator.get "alice" (Observe.stored_balances (SendSBI.disk r)) = Some data' /\
    SendSBI.balance data' == (24 # 10) - 1 * 2 /\
    SendSBI.orZero (SendSBI.total_sent data') == 0 + 1 * 2.
Proof.
  destruct (payouts_recorded_once_and_saved_at_the_end Scenario.env_live
              Scenario.today Scenario.disk_alice Scenario.net_ok)
    as (r & sends & b & l & Hr & Htrace & _ & _ & Hprefix & _ & Hlog & Hacc).
  assert (Hnd : NoDup (map fst (Observe.stored_balances Scenario.disk_alice)))
    by (apply (bool_decide_unpack _); vm_compute; exact I).
  destruct (Hacc Hnd "alice"%string Scenario.alice_2_4 eq_refl) as [Hget Hnum].
  destruct Hnum as [Hb Ht]; [reflexivity|reflexivity|].
  specialize (Hlog "alice"%string).
  assert (Hlen : (2 <= length sends)%nat).
  { apply (f_equal (@length _)) in Htrace. rewrite length_app in Htrace.
    assert (Hr' := Hr). vm_compute in Hr'. injection Hr' as <-.
    cbn in Htrace. lia. }
  specialize (Hprefix 2%nat Hlen).
  assert (Hc : Observe.confirmed_for "alice" (SendSBI.trace r) = 2%nat).
  { assert (Hr' := Hr). vm_compute in Hr'. injection Hr' as <-. reflexivity. }
  rewrite Hc in *.
  exists r, (Nat.iter 2 (SendSBI.confirm Scenario.today) Scenario.alice_2_4).
  split; [exact Hr|]. split; [exact Hprefix|].
  split; [exact Hlog|]. split; [exact Hget|]. split; [exact Hb|exact Ht].
Defined.

(** * Further properties of the code *)

(** ** Rounding and the multiplier *)

Module RoundingFacts.

Lemma nearest_mono x y : x <= y -> (nearest x <= nearest y)%Z.
Proof. intros H. unfold nearest. apply Qfloor_resp_le. lra. Qed.

Lemma nearest_nonneg x : 0 <= x -> (0 <= nearest x)%Z.
Proof. intros H. apply (nearest_mono 0 x H). Qed.

Lemma Qle_div_scale d (a b : Z) :
  (a <= b)%Z -> inject_Z a / scale d <= inject_Z b / scale d.
Proof.
  intros H. pose proof (scale_pos d) as Hs. unfold Qdiv.
  apply Qmult_le_compat_r; [now rewrite <- Zle_Qle|].
  apply Qlt_le_weak, Qinv_lt_0_compat, Hs.
Qed.

Lemma toFixed_nonpos d x : x <= 0 -> toFixed d x <= 0.
Proof.
  intros Hx. pose proof (scale_pos d) as Hs. unfold toFixed.
  destruct (Qle_bool 0 x) eqn:E; rewrite Qred_correct.
  - apply Qle_bool_iff in E. assert (E0 : x == 0) by lra.
    assert (E1 : x * scale d == inject_Z 0) by (rewrite E0; ring).
    unfold nearest. rewrite E1.
    change (Qfloor (inject_Z 0 + (1 # 2))) with 0%Z.
    apply Qle_shift_div_r; [exact Hs|]. change (inject_Z 0) with 0. lra.
  - assert (H : (0 <= nearest (- x * scale d))%Z).
    { apply nearest_nonneg. apply Qmult_le_0_compat; lra. }
    pose proof (Qle_div_scale d 0 _ H) as H'.
    assert (E0 : inject_Z 0 / scale d == 0).
    { change (inject_Z 0) with 0. field. lra. }
    rewrite E0 in H'. lra.
Qed.

Lemma toFixed_mono d x y : x <= y -> toFixed d x <= toFixed d y.
Proof.
  intros Hxy. pose proof (scale_pos d) as Hs.
  destruct (Qlt_le_dec x 0) as [Hx|Hx]; destruct (Qlt_le_dec y 0) as [Hy|Hy].
  - unfold toFixed.
    assert (Ex : Qle_bool 0 x = false) by (apply (geb_false x 0); exact Hx).
    assert (Ey : Qle_bool 0 y = false) by (apply (geb_false y 0); exact Hy).
    rewrite Ex, Ey, !Qred_correct.
    assert (H : (nearest (- y * scale d) <= nearest (- x * scale d))%Z).
    { apply nearest_mono. apply Qmult_le_compat_r; lra. }
    pose proof (Qle_div_scale d _ _ H). lra.
  - apply Qle_trans with 0; [apply toFixed_nonpos; lra|now apply toFixed_nonneg].
  - lra.
  - unfold toFixed.
    assert (Ex : Qle_bool 0 x = true) by (apply Qle_bool_iff; exact Hx).
    assert (Ey : Qle_bool 0 y = true) by (apply Qle_bool_iff; exact Hy).
    rewrite Ex, Ey, !Qred_correct. apply Qle_div_scale, nearest_mono.
    apply Qmult_le_compat_r; lra.
Qed.

(** Rounding what is already rounded changes nothing, as a number and as
    a fraction in lowest terms. *)
Lemma toFixed_idem d x : toFixed d (toFixed d x) = toFixed d x.
Proof.
  destruct (toFixed_is_decimal d x) as [z Hz].
  assert (E : toFixed d (toFixed d x) == toFixed d x).
  { rewrite (toFixed_comp d _ _ Hz), Hz. apply toFixed_decimal. }
  assert (R : forall q, Qred (toFixed d q) = toFixed d q).
  { intros q. unfold toFixed. destruct (Qle_bool 0 q);
      apply Qred_complete, Qred_correct. }
  rewrite <- (R (toFixed d x)). rewrite <- (R x) at 2.
  apply Qred_complete. exact E.
Qed.

(** Sums and differences of numbers with [d] decimals have [d] decimals. *)
Lemma toFixed_fixpoint_plus d x y :
  toFixed d x == x -> toFixed d y == y -> toFixed d (x + y) == x + y.
Proof.
  intros Hx Hy.
  destruct (toFixed_is_decimal d x) as [a Ha]. rewrite Hx in Ha.
  destruct (toFixed_is_decimal d y) as [b Hb]. rewrite Hy in Hb.
  pose proof (scale_pos d) as Hs.
  assert (E : x + y == inject_Z (a + b) / scale d).
  { rewrite Ha, Hb, inject_Z_plus. field. lra. }
  rewrite (toFixed_comp d _ _ E), E. apply toFixed_decimal.
Qed.

Lemma Math_max_mono a x y : x <= y -> Math_max a x <= Math_max a y.
Proof.
  intros H.
  destruct (Math_max_spec a x) as [[? ->]|[? ->]];
    destruct (Math_max_spec a y) as [[? ->]|[? ->]]; lra.
Qed.

End RoundingFacts.

(** Property X1.
    [formatHIVE] rounds to the nearest thousandth: applying it twice is
    applying it once, it moves a number by at most half a thousandth, and it
    keeps the order of numbers. *)
Theorem formatHIVE_rounds_to_thousandths (x y : Q) :
  formatHIVE (formatHIVE x) = formatHIVE x /\
  Qabs (formatHIVE x - x) <= 1 # 2000 /\
  (x <= y -> formatHIVE x <= formatHIVE y) /\
  (formatHIVE x == x -> formatHIVE y == y -> formatHIVE (x + y) == x + y).
Proof.
  unfold formatHIVE. split; [apply RoundingFacts.toFixed_idem|].
  split; [apply (toFixed_error 3 x)|].
  split; [apply RoundingFacts.toFixed_mono|apply RoundingFacts.toFixed_fixpoint_plus].
Qed.

Module MultiplierFacts.

(** The raw value of the piecewise-linear policy, before clamp and
    rounding, does not increase with the stake. *)
Lemma multiplier_raw_antitone x y :
  x <= y ->
  (if ltb y 10000 then 3
   else if ltb y 20000 then 3 - ((y - 10000) / 10000)
   else if ltb y 30000 then 2 - ((y - 20000) / 10000)
   else if ltb y 40000 then 1 - ((y - 30000) / 10000) * (1 # 2)
   else (1 # 2)) <=
  (if ltb x 10000 then 3
   else if ltb x 20000 then 3 - ((x - 10000) / 10000)
   else if ltb x 30000 then 2 - ((x - 20000) / 10000)
   else if ltb x 40000 then 1 - ((x - 30000) / 10000) * (1 # 2)
   else (1 # 2)).
Proof.
  intros Hxy.
  destruct (ltb x 10000) eqn:X1; destruct (ltb y 10000) eqn:Y1;
  destruct (ltb x 20000) eqn:X2; destruct (ltb y 20000) eqn:Y2;
  destruct (ltb x 30000) eqn:X3; destruct (ltb y 30000) eqn:Y3;
  destruct (ltb x 40000) eqn:X4; destruct (ltb y 40000) eqn:Y4;
  repeat match goal with
         | H : ltb _ _ = true |- _ => apply ltb_true in H
         | H : ltb _ _ = false |- _ => apply ltb_false in H
         end;
  unfold Qdiv; try change (/ 10000) with (1 # 10000); lra.
Qed.

Lemma getMultiplier_antitone x y : x <= y -> getMultiplier y <= getMultiplier x.
Proof.
  intros Hxy. unfold getMultiplier. cbv zeta.
  apply RoundingFacts.toFixed_mono, RoundingFacts.Math_max_mono.
  now apply multiplier_raw_antitone.
Qed.

Lemma getMultiplier_floor x : 1 # 2 <= getMultiplier x.
Proof.
  unfold getMultiplier. cbv zeta.
  change (1 # 2) with (toFixed 3 (1 # 2)) at 1.
  apply RoundingFacts.toFixed_mono.
  match goal with |- _ <= Math_max _ ?m =>
    destruct (Math_max_spec (1 # 2) m) as [[? ->]|[? ->]]; lra end.
Qed.

End MultiplierFacts.

(** Property X2.
    Both versions of the multiplier policy are non-increasing in the total
    stake. *)
Theorem getMultiplier_non_increasing (x y : Q) :
  x <= y ->
  getMultiplier y <= getMultiplier x /\
  getMultiplier_step y <= getMultiplier_step x.
Proof.
  intros Hxy. split; [now apply MultiplierFacts.getMultiplier_antitone|].
  unfold getMultiplier_step.
  destruct (ltb x 10000) eqn:X1; destruct (ltb y 10000) eqn:Y1; try lra.
  apply ltb_true in Y1. apply ltb_false in X1. lra.
Qed.

Lemma getMultiplier_non_increasing_witness :
  getMultiplier 25000 <= getMultiplier 15000 /\
  getMultiplier_step 25000 <= getMultiplier_step 15000.
Proof. apply (getMultiplier_non_increasing 15000 25000). discriminate. Defined.

(** Property X3.
    The piecewise-linear multiplier stays between its floor 0.5 and its top
    tier 3, whatever the stake; it is 3 below 10000 and 0.5 from 40000 on. *)
Theorem getMultiplier_between_floor_and_top (x : Q) :
  1 # 2 <= getMultiplier x /\ getMultiplier x <= 3 /\
  (x < 10000 -> getMultiplier x = 3) /\
  (40000 <= x -> getMultiplier x = 1 # 2).
Proof.
  split; [apply MultiplierFacts.getMultiplier_floor|]. split; [|split].
  - destruct (Qlt_le_dec x 0) as [H|H].
    + rewrite getMultiplier_below_10000 by lra. lra.
    + pose proof (MultiplierFacts.getMultiplier_antitone 0 x H) as Hm.
      rewrite (getMultiplier_below_10000 0) in Hm by lra. exact Hm.
  - apply getMultiplier_below_10000.
  - intros H. unfold getMultiplier. cbv zeta.
    assert (H1 : ltb x 10000 = false) by (apply ltb_false; lra).
    assert (H2 : ltb x 20000 = false) by (apply ltb_false; lra).
    assert (H3 : ltb x 30000 = false) by (apply ltb_false; lra).
    assert (H4 : ltb x 40000 = false) by (apply ltb_false; lra).
    now rewrite H1, H2, H3, H4.
Qed.

(** Property X4.
    The dashboard computes the multiplier it shows with the step policy,
    the accumulator the multiplier it applies with the piecewise-linear
    one.  They agree below 10000 HP; from 10000 to 29990 HP the accumulator
    applies more than the dashboard shows, and from 30020 HP on it applies
    less. *)
Theorem dashboard_multiplier_differs_from_10000 (x : Q) :
  (x < 10000 -> getMultiplier x = getMultiplier_step x) /\
  (10000 <= x -> x <= 29990 -> getMultiplier_step x < getMultiplier x) /\
  (30020 <= x -> getMultiplier x < getMultiplier_step x).
Proof.
  split; [|split].
  - intros H. rewrite getMultiplier_below_10000 by exact H.
    unfold getMultiplier_step. apply ltb_true in H. now rewrite H.
  - intros H1 H2. unfold getMultiplier_step.
    apply ltb_false in H1. rewrite H1.
    pose proof (MultiplierFacts.getMultiplier_antitone x 29990 H2) as Hm.
    assert (E : getMultiplier 29990 = 1001 # 1000) by (vm_compute; reflexivity).
    rewrite E in Hm. lra.
  - intros H. unfold getMultiplier_step.
    assert (H1 : ltb x 10000 = false) by (apply ltb_false; lra). rewrite H1.
    pose proof (MultiplierFacts.getMultiplier_antitone 30020 x H) as Hm.
    assert (E : getMultiplier 30020 = 999 # 1000) by (vm_compute; reflexivity).
    rewrite E in Hm. lra.
Qed.

(** ** The ledger: what is stored, and what changes it *)

Module LedgerShape.
Import Ledger Observe Notions LedgerFacts.








(** A delegator who is in the history stays in it, and the stored array
    only grows at its end; other delegators are not touched. *)
Lemma push_delta_appends h d T hp0 ts dt d' es :
  h !! d' = Some es ->
  exists added, push_delta h d T hp0 ts dt !! d' = Some (es ++ added) /\
                (d <> d' -> added = []).
Proof.
  intros Hes. rewrite push_delta_lookup.
  destruct (decide (d = d')) as [<-|Hne].
  - rewrite Hes. cbv zeta. change (default [] (Some es)) with es.
    destruct (gtb _ epsilon).
    + eexists. split; [reflexivity|congruence].
    + exists []. now rewrite app_nil_r.
  - exists []. now rewrite app_nil_r.
Qed.

Lemma merge_step_appends ACCOUNT fund shares h o d es :
  h !! d = Some es ->
  exists added, merge_step ACCOUNT fund shares h o !! d = Some (es ++ added) /\
                (delegation_by ACCOUNT d o = false -> added = []).
Proof.
  intros Hes. unfold merge_step, delegation_by.
  destruct (op o.2) as [delegator delegatee vs| |];
    try (exists []; now rewrite app_nil_r).
  destruct (String.eqb delegatee ACCOUNT); [|exists []; now rewrite app_nil_r].
  destruct (push_delta_appends h delegator vs
              (toFixed 3 (vestsToHP vs fund shares)) (op_timestamp o.2)
              (isoDate (op_timestamp o.2)) d es Hes) as (added & Ha & Hne).
  exists added. split; [exact Ha|]. intros Hb. apply Hne.
  intros ->. now rewrite String.eqb_refl in Hb.
Qed.

Lemma merge_step_absent ACCOUNT fund shares h o d :
  h !! d = None -> delegation_by ACCOUNT d o = false ->
  merge_step ACCOUNT fund shares h o !! d = None.
Proof.
  intros Hd Hb. unfold merge_step. unfold delegation_by in Hb.
  destruct (op o.2) as [delegator delegatee vs| |]; try exact Hd.
  destruct (String.eqb delegatee ACCOUNT); [|exact Hd].
  rewrite push_delta_lookup.
  destruct (decide (delegator = d)) as [->|Hne]; [|exact Hd].
  now rewrite String.eqb_refl in Hb.
Qed.

Lemma merge_step_irrelevant ACCOUNT fund shares h o :
  delegates_to ACCOUNT o = false -> merge_step ACCOUNT fund shares h o = h.
Proof.
  unfold merge_step, delegates_to.
  destruct (op o.2) as [delegator delegatee vs| |]; try reflexivity.
  now intros ->.
Qed.

Lemma fold_merge_filter ACCOUNT fund shares ops h :
  fold_left (merge_step ACCOUNT fund shares) (List.filter (delegates_to ACCOUNT) ops) h =
  fold_left (merge_step ACCOUNT fund shares) ops h.
Proof.
  revert h. induction ops as [|o ops IH]; intros h; [reflexivity|].
  cbn [List.filter fold_left].
  destruct (delegates_to ACCOUNT o) eqn:E.
  - cbn [fold_left]. apply IH.
  - rewrite IH. now rewrite (merge_step_irrelevant _ _ _ h o E).
Qed.

Lemma delegationEvents_filter ACCOUNT fund shares raw :
  delegationEvents ACCOUNT (List.filter (delegates_to ACCOUNT) raw) fund shares =
  delegationEvents ACCOUNT raw fund shares.
Proof.
  unfold delegationEvents.
  induction raw as [|[i o] raw IH]; [reflexivity|].
  cbn [List.filter]. unfold delegates_to at 1. cbn [snd].
  destruct (op o) as [delegator delegatee vs| |] eqn:Eo;
    try (cbn [omap list_omap]; rewrite Eo; exact IH).
  destruct (String.eqb delegatee ACCOUNT) eqn:Ed.
  - cbn [omap list_omap]. rewrite Eo, Ed. f_equal. exact IH.
  - cbn [omap list_omap]. rewrite Eo, Ed. exact IH.
Qed.

(** On the events of a history, the loop of the first run and the loop of
    the later runs do the same. *)
Lemma fold_build_merge ACCOUNT fund shares raw h :
  fold_left build_step (delegationEvents ACCOUNT raw fund shares) h =
  fold_left (merge_step ACCOUNT fund shares) raw h.
Proof.
  unfold delegationEvents.
  revert h. induction raw as [|[i o] raw IH]; intros h; [reflexivity|].
  cbn [fold_left]. unfold merge_step at 2. cbn [snd omap list_omap].
  destruct (op o) as [delegator delegatee vs| |] eqn:Eo; try apply IH.
  destruct (String.eqb delegatee ACCOUNT) eqn:Ed; [|apply IH].
  cbn [fold_left]. rewrite <- IH. f_equal.
  unfold build_step.
  cbn [ev_delegator ev_totalVests ev_hp ev_timestamp ev_date].
  now rewrite RoundingFacts.toFixed_idem.
Qed.

Lemma stable_sort_sorted {A} (before : A -> A -> bool) l :
  StronglySorted (fun a b => before a b = true) l -> stable_sort before l = l.
Proof.
  induction 1 as [|x l Hl IH Hx]; [reflexivity|].
  unfold stable_sort in *. cbn [foldr]. rewrite IH.
  destruct l as [|y l]; [reflexivity|].
  cbn [insert_sorted]. apply Forall_inv in Hx. now rewrite Hx.
Qed.

Lemma time_ordered_sorted raw :
  time_ordered raw = true -> StronglySorted not_later raw.
Proof.
  intros H. apply Sorted_StronglySorted.
  { intros a b c. unfold not_later. lia. }
  induction raw as [|a raw IH]; [constructor|].
  destruct raw as [|b raw]; [repeat constructor|].
  cbn [time_ordered] in H. apply andb_prop in H as [H1 H2].
  constructor; [now apply IH|]. constructor. unfold not_later. lia.
Qed.

Lemma sorted_time_ordered raw :
  StronglySorted not_later raw -> time_ordered raw = true.
Proof.
  induction 1 as [|a raw Hl IH Ha]; [reflexivity|].
  destruct raw as [|b raw]; [reflexivity|].
  cbn [time_ordered]. apply Forall_inv in Ha. unfold not_later in Ha.
  apply andb_true_intro. split; [lia|exact IH].
Qed.

Lemma time_ordered_app_l raw1 raw2 :
  time_ordered (raw1 ++ raw2) = true -> time_ordered raw1 = true.
Proof.
  intros H. apply sorted_time_ordered.
  apply time_ordered_sorted in H.
  induction raw1 as [|a raw1 IH]; [constructor|].
  simpl in H. apply StronglySorted_inv in H as [H1 H2].
  constructor; [now apply IH|].
  apply Forall_app in H2 as [H2 _]. exact H2.
Qed.

Lemma delegationEvents_sorted ACCOUNT fund shares raw :
  StronglySorted not_later raw ->
  StronglySorted (fun a b => by_timestamp a b = true)
    (delegationEvents ACCOUNT raw fund shares).
Proof.
  unfold delegationEvents.
  induction 1 as [|[i o] raw Hl IH Ha]; [constructor|].
  cbn [omap list_omap].
  destruct (op o) as [delegator delegatee vs| |] eqn:Eo; try exact IH.
  destruct (String.eqb delegatee ACCOUNT) eqn:Ed; [|exact IH].
  constructor; [exact IH|].
  apply Forall_forall. intros ev Hev.
  apply list_elem_of_omap in Hev as ([j o'] & Hin & Hev).
  rewrite Forall_forall in Ha. specialize (Ha _ Hin).
  unfold not_later in Ha. cbn [snd] in Ha.
  unfold by_timestamp. cbn [ev_timestamp].
  destruct (op o') as [d2 de2 vs2| |]; try discriminate.
  destruct (String.eqb de2 ACCOUNT); [|discriminate].
  injection Hev as <-. cbn [ev_timestamp]. lia.
Qed.

Lemma build_is_merge ACCOUNT fund shares raw :
  time_ordered raw = true ->
  buildDelegationHistory ACCOUNT raw fund shares =
  mergeNewDelegationEvents ACCOUNT ∅ raw fund shares.
Proof.
  intros H. unfold buildDelegationHistory, mergeNewDelegationEvents.
  rewrite stable_sort_sorted
    by now apply delegationEvents_sorted, time_ordered_sorted.
  apply fold_build_merge.
Qed.

End LedgerShape.



(** Property X6.
    [mergeNewDelegationEvents] only appends: the array a delegator already
    has is a prefix of the array after the merge, and it is the same array
    when none of the new operations is a delegation by that delegator to the
    account. *)
Theorem merge_only_appends (ACCOUNT : string) (h : Ledger.History)
    (newOperations : Ledger.RawHistory) (fund shares : Q)
    (delegator : string) (events : list Ledger.Entry) :
  h !! delegator = Some events ->
  exists added,
    Ledger.mergeNewDelegationEvents ACCOUNT h newOperations fund shares !! delegator
      = Some (events ++ added) /\
    (Forall (fun o => Notions.delegation_by ACCOUNT delegator o = false) newOperations ->
     added = []).
Proof.
  unfold Ledger.mergeNewDelegationEvents. revert h events.
  induction newOperations as [|o ops IH]; intros h events Hd.
  - exists []. now rewrite app_nil_r.
  - cbn [fold_left].
    destruct (LedgerShape.merge_step_appends ACCOUNT fund shares h o delegator events Hd)
      as (a1 & H1 & N1).
    destruct (IH _ _ H1) as (a2 & H2 & N2).
    exists (a1 ++ a2). split; [now rewrite app_assoc|].
    intros HF. apply Forall_cons in HF as [Ho Hops].
    now rewrite (N1 Ho), (N2 Hops).
Qed.

Lemma merge_only_appends_witness :
  let h := Ledger.buildDelegationHistory "bayanihive"
             (take 1 Scenario.raw_two_events) 1 2000 in
  exists events added,
    h !! "alice"%string = Some events /\ length events = 1%nat /\
    Ledger.mergeNewDelegationEvents "bayanihive" h
      (drop 1 Scenario.raw_two_events) 1 2000 !! "alice"%string
      = Some (events ++ added).
Proof.
  intros h.
  destruct (h !! "alice"%string) as [events|] eqn:Hd; [|vm_compute in Hd; discriminate].
  destruct (merge_only_appends "bayanihive" h (drop 1 Scenario.raw_two_events)
              1 2000 "alice" events Hd) as (added & Ha & _).
  exists events, added. split; [reflexivity|].
  split; [vm_compute in Hd; injection Hd as <-; reflexivity|exact Ha].
Defined.

(** Property X7.
    A delegator enters the history only through a delegation of their own
    to the account: without one among the new operations, a delegator who
    is not in the history is not in it after the merge. *)
Theorem merge_adds_only_delegators (ACCOUNT : string) (h : Ledger.History)
    (newOperations : Ledger.RawHistory) (fund shares : Q) (delegator : string) :
  h !! delegator = None ->
  Forall (fun o => Notions.delegation_by ACCOUNT delegator o = false) newOperations ->
  Ledger.mergeNewDelegationEvents ACCOUNT h newOperations fund shares !! delegator = None.
Proof.
  unfold Ledger.mergeNewDelegationEvents. revert h.
  induction newOperations as [|o ops IH]; intros h Hd HF; [exact Hd|].
  cbn [fold_left]. apply Forall_cons in HF as [Ho Hops].
  apply IH; [|exact Hops]. now apply LedgerShape.merge_step_absent.
Qed.

Lemma merge_adds_only_delegators_witness :
  Ledger.mergeNewDelegationEvents "bayanihive" ∅ Scenario.raw_two_events 1 2000
    !! "carol"%string = None.
Proof.
  apply (merge_adds_only_delegators "bayanihive" ∅ Scenario.raw_two_events 1 2000 "carol").
  - apply lookup_empty.
  - repeat constructor.
Defined.

(** Property X8.
    Operations that are not delegations to the account play no part:
    building or merging with them gives the same history as building or
    merging without them. *)
Theorem ledger_ignores_other_operations (ACCOUNT : string) (h : Ledger.History)
    (operations : Ledger.RawHistory) (fund shares : Q) :
  Ledger.mergeNewDelegationEvents ACCOUNT h
    (List.filter (Notions.delegates_to ACCOUNT) operations) fund shares =
  Ledger.mergeNewDelegationEvents ACCOUNT h operations fund shares /\
  Ledger.buildDelegationHistory ACCOUNT
    (List.filter (Notions.delegates_to ACCOUNT) operations) fund shares =
  Ledger.buildDelegationHistory ACCOUNT operations fund shares.
Proof.
  split.
  - apply LedgerShape.fold_merge_filter.
  - unfold Ledger.buildDelegationHistory.
    now rewrite LedgerShape.delegationEvents_filter.
Qed.

(** Property X9.
    On operations in the order of their timestamps, the first run and the
    later runs agree: building the history from all operations at once is
    building it from a first part and merging the rest, at the same
    conversion rate. *)
Theorem build_then_merge_is_build (ACCOUNT : string)
    (first rest : Ledger.RawHistory) (fund shares : Q) :
  Notions.time_ordered (first ++ rest) = true ->
  Ledger.buildDelegationHistory ACCOUNT (first ++ rest) fund shares =
  Ledger.mergeNewDelegationEvents ACCOUNT
    (Ledger.buildDelegationHistory ACCOUNT first fund shares) rest fund shares.
Proof.
  intros H.
  rewrite (LedgerShape.build_is_merge ACCOUNT fund shares (first ++ rest) H).
  rewrite (LedgerShape.build_is_merge ACCOUNT fund shares first
             (LedgerShape.time_ordered_app_l _ _ H)).
  unfold Ledger.mergeNewDelegationEvents. apply fold_left_app.
Qed.

Lemma build_then_merge_is_build_witness :
  Ledger.buildDelegationHistory "bayanihive"
    (take 1 Scenario.raw_two_events ++ drop 1 Scenario.raw_two_events) 1 2000 =
  Ledger.mergeNewDelegationEvents "bayanihive"
    (Ledger.buildDelegationHistory "bayanihive" (take 1 Scenario.raw_two_events) 1 2000)
    (drop 1 Scenario.raw_two_events) 1 2000.
Proof.
  apply (build_then_merge_is_build "bayanihive"
           (take 1 Scenario.raw_two_events) (drop 1 Scenario.raw_two_events) 1 2000).
  reflexivity.
Defined.

(** ** Sorting, continued *)

Module OrderFacts.
Import Ledger.

Section Insertion.
Context {A : Type} (before : A -> A -> bool).
Let R (a b : A) : Prop := before a b = true.
Hypothesis before_total : forall a b, before a b = false -> before b a = true.
Hypothesis before_trans : forall a b c, R a b -> R b c -> R a c.

Lemma insert_sorted_StronglySorted x l :
  StronglySorted R l -> StronglySorted R (insert_sorted before x l).
Proof.
  induction 1 as [|y l Hl IH Hy]; cbn [insert_sorted].
  - repeat constructor.
  - destruct (before x y) eqn:E.
    + constructor; [now constructor|]. constructor; [exact E|].
      eapply Forall_impl; [exact Hy|]. intros z Hz. now apply (before_trans x y z).
    + constructor; [exact IH|].
      apply (Permutation_Forall (Permutation_sym (SortFacts.insert_sorted_Permutation before x l))).
      constructor; [now apply before_total|exact Hy].
Qed.

Lemma stable_sort_StronglySorted l : StronglySorted R (stable_sort before l).
Proof.
  induction l as [|x l IH]; [constructor|].
  unfold stable_sort in *. cbn [foldr]. now apply insert_sorted_StronglySorted.
Qed.

End Insertion.

Lemma StronglySorted_map {A B} (f : A -> B) (R : A -> A -> Prop) (S : B -> B -> Prop) l :
  (forall a b, R a b -> S (f a) (f b)) ->
  StronglySorted R l -> StronglySorted S (map f l).
Proof.
  intros HRS. induction 1 as [|x l Hl IH Hx]; cbn [map]; constructor.
  - exact IH.
  - apply Forall_map. eapply Forall_impl; [exact Hx|]. intros y. apply HRS.
Qed.

End OrderFacts.

(** ** Eligibility, continued *)

Module EligibilityShape.
Import Ledger Eligibility EligibilityNotions.

Lemma Math_max_comp a x y : x == y -> Math_max a x == Math_max a y.
Proof.
  intros H.
  destruct (Math_max_spec a x) as [[? ->]|[? ->]];
    destruct (Math_max_spec a y) as [[? ->]|[? ->]]; lra.
Qed.

Lemma Math_min_comp a b x y : a == x -> b == y -> Math_min a b == Math_min x y.
Proof.
  intros H1 H2.
  destruct (Math_min_spec a b) as [[? ->]|[? ->]];
    destruct (Math_min_spec x y) as [[? ->]|[? ->]]; lra.
Qed.

Lemma held_at_cons cutoff e es :
  held_at cutoff (e :: es) ==
  (if (timestamp e <=? cutoff)%Z then vests e else 0) + held_at cutoff es.
Proof.
  unfold held_at. cbn [List.filter].
  destruct (timestamp e <=? cutoff)%Z.
  - cbn [map]. apply sum_cons.
  - lra.
Qed.

Lemma held_at_Permutation cutoff es1 es2 :
  Permutation es1 es2 -> held_at cutoff es1 == held_at cutoff es2.
Proof.
  induction 1 as [|x l1 l2 _ IH|x y l|l1 l2 l3 _ IH1 _ IH2].
  - reflexivity.
  - rewrite !held_at_cons, IH. reflexivity.
  - rewrite !held_at_cons. ring.
  - now rewrite IH1.
Qed.

(** Events after the cutoff leave [eligibleVests] as it is. *)
Lemma walk_late cutoff events st :
  Forall (fun e => (cutoff < timestamp e)%Z) events ->
  (fold_left (walk_step cutoff) events st).2 = st.2 /\ held_at cutoff events == 0.
Proof.
  intros H. revert st. induction H as [|e es He _ IH]; intros [r el].
  - split; reflexivity.
  - cbn [fold_left]. unfold walk_step at 2.
    rewrite held_at_cons.
    assert (E : (timestamp e <=? cutoff)%Z = false) by (apply Z.leb_gt; exact He).
    rewrite E. destruct (IH (r + vests e, el)) as [H1 H2].
    split; [exact H1|]. rewrite H2. ring.
Qed.

(** On events in the order of their timestamps, the walk leaves in
    [eligibleVests] the balance reached at the cutoff, floored at 0. *)
Lemma walk_sorted cutoff events :
  StronglySorted (fun a b => by_event_time a b = true) events ->
  forall r el, el == Math_max 0 r ->
    (fold_left (walk_step cutoff) events (r, el)).2
      == Math_max 0 (r + held_at cutoff events).
Proof.
  induction 1 as [|e es Hs IH He]; intros r el Hel.
  - cbn [fold_left snd]. rewrite Hel. apply Math_max_comp.
    unfold held_at. cbn [List.filter map]. change (sum []) with 0. ring.
  - cbn [fold_left]. unfold walk_step at 2.
    destruct (timestamp e <=? cutoff)%Z eqn:E.
    + rewrite (IH (r + vests e) (Math_max 0 (r + vests e))) by reflexivity.
      apply Math_max_comp. rewrite held_at_cons, E. ring.
    + assert (Hlate : Forall (fun e' => (cutoff < timestamp e')%Z) es).
      { eapply Forall_impl; [exact He|]. intros e' H'. unfold by_event_time in H'.
        apply Z.leb_gt in E. apply Z.leb_le in H'. lia. }
      destruct (walk_late cutoff es (r + vests e, el) Hlate) as [H1 H2].
      rewrite H1. cbn [snd]. rewrite Hel. apply Math_max_comp.
      rewrite held_at_cons, E, H2. ring.
Qed.

Lemma by_event_time_total a b : by_event_time a b = false -> by_event_time b a = true.
Proof. unfold by_event_time. intros H. apply Z.leb_gt in H. apply Z.leb_le. lia. Qed.

Lemma by_event_time_trans a b c :
  by_event_time a b = true -> by_event_time b c = true -> by_event_time a c = true.
Proof. unfold by_event_time. rewrite !Z.leb_le. lia. Qed.

Lemma walk_closed_form events cutoff :
  (walk cutoff events).2 == Math_max 0 (held_at cutoff events).
Proof.
  unfold walk.
  rewrite (walk_sorted cutoff (stable_sort by_event_time events)
             (OrderFacts.stable_sort_StronglySorted by_event_time
                by_event_time_total by_event_time_trans events) 0 0)
    by reflexivity.
  apply Math_max_comp.
  rewrite (held_at_Permutation cutoff _ _
             (SortFacts.stable_sort_Permutation by_event_time events)).
  ring.
Qed.

(** What the loop over [Object.entries(delegationHistory)] collects. *)
Lemma eligible_fold_elem cutoff fund shares kvs acc d x :
  (d, x) ∈ (fold_left (eligible_step cutoff fund shares) kvs acc).1 <->
  (d, x) ∈ acc.1 \/
  exists es, (d, es) ∈ kvs /\ 0 < eligibleVests es cutoff /\
             x = vestsToHP (eligibleVests es cutoff) fund shares.
Proof.
  revert acc. induction kvs as [|[k es] kvs IH]; intros [l t].
  - cbn [fold_left fst]. split; [now left|].
    intros [H|(es & H & _)]; [exact H|]. now apply elem_of_nil in H.
  - cbn [fold_left]. rewrite IH. unfold eligible_step.
    destruct (gtb (eligibleVests es cutoff) 0) eqn:E; cbn [fst].
    + apply gtb_true in E. rewrite elem_of_app, list_elem_of_singleton. split.
      * intros [[H|H]|(es' & H & Hr)].
        -- now left.
        -- injection H as -> ->. right. exists es. split; [left|]. now split.
        -- right. exists es'. split; [now right|exact Hr].
      * intros [H|(es' & H & Hp & Hx)]; [now left; left|].
        apply elem_of_cons in H as [H|H].
        -- injection H as -> ->. left; right. now rewrite Hx.
        -- right. exists es'. split; [exact H|]. now split.
    + apply gtb_false in E. split.
      * intros [H|(es' & H & Hr)]; [now left|].
        right. exists es'. split; [now right|exact Hr].
      * intros [H|(es' & H & Hp & Hx)]; [now left|].
        apply elem_of_cons in H as [H|H].
        -- injection H as -> ->. lra.
        -- right. exists es'. split; [exact H|]. now split.
Qed.

Lemma eligible_fold_names cutoff fund shares kvs acc :
  exists l, (fold_left (eligible_step cutoff fund shares) kvs acc).1 = acc.1 ++ l /\
            sublist (map fst l) (map fst kvs).
Proof.
  revert acc. induction kvs as [|[k es] kvs IH]; intros [l t].
  - exists []. cbn [fold_left fst]. now rewrite app_nil_r.
  - cbn [fold_left]. unfold eligible_step at 2.
    destruct (gtb (eligibleVests es cutoff) 0).
    + destruct (IH (l ++ [(k, vestsToHP (eligibleVests es cutoff) fund shares)],
                    t + vestsToHP (eligibleVests es cutoff) fund shares))
        as (l' & Hl & Hs).
      eexists (_ :: l'). cbn [fst] in *. rewrite Hl, <- app_assoc.
      split; [reflexivity|]. cbn [map fst]. now apply sublist_skip.
    + destruct (IH (l, t)) as (l' & Hl & Hs).
      exists l'. split; [exact Hl|]. cbn [map fst]. now apply sublist_cons.
Qed.

Lemma eligible_names_NoDup (h : History) cutoff fund shares :
  NoDup (map fst (eligibleDelegators h cutoff fund shares).1).
Proof.
  unfold eligibleDelegators.
  destruct (eligible_fold_names cutoff fund shares (map_to_list h) ([], 0))
    as (l & -> & Hs).
  cbn [fst app]. eapply sublist_NoDup; [|exact Hs].
  apply (NoDup_fst_map_to_list h).
Qed.

End EligibilityShape.

(** Property X10.
    The eligible stake of a delegator has a closed form that does not depend
    on the order in which the events are stored: the stake held at the
    cutoff, capped by the stake held now, both floored at 0. *)
Theorem eligibleVests_closed_form (events : list Ledger.Entry) (cutoff : Z) :
  Eligibility.eligibleVests events cutoff ==
  Math_min (Math_max 0 (EligibilityNotions.held_at cutoff events))
           (Math_max 0 (Ledger.replay events)).
Proof.
  unfold Eligibility.eligibleVests, Eligibility.currentDelegation.
  apply EligibilityShape.Math_min_comp.
  - apply EligibilityShape.walk_closed_form.
  - apply EligibilityShape.Math_max_comp, EligibilityFacts.runningBalance_replay.
Qed.

(** Property X11.
    The eligible delegators that [main] collects are exactly the delegators
    of the history whose eligible stake is positive, each once, with that
    stake converted to HP. *)
Theorem eligibleDelegators_spec (h : Ledger.History) (cutoff : Z) (fund shares : Q) :
  let eligible := (Eligibility.eligibleDelegators h cutoff fund shares).1 in
  NoDup (map fst eligible) /\
  forall delegator hp,
    (delegator, hp) ∈ eligible <->
    exists events,
      h !! delegator = Some events /\
      0 < Eligibility.eligibleVests events cutoff /\
      hp = Ledger.vestsToHP (Eligibility.eligibleVests events cutoff) fund shares.
Proof.
  cbv zeta. split; [apply EligibilityShape.eligible_names_NoDup|].
  unfold Eligibility.eligibleDelegators.
  - intros d x. rewrite EligibilityShape.eligible_fold_elem. cbn [fst].
    split.
    + intros [H|(es & H & Hr)]; [now apply elem_of_nil in H|].
      exists es. split; [now apply elem_of_map_to_list|exact Hr].
    + intros (es & H & Hr). right. exists es.
      split; [now apply elem_of_map_to_list|exact Hr].
Qed.

(** ** Active delegators and the exit codes of [main] *)

Module ActiveFacts.
Import Ledger Allocation ActiveNotions.

Lemma active_fold_None kvs :
  foldr active_step (Some []) kvs = None <-> exists d, (d, []) ∈ kvs.
Proof.
  induction kvs as [|[k es] kvs IH]; cbn [foldr].
  - split; [discriminate|]. intros [d H]. now apply elem_of_nil in H.
  - unfold active_step at 1.
    destruct (last es) as [latest|] eqn:El.
    + assert (Hne : es <> []) by (intros ->; discriminate).
      destruct (foldr active_step (Some []) kvs) as [active|] eqn:Ef.
      * split.
        -- destruct (_ && _); discriminate.
        -- intros [d H]. apply elem_of_cons in H as [H|H].
           ++ injection H as _ H. congruence.
           ++ destruct IH as [_ IH]. discriminate IH. now exists d.
      * split; [|reflexivity]. intros _.
        destruct IH as [IH _]. destruct (IH eq_refl) as [d H].
        exists d. now right.
    + apply last_None in El as ->. split; [|reflexivity].
      intros _. exists k. left.
Qed.

Lemma active_fold_Some kvs active :
  foldr active_step (Some []) kvs = Some active ->
  forall d x,
    (d, x) ∈ active <->
    exists es latest, (d, es) ∈ kvs /\ last es = Some latest /\
      0 < totalVests latest /\ 0 < hp latest /\ x = hp latest.
Proof.
  revert active. induction kvs as [|[k es] kvs IH]; cbn [foldr]; intros active Ha d x.
  - injection Ha as <-. split.
    + intros H. now apply elem_of_nil in H.
    + intros (es & latest & H & _). now apply elem_of_nil in H.
  - unfold active_step at 1 in Ha.
    destruct (last es) as [latest|] eqn:El; [|discriminate].
    destruct (foldr active_step (Some []) kvs) as [active'|] eqn:Ef; [|discriminate].
    specialize (IH active' eq_refl d x).
    destruct (gtb (totalVests latest) 0 && gtb (hp latest) 0) eqn:E;
      injection Ha as <-.
    + apply andb_prop in E as [E1 E2]. apply gtb_true in E1, E2.
      rewrite elem_of_cons, IH. split.
      * intros [H|(es' & l' & H & Hr)].
        -- injection H as -> ->. exists es, latest. split; [left|]. now repeat split.
        -- exists es', l'. split; [now right|exact Hr].
      * intros (es' & l' & H & Hl & Hr). apply elem_of_cons in H as [H|H].
        -- injection H as -> ->. left. rewrite El in Hl. injection Hl as <-.
           destruct Hr as (_ & _ & ->). reflexivity.
        -- right. exists es', l'. split; [exact H|]. now split.
    + rewrite IH. split.
      * intros (es' & l' & H & Hr). exists es', l'. split; [now right|exact Hr].
      * intros (es' & l' & H & Hl & H1 & H2 & Hx).
        apply elem_of_cons in H as [H|H].
        -- injection H as -> ->. rewrite El in Hl. injection Hl as <-.
           apply andb_false_iff in E as [E|E]; apply gtb_false in E; lra.
        -- exists es', l'. split; [exact H|]. now repeat split.
Qed.

Lemma getActiveDelegators_fold h :
  getActiveDelegators h = foldr active_step (Some []) (map_to_list h).
Proof. reflexivity. Qed.

Lemma getActiveDelegators_None (h : History) :
  getActiveDelegators h = None <-> exists d, h !! d = Some [].
Proof.
  rewrite getActiveDelegators_fold, active_fold_None.
  split; intros [d H]; exists d; now apply elem_of_map_to_list.
Qed.

End ActiveFacts.

(** Property X12.
    [getActiveDelegators] fails exactly when some delegator has an empty
    array; otherwise it lists, with their latest HP, exactly the delegators
    whose latest entry has a positive total and a positive HP. *)
Theorem getActiveDelegators_spec (h : Ledger.History) :
  (Allocation.getActiveDelegators h = None <-> exists d, h !! d = Some []) /\
  forall active, Allocation.getActiveDelegators h = Some active ->
    forall delegator x,
      (delegator, x) ∈ active <->
      exists events latest,
        h !! delegator = Some events /\ last events = Some latest /\
        0 < Ledger.totalVests latest /\ 0 < Ledger.hp latest /\
        x = Ledger.hp latest.
Proof.
  split; [apply ActiveFacts.getActiveDelegators_None|].
  rewrite ActiveFacts.getActiveDelegators_fold.
  - intros active Ha d x. rewrite (ActiveFacts.active_fold_Some _ _ Ha).
    split; intros (es & latest & H & Hr); exists es, latest;
      (split; [now apply elem_of_map_to_list|exact Hr]).
Qed.

(** Property X13.
    [main] ends with exit code 1 after the history is saved exactly when
    some delegator of the history has an empty array. *)
Theorem main_fails_iff_empty_array (h : Ledger.History)
    (totalCurationHive : Q) (cutoff : Z) (today : string) (fund shares : Q) :
  Allocation.main_summary h totalCurationHive cutoff today fund shares = Exit 1 <->
  exists delegator, h !! delegator = Some [].
Proof.
  rewrite <- ActiveFacts.getActiveDelegators_None.
  unfold Allocation.main_summary.
  destruct (Allocation.getActiveDelegators h) as [active|]; [|now split].
  split; [|discriminate].
  destruct (Nat.eqb (length active) 0); [discriminate|].
  destruct (Eligibility.eligibleDelegators h cutoff fund shares) as [l t].
  destruct (Qeq_bool t 0); discriminate.
Qed.

(** Property X14.
    An empty array comes from a first delegation that is no change: when a
    delegator who is not in the history delegates a total within epsilon of
    0, the merge stores an empty array for them, and [main] ends with exit
    code 1. *)
Theorem empty_first_delegation_fails (ACCOUNT : string) (h : Ledger.History)
    (index timestamp : Z) (delegator : string) (vesting_shares : Q)
    (fund shares totalCurationHive : Q) (cutoff : Z) (today : string) :
  h !! delegator = None ->
  Math_abs vesting_shares <= Ledger.epsilon ->
  let merged :=
    Ledger.mergeNewDelegationEvents ACCOUNT h
      [(index, {| Ledger.op_timestamp := timestamp;
                  Ledger.op := Ledger.delegate_vesting_shares delegator ACCOUNT
                                 vesting_shares |})] fund shares in
  merged !! delegator = Some [] /\
  Allocation.main_summary merged totalCurationHive cutoff today fund shares = Exit 1.
Proof.
  intros Hd Hv merged.
  assert (Hm : merged !! delegator = Some []).
  { unfold merged, Ledger.mergeNewDelegationEvents. cbn [fold_left].
    unfold Ledger.merge_step. cbn [snd Ledger.op Ledger.op_timestamp].
    rewrite String.eqb_refl, LedgerFacts.push_delta_lookup.
    rewrite decide_True by reflexivity. rewrite Hd. cbv zeta.
    change (default [] None) with (@nil Ledger.Entry).
    assert (E : gtb (Math_abs (vesting_shares - Ledger.previousTotal [])) Ledger.epsilon
                = false).
    { apply gtb_false. unfold Ledger.previousTotal. cbn [last].
      unfold Math_abs in *.
      assert (E0 : vesting_shares - 0 == vesting_shares) by ring.
      now rewrite E0. }
    now rewrite E. }
  split; [exact Hm|].
  unfold Allocation.main_summary.
  destruct (Allocation.getActiveDelegators merged) as [active|] eqn:Ea; [|reflexivity].
  assert (Hn : Allocation.getActiveDelegators merged = None)
    by (apply ActiveFacts.getActiveDelegators_None; now exists delegator).
  congruence.
Qed.

Lemma empty_first_delegation_fails_witness :
  let merged :=
    Ledger.mergeNewDelegationEvents "bayanihive" ∅
      [(7%Z, {| Ledger.op_timestamp := 1700000000000;
                Ledger.op := Ledger.delegate_vesting_shares "erin" "bayanihive" 0 |})]
      1 2000 in
  merged !! "erin"%string = Some [] /\
  Allocation.main_summary merged 10 1700000000000 Scenario.today 1 2000 = Exit 1.
Proof.
  apply (empty_first_delegation_fails "bayanihive" ∅ 7 1700000000000 "erin" 0
           1 2000 10 1700000000000 Scenario.today).
  - apply lookup_empty.
  - discriminate.
Defined.

(** ** Allocation, continued *)

Module AllocationShape.
Import Allocation.

Lemma by_hp_desc_total a b : by_hp_desc a b = false -> by_hp_desc b a = true.
Proof.
  unfold by_hp_desc. intros H. apply (geb_false a.2 b.2) in H.
  apply Qle_bool_iff. lra.
Qed.

Lemma by_hp_desc_trans a b c :
  by_hp_desc a b = true -> by_hp_desc b c = true -> by_hp_desc a c = true.
Proof.
  unfold by_hp_desc. rewrite !Qle_bool_iff. intros H1 H2. lra.
Qed.

Lemma sortedDelegators_sorted stakes :
  StronglySorted (fun a b => by_hp_desc a b = true) (sortedDelegators stakes).
Proof.
  apply OrderFacts.stable_sort_StronglySorted.
  - exact by_hp_desc_total.
  - exact by_hp_desc_trans.
Qed.

Lemma share_mono D total x y :
  0 <= D -> 0 < total -> x <= y -> D * (x / total) <= D * (y / total).
Proof.
  intros HD Ht Hxy.
  assert (H : x / total <= y / total).
  { unfold Qdiv. apply Qmult_le_compat_r; [exact Hxy|].
    apply Qlt_le_weak, Qinv_lt_0_compat, Ht. }
  assert (E : D * (y / total) - D * (x / total) == D * (y / total - x / total)) by ring.
  assert (0 <= D * (y / total - x / total)) by (apply Qmult_le_0_compat; lra).
  lra.
Qed.

Lemma baseReward_mono D total x y :
  0 <= D -> 0 < total -> x <= y -> baseReward D total x <= baseReward D total y.
Proof.
  intros HD Ht Hxy. unfold baseReward. cbv zeta.
  apply RoundingFacts.toFixed_mono. now apply share_mono.
Qed.

Lemma baseReward_bounds D total x :
  0 <= D -> 0 < total -> 0 <= x -> x <= total ->
  0 <= baseReward D total x /\ baseReward D total x <= toFixed 6 D.
Proof.
  intros HD Ht H0 H1. unfold baseReward. cbv zeta. split.
  - apply toFixed_nonneg.
    assert (E : D * (0 / total) == 0) by (unfold Qdiv; ring).
    rewrite <- E. now apply share_mono.
  - apply RoundingFacts.toFixed_mono.
    assert (E : D * (total / total) == D) by (field; lra).
    rewrite <- E at 2. now apply share_mono.
Qed.

Lemma sum_member_le (l : list (string * Q)) kv :
  Forall (fun kv => 0 < kv.2) l -> kv ∈ l -> kv.2 <= sum (map snd l).
Proof.
  induction 1 as [|kv' l Hkv Hl IH]; intros Hin; [now apply elem_of_nil in Hin|].
  cbn [map]. rewrite sum_cons.
  assert (Hnn : 0 <= sum (map snd l)).
  { clear -Hl. induction Hl as [|kv' l Hkv _ IH];
      [change (sum (map snd [])) with 0; lra|].
    cbn [map]. rewrite sum_cons. lra. }
  apply elem_of_cons in Hin as [->|Hin]; [lra|].
  specialize (IH Hin). lra.
Qed.

End AllocationShape.

(** Property X15.
    The delegators of the summary are listed by stake, largest first, and
    rewards follow stakes: further down the list neither the HP nor the
    reward gets larger. *)
Theorem allocate_sorted_by_stake (stakes : list (string * Q)) (total D : Q) :
  0 <= D -> 0 < total ->
  StronglySorted
    (fun a b => Allocation.dd_hp b <= Allocation.dd_hp a /\
                Allocation.base_reward b <= Allocation.base_reward a)
    (Allocation.allocate stakes total D).
Proof.
  intros HD Ht. unfold Allocation.allocate.
  eapply OrderFacts.StronglySorted_map;
    [|apply AllocationShape.sortedDelegators_sorted].
  intros [n1 h1] [n2 h2] H. unfold Allocation.by_hp_desc in H.
  apply Qle_bool_iff in H. cbn [snd] in H.
  cbn [Allocation.dd_hp Allocation.base_reward]. split.
  - now apply RoundingFacts.toFixed_mono.
  - now apply AllocationShape.baseReward_mono.
Qed.

Lemma allocate_sorted_by_stake_witness :
  StronglySorted
    (fun a b => Allocation.dd_hp b <= Allocation.dd_hp a /\
                Allocation.base_reward b <= Allocation.base_reward a)
    (Allocation.allocate [("alice"%string, 1); ("bob"%string, 3)] 4 10).
Proof.
  apply (allocate_sorted_by_stake [("alice"%string, 1); ("bob"%string, 3)] 4 10).
  - discriminate.
  - reflexivity.
Defined.

(** Property X16.
    In the summary that [main] writes, every delegator appears once, and
    every reward lies between 0 and the distributable amount of the
    summary. *)
Theorem summary_rewards_within_pool (h : Ledger.History)
    (totalCurationHive : Q) (cutoff : Z) (today : string) (fund shares : Q)
    (s : Allocation.PayoutSummary) :
  0 <= totalCurationHive -> 0 < fund -> 0 < shares ->
  Allocation.main_summary h totalCurationHive cutoff today fund shares = Done s ->
  NoDup (map Allocation.name (Allocation.delegators s)) /\
  Forall (fun r => 0 <= Allocation.base_reward r /\
                   Allocation.base_reward r <= Allocation.distributable_hive s)
         (Allocation.delegators s).
Proof.
  intros Hc Hf Hs. unfold Allocation.main_summary.
  destruct (Allocation.getActiveDelegators h) as [active|]; [|discriminate].
  destruct (Nat.eqb (length active) 0); [discriminate|].
  pose proof (AllocationFacts.eligibleDelegators_total h cutoff fund shares) as [Ht Hpos].
  pose proof (EligibilityShape.eligible_names_NoDup h cutoff fund shares) as Hnd.
  destruct (Eligibility.eligibleDelegators h cutoff fund shares) as [l t].
  cbn [fst snd] in Ht, Hpos, Hnd. specialize (Hpos Hf Hs).
  destruct (Qeq_bool t 0) eqn:E; [discriminate|].
  intros [= <-]. cbn [Allocation.delegators Allocation.distributable_hive].
  pose proof (SortFacts.stable_sort_Permutation Allocation.by_hp_desc l) as HP.
  assert (HD : 0 <= totalCurationHive * (95 # 100)) by (apply Qmult_le_0_compat; lra).
  assert (Hl : l <> []).
  { intros ->. apply Qeq_bool_neq in E. apply E. rewrite Ht. reflexivity. }
  assert (Htp : 0 < t).
  { rewrite Ht. now apply AllocationFacts.sum_positive. }
  unfold Allocation.allocate, Allocation.sortedDelegators. split.
  - rewrite map_map.
    rewrite (map_ext _ fst) by (now intros [k x]).
    assert (HP' : map fst (Ledger.stable_sort Allocation.by_hp_desc l) ≡ₚ map fst l)
      by apply Permutation_map, HP.
    now rewrite HP'.
  - apply Forall_map. apply Forall_forall. intros [k x] Hin.
    cbn [Allocation.base_reward].
    assert (Hin' : (k, x) ∈ l) by (now rewrite <- HP).
    rewrite Forall_forall in Hpos. pose proof (Hpos _ Hin') as Hx. cbn [snd] in Hx.
    apply AllocationShape.baseReward_bounds; [exact HD|exact Htp|lra|].
    rewrite Ht. apply (AllocationShape.sum_member_le l (k, x)); [|exact Hin'].
    now apply Forall_forall.
Qed.

Lemma summary_rewards_within_pool_witness :
  let h := Ledger.buildDelegationHistory "bayanihive" Scenario.raw_two_events 1 2000 in
  exists s,
    Allocation.main_summary h 10 1800000000000 Scenario.today 1 2000 = Done s /\
    length (Allocation.delegators s) = 2%nat /\
    NoDup (map Allocation.name (Allocation.delegators s)) /\
    Forall (fun r => 0 <= Allocation.base_reward r /\
                     Allocation.base_reward r <= Allocation.distributable_hive s)
           (Allocation.delegators s).
Proof.
  intros h.
  destruct (Allocation.main_summary h 10 1800000000000 Scenario.today 1 2000)
    as [c| |s] eqn:E; [vm_compute in E; discriminate| vm_compute in E; discriminate|].
  exists s. split; [reflexivity|].
  split; [vm_compute in E; injection E as <-; reflexivity|].
  apply (summary_rewards_within_pool h 10 1800000000000 Scenario.today 1 2000 s).
  - discriminate.
  - reflexivity.
  - reflexivity.
  - exact E.
Defined.

(** ** Merging a batch a second time *)

Module RemergeFacts.
Import Ledger Observe LedgerFacts.





End RemergeFacts.



(** ** Curation rewards *)

Module CurationFacts.
Import Ledger FetchDelegators.

Lemma claimed_step_counted fromTime toTime total row :
  claimed_step fromTime toTime total row =
  if counted fromTime toTime row then total + reward_vests_of row else total.
Proof.
  unfold claimed_step, counted, reward_vests_of. cbv zeta.
  destruct (op row.2) as [? ? ?|rv|?]; try reflexivity.
  destruct ((fromTime <=? op_timestamp row.2)%Z && (op_timestamp row.2 <? toTime)%Z);
    [|reflexivity].
  cbn [andb]. destruct (gtb rv 0); reflexivity.
Qed.

Lemma claimed_fold fromTime toTime raw total :
  fold_left (claimed_step fromTime toTime) raw total ==
  total + sum (map reward_vests_of (List.filter (counted fromTime toTime) raw)).
Proof.
  revert total. induction raw as [|row raw IH]; intros total.
  - cbn [fold_left List.filter map]. change (sum []) with 0. ring.
  - cbn [fold_left List.filter]. rewrite IH, claimed_step_counted.
    destruct (counted fromTime toTime row).
    + cbn [map]. rewrite sum_cons. ring.
    + reflexivity.
Qed.

Lemma counted_positive fromTime toTime raw :
  0 <= sum (map reward_vests_of (List.filter (counted fromTime toTime) raw)).
Proof.
  induction raw as [|row raw IH]; [change (sum (map _ _)) with 0; lra|].
  cbn [List.filter]. destruct (counted fromTime toTime row) eqn:E; [|exact IH].
  cbn [map]. rewrite sum_cons.
  assert (0 < reward_vests_of row); [|lra].
  unfold counted, reward_vests_of in *.
  destruct (op row.2) as [? ? ?|rv|?]; try discriminate.
  apply andb_prop in E as [_ E]. now apply gtb_true in E.
Qed.

End CurationFacts.

(** Property X18.
    [getCurationRewards] converts to HIVE the sum of the claims it counts:
    the [claim_reward_balance] operations dated inside the window, its
    start included and its end excluded, with a positive amount.  Other
    operations play no part, the result is additive over a history cut in
    two, and it is never negative at a positive conversion rate. *)
Theorem getCurationRewards_counts_the_window (rawHistory more : Ledger.RawHistory)
    (fromTime toTime : Z) (fund shares : Q) :
  let rewards h := FetchDelegators.getCurationRewards h fromTime toTime fund shares in
  rewards rawHistory ==
    Ledger.vestsToHP
      (sum (map FetchDelegators.reward_vests_of
              (List.filter (FetchDelegators.counted fromTime toTime) rawHistory)))
      fund shares /\
  rewards (List.filter (FetchDelegators.counted fromTime toTime) rawHistory)
    == rewards rawHistory /\
  rewards (rawHistory ++ more) == rewards rawHistory + rewards more /\
  (0 <= fund -> 0 < shares -> 0 <= rewards rawHistory).
Proof.
  cbv zeta. unfold FetchDelegators.getCurationRewards. cbv zeta.
  unfold Ledger.vestsToHP.
  assert (Hd : forall a b : Q, a == b -> a * fund / shares == b * fund / shares).
  { intros a b E. now rewrite E. }
  assert (Hf : forall raw,
    fold_left (FetchDelegators.claimed_step fromTime toTime) raw 0 ==
    sum (map FetchDelegators.reward_vests_of
           (List.filter (FetchDelegators.counted fromTime toTime) raw))).
  { intros raw. rewrite CurationFacts.claimed_fold. ring. }
  split; [apply Hd, Hf|]. split; [|split].
  - apply Hd. rewrite !Hf.
    assert (E : List.filter (FetchDelegators.counted fromTime toTime)
                  (List.filter (FetchDelegators.counted fromTime toTime) rawHistory) =
                List.filter (FetchDelegators.counted fromTime toTime) rawHistory).
    { induction rawHistory as [|row raw IH]; [reflexivity|].
      cbn [List.filter].
      destruct (FetchDelegators.counted fromTime toTime row) eqn:E; [|exact IH].
      cbn [List.filter]. rewrite E. now f_equal. }
    now rewrite E.
  - rewrite fold_left_app, CurationFacts.claimed_fold, !Hf.
    unfold Qdiv. ring.
  - intros H0 Hs. rewrite Hf.
    pose proof (CurationFacts.counted_positive fromTime toTime rawHistory) as Hp.
    apply Qle_shift_div_l; [exact Hs|]. rewrite Qmult_0_l.
    now apply Qmult_le_0_compat.
Qed.

(** ** The incremental sync *)

Module SyncFacts.
Import Ledger Sync.

Lemma by_index_total a b : by_index a b = false -> by_index b a = true.
Proof. unfold by_index. intros H. apply Z.leb_gt in H. apply Z.leb_le. lia. Qed.

Lemma by_index_trans a b c :
  by_index a b = true -> by_index b c = true -> by_index a c = true.
Proof. unfold by_index. rewrite !Z.leb_le. lia. Qed.

Lemma sorted_by_index ops :
  StronglySorted (fun a b => by_index a b = true) (stable_sort by_index ops).
Proof.
  apply OrderFacts.stable_sort_StronglySorted;
    [exact by_index_total|exact by_index_trans].
Qed.

(** What [dedupe] keeps: rows of the input, none with a seen index, and in
    strictly increasing order when the input is in increasing order. *)
Lemma dedupe_spec seen ops :
  StronglySorted (fun a b => by_index a b = true) ops ->
  ascending (dedupe seen ops) /\
  Forall (fun row => row ∈ ops /\ row.1 ∉ seen) (dedupe seen ops).
Proof.
  intros Hs. revert seen.
  induction Hs as [|[idx o] ops Hs IH Hhd]; intros seen; cbn [dedupe].
  - split; constructor.
  - destruct (bool_decide (idx ∈ seen)) eqn:E.
    + destruct (IH seen) as [H1 H2]. split; [exact H1|].
      eapply Forall_impl; [exact H2|]. intros row [Hin Hn]. split; [now right|exact Hn].
    + apply bool_decide_eq_false in E.
      destruct (IH ({[idx]} ∪ seen)) as [H1 H2]. split.
      * constructor; [exact H1|].
        rewrite Forall_forall in H2, Hhd. apply Forall_forall. intros row Hrow.
        destruct (H2 row Hrow) as [Hin Hn]. specialize (Hhd row Hin).
        unfold by_index in Hhd. apply Z.leb_le in Hhd. cbn [fst] in *.
        assert (row.1 <> idx).
        { intros Heq. apply Hn, elem_of_union_l, elem_of_singleton, Heq. }
        lia.
      * constructor; [split; [left|exact E]|].
        eapply Forall_impl; [exact H2|]. intros row [Hin Hn].
        split; [now right|]. intros Hs'. apply Hn, elem_of_union_r, Hs'.
Qed.

Lemma dedupe_ascending seen ops :
  ascending ops -> Forall (fun row => row.1 ∉ seen) ops -> dedupe seen ops = ops.
Proof.
  intros Hs. revert seen.
  induction Hs as [|[idx o] ops Hs IH Hhd]; intros seen Hseen; [reflexivity|].
  cbn [dedupe]. apply Forall_cons in Hseen as [H1 H2]. cbn [fst] in H1.
  rewrite bool_decide_eq_false_2 by exact H1. f_equal. apply IH.
  rewrite Forall_forall in H2, Hhd. apply Forall_forall. intros row Hrow.
  specialize (H2 row Hrow). specialize (Hhd row Hrow). cbn [fst] in Hhd.
  intros [Hx|Hx]%elem_of_union; [apply elem_of_singleton in Hx; lia|now apply H2].
Qed.

(** Two lists with the same rows, one in increasing order and one in
    strictly increasing order, are the same list. *)
Lemma sorted_unique (l1 l2 : RawHistory) :
  StronglySorted (fun a b => by_index a b = true) l1 ->
  ascending l2 -> l1 ≡ₚ l2 -> l1 = l2.
Proof.
  intros H1. revert l2. induction H1 as [|a l1 Hs1 IH Ha]; intros l2 H2 HP.
  - now apply Permutation_nil_l in HP.
  - destruct H2 as [|b l2 Hs2 Hb].
    { now apply Permutation_nil_r in HP. }
    assert (Hab : a = b).
    { assert (Hain : a ∈ b :: l2) by (rewrite <- HP; left).
      assert (Hbin : b ∈ a :: l1) by (rewrite HP; left).
      apply elem_of_cons in Hain as [->|Hain]; [reflexivity|].
      apply elem_of_cons in Hbin as [->|Hbin]; [reflexivity|].
      rewrite Forall_forall in Ha, Hb.
      specialize (Ha b Hbin). specialize (Hb a Hain).
      unfold by_index in Ha. apply Z.leb_le in Ha. lia. }
    subst b. f_equal. apply IH; [exact Hs2|].
    now apply Permutation_cons_inv in HP.
Qed.

Lemma StronglySorted_omap {A B} (f : A -> option B)
    (R : A -> A -> Prop) (S : B -> B -> Prop) l :
  (forall a b a' b', R a b -> f a = Some a' -> f b = Some b' -> S a' b') ->
  StronglySorted R l -> StronglySorted S (omap f l).
Proof.
  intros HRS. induction 1 as [|x l Hl IH Hx]; cbn [omap list_omap]; [constructor|].
  destruct (f x) as [x'|] eqn:Ex; [|exact IH].
  constructor; [exact IH|].
  apply Forall_forall. intros y' Hy'.
  apply list_elem_of_omap in Hy' as (y & Hy & Ey).
  rewrite Forall_forall in Hx. eapply HRS; [apply Hx, Hy|exact Ex|exact Ey].
Qed.

Lemma seqZ_ascending m n : StronglySorted Z.lt (seqZ m n).
Proof.
  remember (Z.to_nat n) as k eqn:Ek. revert m n Ek.
  induction k as [|k IH]; intros m n Ek.
  - rewrite seqZ_nil by lia. constructor.
  - rewrite seqZ_cons by lia. constructor; [apply IH; lia|].
    apply Forall_seqZ. lia.
Qed.

Lemma rows_ascending chain lo hi : ascending (rows chain lo hi).
Proof.
  unfold rows, ascending.
  eapply StronglySorted_omap; [|apply seqZ_ascending].
  intros a b a' b' Hab Ea Eb. cbn beta in *.
  destruct (chain !! Z.to_nat a); [|discriminate].
  destruct (chain !! Z.to_nat b); [|discriminate].
  injection Ea as <-. injection Eb as <-. exact Hab.
Qed.

Lemma rows_elem chain lo hi i o :
  (i, o) ∈ rows chain lo hi <-> (lo < i <= hi)%Z /\ chain !! Z.to_nat i = Some o.
Proof.
  unfold rows. rewrite list_elem_of_omap. split.
  - intros (j & Hj & Ej). apply elem_of_seqZ in Hj.
    destruct (chain !! Z.to_nat j) as [o'|] eqn:El; [|discriminate].
    injection Ej as <- <-. split; [lia|exact El].
  - intros [Hi El]. exists i. split; [apply elem_of_seqZ; lia|]. now rewrite El.
Qed.

Lemma rows_nil chain lo hi : (hi <= lo)%Z -> rows chain lo hi = [].
Proof. intros H. unfold rows. rewrite seqZ_nil by lia. reflexivity. Qed.

Lemma rows_app chain lo mid hi :
  (lo <= mid <= hi)%Z -> rows chain lo hi = rows chain lo mid ++ rows chain mid hi.
Proof.
  intros H. unfold rows.
  replace (hi - lo)%Z with ((mid - lo) + (hi - mid))%Z by lia.
  rewrite seqZ_app by lia. rewrite omap_app.
  do 3 f_equal; lia.
Qed.

Lemma rows_cons chain lo hi o :
  (lo < hi)%Z -> chain !! Z.to_nat (lo + 1) = Some o ->
  rows chain lo hi = (lo + 1, o)%Z :: rows chain (lo + 1) hi.
Proof.
  intros H Ho. unfold rows. rewrite seqZ_cons by lia.
  cbn [omap list_omap]. rewrite Ho. cbn [fmap option_fmap option_map].
  do 3 f_equal; lia.
Qed.

Lemma rows_length chain lo hi :
  (-1 <= lo <= hi)%Z -> (hi < Z.of_nat (length chain))%Z ->
  length (rows chain lo hi) = Z.to_nat (hi - lo).
Proof.
  intros H1 H2.
  remember (Z.to_nat (hi - lo)) as k eqn:Ek. revert lo H1 Ek.
  induction k as [|k IH]; intros lo H1 Ek.
  - rewrite rows_nil by lia. reflexivity.
  - destruct (lookup_lt_is_Some_2 chain (Z.to_nat (lo + 1))) as [o Ho]; [lia|].
    rewrite (rows_cons chain lo hi o) by (lia || exact Ho).
    cbn [length]. f_equal. apply IH; lia.
Qed.

Lemma filter_all {A} (f : A -> bool) l :
  Forall (fun x => f x = true) l -> List.filter f l = l.
Proof.
  induction 1 as [|x l Hx _ IH]; [reflexivity|].
  cbn [List.filter]. now rewrite Hx, IH.
Qed.

Lemma rows_filter chain last lo hi :
  (last <= lo)%Z ->
  List.filter (fun row : Z * Operation => (last <? row.1)%Z) (rows chain lo hi)
  = rows chain lo hi.
Proof.
  intros H. apply filter_all. apply Forall_forall. intros [i o] Hin.
  apply rows_elem in Hin as [Hi _]. cbn [fst]. apply Z.ltb_lt. lia.
Qed.

(** What the node answers to the calls of the script. *)
Lemma node_latest chain :
  chain <> [] ->
  exists o, node chain (-1)%Z 1%Z = Some [((Z.of_nat (length chain) - 1)%Z, o)].
Proof.
  intros Hne. unfold node. cbv zeta.
  assert (Hlen : (0 < length chain)%nat) by (destruct chain; [congruence|cbn; lia]).
  change (-1 <? 0)%Z with true. cbv iota.
  set (latest := (Z.of_nat (length chain) - 1)%Z).
  replace (Z.max (-1) (latest - 1)) with (latest - 1)%Z by lia.
  destruct (lookup_lt_is_Some_2 chain (Z.to_nat (latest - 1 + 1))) as [o Ho];
    [unfold latest; lia|].
  exists o. rewrite (rows_cons chain (latest - 1) latest o) by (lia || exact Ho).
  rewrite rows_nil by lia. do 3 f_equal. lia.
Qed.

Lemma node_batch chain start size :
  (0 <= start < Z.of_nat (length chain))%Z -> (0 <= start - size)%Z ->
  node chain start size = Some (rows chain (start - size) start).
Proof.
  intros H1 H2. unfold node. cbv zeta.
  assert (E : (start <? 0)%Z = false) by (apply Z.ltb_ge; lia).
  rewrite E. do 2 f_equal; lia.
Qed.

(** The loop against the node: it leaves with the rows after [lastIndex] up
    to [start], each once, after what was collected before. *)
Lemma fetch_loop_node chain lastIndex fuel start acc :
  (0 <= lastIndex < start)%Z -> (start < Z.of_nat (length chain))%Z ->
  (Z.to_nat (start - lastIndex) <= fuel)%nat ->
  exists fetched,
    fetch_loop fuel (node chain) lastIndex start acc = Some (Resolved (acc ++ fetched)) /\
    fetched ≡ₚ rows chain lastIndex start.
Proof.
  revert start acc. induction fuel as [|fuel IH]; intros start acc H1 H2 Hf; [lia|].
  cbn [fetch_loop]. cbv zeta.
  set (batchSize := Z.min limit (start - lastIndex)).
  assert (Hb : (1 <= batchSize <= start - lastIndex)%Z) by (unfold batchSize, limit; lia).
  assert (E0 : (batchSize <=? 0)%Z = false) by (apply Z.leb_gt; lia).
  rewrite E0, (node_batch chain start batchSize) by lia.
  pose proof (rows_length chain (start - batchSize) start ltac:(lia) H2) as Hlen.
  pose proof (rows_filter chain lastIndex (start - batchSize) start ltac:(lia)) as Hfil.
  destruct (lookup_lt_is_Some_2 chain (Z.to_nat (start - batchSize + 1))) as [o Ho];
    [lia|].
  pose proof (rows_cons chain (start - batchSize) start o ltac:(lia) Ho) as Hcons.
  destruct (rows chain (start - batchSize) start) as [|[lowest o'] rest] eqn:Er;
    [discriminate|].
  injection Hcons as Hlow _ _. subst lowest.
  rewrite Hfil.
  destruct (start - batchSize + 1 <=? lastIndex + 1)%Z eqn:E1.
  - apply Z.leb_le in E1. assert (Hs : (start - batchSize = lastIndex)%Z) by lia.
    eexists. split; [reflexivity|]. rewrite <- Er, Hs. reflexivity.
  - apply Z.leb_gt in E1.
    assert (E2 : (start - batchSize + 1 - 1 <=? lastIndex)%Z = false)
      by (apply Z.leb_gt; lia).
    rewrite E2.
    assert (E3 : (Z.of_nat (length ((start - batchSize + 1, o')%Z :: rest)) <? batchSize)%Z
                 = false).
    { apply Z.ltb_ge. rewrite Hlen. lia. }
    rewrite E3.
    destruct (IH (start - batchSize + 1 - 1)%Z
                (acc ++ (start - batchSize + 1, o')%Z :: rest)) as (fetched & Hl & HP);
      [lia|lia|unfold batchSize, limit in *; lia|].
    exists (((start - batchSize + 1)%Z, o') :: rest ++ fetched).
    split; [rewrite Hl; now rewrite <- app_assoc|].
    rewrite (rows_app chain lastIndex (start - batchSize) start) by lia.
    rewrite Er. replace (start - batchSize + 1 - 1)%Z with (start - batchSize)%Z in HP by lia.
    rewrite HP. change ((?x :: rest) ++ ?y) with (x :: rest ++ y).
    rewrite (Permutation_app_comm (rows chain lastIndex (start - batchSize))).
    reflexivity.
Qed.

(** Whatever the node answers, the loop only collects rows after
    [lastIndex]. *)
Lemma fetch_loop_after api lastIndex fuel start acc ops :
  Forall (fun row : Z * Operation => (lastIndex < row.1)%Z) acc ->
  fetch_loop fuel api lastIndex start acc = Some (Resolved ops) ->
  Forall (fun row : Z * Operation => (lastIndex < row.1)%Z) ops.
Proof.
  revert start acc. induction fuel as [|fuel IH]; intros start acc Hacc; [discriminate|].
  cbn [fetch_loop]. cbv zeta.
  destruct (Z.min limit (start - lastIndex) <=? 0)%Z; [now intros [= <-]|].
  destruct (api start (Z.min limit (start - lastIndex))) as [[|[lowest o] rest]|];
    [now intros [= <-]| |discriminate].
  set (history := (lowest, o) :: rest).
  assert (Hnew : Forall (fun row : Z * Operation => (lastIndex < row.1)%Z)
                   (acc ++ List.filter (fun row => (lastIndex <? row.1)%Z) history)).
  { apply Forall_app. split; [exact Hacc|].
    apply Forall_forall. intros row Hrow.
    apply list_elem_of_In, filter_In in Hrow as [_ Hrow]. now apply Z.ltb_lt in Hrow. }
  destruct (lowest <=? lastIndex + 1)%Z; [now intros [= <-]|].
  destruct (lowest - 1 <=? lastIndex)%Z; [now intros [= <-]|].
  destruct (Z.of_nat (length history) <? Z.min limit (start - lastIndex))%Z;
    [now intros [= <-]|].
  now apply IH.
Qed.

Lemma sync_hasNew fuel api lastIndex r :
  syncAccountHistory fuel api lastIndex = Some (Resolved r) ->
  hasNew r = (lastIndex <? latestIndex r)%Z.
Proof.
  unfold syncAccountHistory.
  destruct (api (-1)%Z 1%Z) as [[|[latest o] rest]|]; try discriminate.
  destruct (latest <=? lastIndex)%Z eqn:E.
  - intros [= <-]. cbn [hasNew latestIndex]. symmetry. apply Z.ltb_ge. lia.
  - destruct (fetch_loop fuel api lastIndex latest []) as [[|ops]|]; try discriminate.
    intros [= <-]. cbn [hasNew latestIndex]. symmetry. apply Z.ltb_lt. lia.
Qed.

End SyncFacts.

(** Property X19.
    Whatever the node answers, what [syncAccountHistory] returns is in
    strictly increasing order of index, so no index comes twice, and holds
    only rows after [lastIndex]; [hasNew] tells whether the latest index is
    after [lastIndex], and without anything new no operation is returned. *)
Theorem syncAccountHistory_returns_new_rows_in_order (fuel : nat) (api : Sync.Api)
    (lastIndex : Z) (r : Sync.SyncResult) :
  Sync.syncAccountHistory fuel api lastIndex = Some (Sync.Resolved r) ->
  Sync.ascending (Sync.newOperations r) /\
  Forall (fun row => (lastIndex < row.1)%Z) (Sync.newOperations r) /\
  Sync.hasNew r = (lastIndex <? Sync.latestIndex r)%Z /\
  (Sync.hasNew r = false -> Sync.newOperations r = []).
Proof.
  intros Hs. pose proof (SyncFacts.sync_hasNew _ _ _ _ Hs) as Hnew.
  revert Hs. unfold Sync.syncAccountHistory.
  destruct (api (-1)%Z 1%Z) as [[|[latest o] rest]|]; try discriminate.
  destruct (latest <=? lastIndex)%Z eqn:E.
  - intros [= <-]. cbn [Sync.newOperations Sync.hasNew Sync.latestIndex] in *.
    split; [constructor|]. split; [constructor|]. split; [exact Hnew|reflexivity].
  - destruct (Sync.fetch_loop fuel api lastIndex latest []) as [[|ops]|] eqn:El;
      try discriminate.
    intros [= <-]. cbn [Sync.newOperations Sync.hasNew Sync.latestIndex] in *.
    destruct (SyncFacts.dedupe_spec ∅ _ (SyncFacts.sorted_by_index ops)) as [H1 H2].
    split; [exact H1|]. split; [|split; [exact Hnew|discriminate]].
    pose proof (SyncFacts.fetch_loop_after api lastIndex fuel latest [] ops
                  (Forall_nil_2 _) El) as Hafter.
    rewrite Forall_forall in Hafter. apply Forall_forall. intros row Hrow.
    rewrite Forall_forall in H2. destruct (H2 row Hrow) as [Hin _].
    apply Hafter. now rewrite <- (SortFacts.stable_sort_Permutation Sync.by_index ops).
Qed.

Lemma syncAccountHistory_returns_new_rows_in_order_witness :
  exists r,
    Sync.syncAccountHistory 3 (Sync.node (map snd Scenario.raw_two_events)) 0
      = Some (Sync.Resolved r) /\
    map fst (Sync.newOperations r) = [1%Z; 2%Z] /\
    Sync.ascending (Sync.newOperations r) /\
    Forall (fun row => (0 < row.1)%Z) (Sync.newOperations r) /\
    Sync.hasNew r = (0 <? Sync.latestIndex r)%Z /\
    (Sync.hasNew r = false -> Sync.newOperations r = []).
Proof.
  destruct (Sync.syncAccountHistory 3 (Sync.node (map snd Scenario.raw_two_events)) 0)
    as [[|r]|] eqn:E; [vm_compute in E; discriminate| |vm_compute in E; discriminate].
  exists r. split; [reflexivity|].
  split; [vm_compute in E; injection E as <-; reflexivity|].
  apply (syncAccountHistory_returns_new_rows_in_order 3
           (Sync.node (map snd Scenario.raw_two_events)) 0 r E).
Defined.

(** Property X20.
    Against a node that serves the account history in batches, the sync
    terminates and returns exactly the operations numbered after
    [lastIndex] up to the latest one, oldest first, each once, however many
    batches it takes. *)
Theorem syncAccountHistory_fetches_every_new_row (chain : list Ledger.Operation)
    (lastIndex : Z) (fuel : nat) :
  chain <> [] -> (0 <= lastIndex)%Z ->
  let latest := (Z.of_nat (length chain) - 1)%Z in
  (Z.to_nat (latest - lastIndex) <= fuel)%nat ->
  Sync.syncAccountHistory fuel (Sync.node chain) lastIndex =
    Some (Sync.Resolved
            {| Sync.newOperations := Sync.rows chain lastIndex latest;
               Sync.latestIndex := latest;
               Sync.hasNew := (lastIndex <? latest)%Z |}).
Proof.
  intros Hne H0 latest Hf. unfold Sync.syncAccountHistory.
  destruct (SyncFacts.node_latest chain Hne) as [o ->]. fold latest.
  destruct (latest <=? lastIndex)%Z eqn:E.
  - apply Z.leb_le in E. rewrite SyncFacts.rows_nil by lia.
    do 3 f_equal. symmetry. apply Z.ltb_ge. lia.
  - apply Z.leb_gt in E.
    destruct (SyncFacts.fetch_loop_node chain lastIndex fuel latest [])
      as (fetched & -> & HP); [lia|unfold latest; lia|exact Hf|].
    cbn [app].
    assert (Hs : Ledger.stable_sort Sync.by_index fetched = Sync.rows chain lastIndex latest).
    { apply SyncFacts.sorted_unique.
      - apply SyncFacts.sorted_by_index.
      - apply SyncFacts.rows_ascending.
      - now rewrite SortFacts.stable_sort_Permutation. }
    rewrite Hs, SyncFacts.dedupe_ascending.
    + do 3 f_equal. symmetry. apply Z.ltb_lt. lia.
    + apply SyncFacts.rows_ascending.
    + apply Forall_forall. intros row _. apply not_elem_of_empty.
Qed.

Lemma syncAccountHistory_fetches_every_new_row_witness :
  Sync.syncAccountHistory 2 (Sync.node (map snd Scenario.raw_two_events)) 0 =
    Some (Sync.Resolved
            {| Sync.newOperations := Sync.rows (map snd Scenario.raw_two_events) 0 2;
               Sync.latestIndex := 2;
               Sync.hasNew := true |}).
Proof.
  apply (syncAccountHistory_fetches_every_new_row (map snd Scenario.raw_two_events) 0 2).
  - discriminate.
  - lia.
  - vm_compute. lia.
Defined.

(** ** [main] and the checkpoint *)

Module MainFacts.
Import Ledger Sync FetchDelegators.

Lemma summary_not_empty h c cutoff today fund shares s :
  Allocation.main_summary h c cutoff today fund shares = Done s ->
  Allocation.delegators s <> [].
Proof.
  intros H Hn.
  apply (main_summary_has_delegators h c cutoff today fund shares s H).
  unfold FetchRewards.written. cbn [FetchRewards.raw_delegators]. now rewrite Hn.
Qed.

End MainFacts.

(** Property X21.
    [main] moves the checkpoint of the sync as its last step and only when
    it ends with code 0: a run that fails leaves the checkpoint where it
    was.  When the checkpoint moves, it moves forward, the delegation
    history was written first, and a payout summary, when there is one, has
    delegators and is written before the checkpoint moves. *)
Theorem checkpoint_moves_last_and_on_success (ACCOUNT : string) (fuel : nat)
    (w : FetchDelegators.World) (effects : list FetchDelegators.Effect)
    (out : Outcome unit) :
  FetchDelegators.main ACCOUNT fuel w = Some (effects, out) ->
  (exit_code out <> 0%Z ->
     Forall (fun e => FetchDelegators.is_update e = false) effects) /\
  (forall k index,
     effects !! k = Some (FetchDelegators.UpdateLastIndex index) ->
     S k = length effects /\ exit_code out = 0%Z /\
     (Sync.getLastIndex (FetchDelegators.sync_state_row w) < index)%Z /\
     exists h, effects !! 0%nat = Some (FetchDelegators.Write_delegation_history h)) /\
  (forall s,
     FetchDelegators.Save_payout_summary s ∈ effects ->
     Allocation.delegators s <> [] /\
     exists index, last effects = Some (FetchDelegators.UpdateLastIndex index)).
Proof.
  unfold FetchDelegators.main. cbv zeta.
  set (lastIndex := Sync.getLastIndex (FetchDelegators.sync_state_row w)).
  assert (Hnone : forall code : Z,
    (exit_code (@Exit unit code) <> 0%Z ->
       Forall (fun e => FetchDelegators.is_update e = false) []) /\
    (forall k index,
       @nil FetchDelegators.Effect !! k = Some (FetchDelegators.UpdateLastIndex index) ->
       S k = length (@nil FetchDelegators.Effect) /\ exit_code (@Exit unit code) = 0%Z /\
       (lastIndex < index)%Z /\
       exists h, @nil FetchDelegators.Effect !! 0%nat =
                 Some (FetchDelegators.Write_delegation_history h)) /\
    (forall s,
       FetchDelegators.Save_payout_summary s ∈ @nil FetchDelegators.Effect ->
       Allocation.delegators s <> [] /\
       exists index, last (@nil FetchDelegators.Effect) =
                     Some (FetchDelegators.UpdateLastIndex index))).
  { intros code. split; [constructor|]. split.
    - intros k index H. destruct k; discriminate.
    - intros s H. now apply elem_of_nil in H. }
  destruct (negb (FetchDelegators.node_answers w)); [intros [= <- <-]; apply Hnone|].
  destruct (negb (FetchDelegators.account_found w)); [intros [= <- <-]; apply Hnone|].
  destruct (FetchDelegators.global_props w) as [[fund shares]|];
    [|intros [= <- <-]; apply Hnone].
  destruct (Sync.syncAccountHistory fuel (FetchDelegators.api w) lastIndex)
    as [[|r]|] eqn:Es; [intros [= <- <-]; apply Hnone| |discriminate].
  pose proof (SyncFacts.sync_hasNew _ _ _ _ Es) as Hnew.
  destruct (Sync.hasNew r) eqn:En; cbn [negb].
  2:{ intros [= <- <-]. split; [constructor|]. split.
      - intros k index H. destruct k; discriminate.
      - intros s H. now apply elem_of_nil in H. }
  symmetry in Hnew. apply Z.ltb_lt in Hnew.
  match goal with
  | |- match ?x with _ => _ end = _ -> _ => destruct x as [h|]
  end; [|intros [= <- <-]; apply Hnone].
  destruct (Allocation.main_summary h _ _ _ fund shares) as [code| |s] eqn:Em.
  - destruct (code =? 0)%Z eqn:Ec; intros [= <- <-].
    + split; [intros H; now contradiction H|]. split.
      * intros k index H. destruct k as [|[|k]]; try discriminate.
        injection H as <-. split; [reflexivity|]. split; [reflexivity|].
        split; [exact Hnew|]. now exists h.
      * intros s H. apply elem_of_cons in H as [H|H]; [discriminate|].
        apply elem_of_cons in H as [H|H]; [discriminate|]. now apply elem_of_nil in H.
    + apply Z.eqb_neq in Ec. split; [intros _; repeat constructor|]. split.
      * intros k index H. destruct k as [|[|k]]; discriminate.
      * intros s H. apply elem_of_cons in H as [H|H]; [discriminate|].
        now apply elem_of_nil in H.
  - intros [= <- <-]. split; [intros _; repeat constructor|]. split.
    + intros k index H. destruct k as [|[|k]]; discriminate.
    + intros s H. apply elem_of_cons in H as [H|H]; [discriminate|].
      now apply elem_of_nil in H.
  - intros [= <- <-]. split; [intros H; now contradiction H|]. split.
    + intros k index H. destruct k as [|[|[|k]]]; try discriminate.
      injection H as <-. split; [reflexivity|]. split; [reflexivity|].
      split; [exact Hnew|]. now exists h.
    + intros s' H. apply elem_of_cons in H as [H|H]; [discriminate|].
      apply elem_of_cons in H as [H|H].
      * injection H as ->. split; [|now eexists].
        eapply MainFacts.summary_not_empty, Em.
      * apply elem_of_cons in H as [H|H]; [discriminate|]. now apply elem_of_nil in H.
Qed.

Lemma checkpoint_moves_last_and_on_success_witness :
  exists h s,
    FetchDelegators.main "bayanihive" 10 Account.first_run =
      Some ([FetchDelegators.Write_delegation_history h;
             FetchDelegators.Save_payout_summary s;
             FetchDelegators.UpdateLastIndex 4], Done tt) /\
    Allocation.total_curation_hive s == 2 /\
    (forall k index,
       [FetchDelegators.Write_delegation_history h;
        FetchDelegators.Save_payout_summary s;
        FetchDelegators.UpdateLastIndex 4] !! k
         = Some (FetchDelegators.UpdateLastIndex index) ->
       S k = 3%nat /\ exit_code (Done tt) = 0%Z /\ (0 < index)%Z /\
       exists h', [FetchDelegators.Write_delegation_history h;
                   FetchDelegators.Save_payout_summary s;
                   FetchDelegators.UpdateLastIndex 4] !! 0%nat
                  = Some (FetchDelegators.Write_delegation_history h')).
Proof.
  destruct (FetchDelegators.main "bayanihive" 10 Account.first_run)
    as [[effects out]|] eqn:E; [|vm_compute in E; discriminate].
  pose proof (checkpoint_moves_last_and_on_success "bayanihive" 10
                Account.first_run effects out E) as (_ & H & _).
  vm_compute in E. injection E as <- <-.
  eexists _, _. refine (conj _ (conj _ H)).
  - reflexivity.
  - reflexivity.
Defined.

(** ** The payout executor, continued *)

Module PayoutShape.
Import SendSBI Observe SendSBIFacts PayoutNotions Accumulator StageFacts.

(** The retry loop: at most [remaining] calls, one per effect, a confirmed
    call is the last one, and the node index stays inside [HIVE_NODES]. *)
Lemma try_transfer_discipline remaining env d n :
  let '(success, n', effs) := try_transfer remaining env d n in
  (length effs <= remaining)%nat /\
  calls n' = (calls n + length effs)%nat /\
  (forall k e, effs !! k = Some e -> is_confirmed_for d e = true -> S k = length effs) /\
  (success = true <-> exists e, last effs = Some e /\ is_confirmed_for d e = true) /\
  (success = false -> length effs = remaining) /\
  ((currentNodeIndex n < length HIVE_NODES)%nat ->
   (currentNodeIndex n' < length HIVE_NODES)%nat).
Proof.
  revert n. induction remaining as [|remaining IH]; intros n.
  - cbn [try_transfer length]. split; [lia|]. split; [lia|].
    split; [intros k e H; destruct k; discriminate|].
    split; [split; [discriminate|intros (e & H & _); discriminate]|].
    split; [reflexivity|trivial].
  - cbn [try_transfer]. cbv zeta.
    destruct (outcome n (calls n)) eqn:Eo.
    + cbn [length calls currentNodeIndex]. split; [lia|]. split; [lia|].
      split; [|split; [|split; [discriminate|trivial]]].
      * intros k e H Hc. destruct k as [|k]; [reflexivity|]. destruct k; discriminate.
      * split; [|reflexivity]. intros _. eexists. split; [reflexivity|].
        cbn. now rewrite eqb_refl_true.
    + set (n1 := {| outcome := outcome n; calls := S (calls n);
                    currentNodeIndex := currentNodeIndex n |}).
      set (n2 := match remaining with O => n1 | S _ => setNextNode n1 end).
      specialize (IH n2).
      destruct (try_transfer remaining env d n2) as [[success n'] effs].
      destruct IH as (H1 & H2 & H3 & H4 & H5 & H6).
      assert (Hc2 : calls n2 = S (calls n)) by (unfold n2; destruct remaining; reflexivity).
      cbn [length]. split; [lia|]. split; [lia|]. split; [|split; [|split]].
      * intros k e H Hc. destruct k as [|k].
        -- injection H as <-. cbn in Hc. rewrite andb_false_r in Hc. discriminate.
        -- cbn [lookup list_lookup] in H. f_equal. now apply (H3 k e).
      * rewrite H4. split.
        -- intros (e & Hl & Hc). exists e. split; [|exact Hc].
           destruct effs; [discriminate|exact Hl].
        -- intros (e & Hl & Hc). exists e. split; [|exact Hc].
           destruct effs as [|e' effs]; [|exact Hl].
           injection Hl as <-. cbn in Hc. rewrite andb_false_r in Hc. discriminate.
      * intros Hs. now rewrite (H5 Hs).
      * intros Hn. apply H6. unfold n2. destruct remaining; [exact Hn|].
        cbn [setNextNode currentNodeIndex]. apply Nat.mod_upper_bound. discriminate.
Qed.

(** With [sendSBI] refused for want of a key, the loop over the balances
    changes nothing and does nothing. *)
Lemma payout_entries_no_key env today excluded entries n :
  IS_DRY_RUN env = false -> ACTIVE_KEY env = ""%string ->
  payout_entries env today excluded entries n =
    Some {| value := entries; pushed := []; net := n; effects := [] |}.
Proof.
  intros Hd Hk. induction entries as [|[d data] entries IH]; [reflexivity|].
  cbn [payout_entries].
  assert (He : payout_entry env today excluded d data n =
               Some {| value := data; pushed := []; net := n; effects := [] |}).
  { unfold payout_entry. destruct (String.eqb d "_meta"); [reflexivity|].
    destruct (is_excluded excluded d); [reflexivity|].
    unfold fuel_for. cbn [payout_loop].
    destruct (geb (balance data) SBI_CHUNK); [|reflexivity].
    unfold sendSBI. now rewrite Hd, Hk. }
  rewrite He. cbn [net]. rewrite IH. reflexivity.
Qed.

(** When every attempt succeeds, the loop of one delegator goes on as long
    as the balance holds a chunk. *)
Lemma payout_loop_all fuel env today d data n r :
  always_succeeds env n ->
  payout_loop fuel env today d data n = Some r ->
  exists k,
    value r = Nat.iter k (confirm today) data /\
    confirmed_for d (effects r) = k /\
    attempts_for d (effects r) = k /\
    balance (value r) < SBI_CHUNK /\
    (forall j, (j < k)%nat -> SBI_CHUNK <= balance (Nat.iter j (confirm today) data)).
Proof.
  revert data n r. induction fuel as [|fuel IH]; intros data n r Hall; [discriminate|].
  cbn [payout_loop]. destruct (geb (balance data) SBI_CHUNK) eqn:Eb.
  - destruct (sendSBI_always env d n Hall) as (n' & e & -> & He & Hall').
    destruct (payout_loop fuel env today d (confirm today data) n') as [r'|] eqn:Hr';
      [|discriminate].
    intros [= <-]. destruct (IH _ _ _ Hall' Hr') as (k & Hv & Hc & Ha & Hb & Hg).
    exists (S k). cbn [value effects].
    assert (Hat : is_attempt_for d e = true).
    { destruct e; cbn in He |- *; try discriminate.
      - now apply andb_prop in He as [He _].
      - exact He. }
    split; [now rewrite Nat.iter_succ_r|].
    unfold confirmed_for, attempts_for in *. cbn [app].
    rewrite !count_cons, He, Hat, Hc, Ha.
    split; [reflexivity|]. split; [reflexivity|]. split; [exact Hb|].
    intros j Hj. destruct j as [|j]; [now apply geb_true in Eb|].
    rewrite Nat.iter_succ_r. apply Hg. lia.
  - intros [= <-]. exists 0%nat. cbn [value effects].
    split; [reflexivity|]. split; [reflexivity|]. split; [reflexivity|].
    split; [now apply geb_false in Eb|]. intros j Hj. lia.
Qed.

(** The number of chunks in a non-negative amount. *)
Lemma chunks_floor (b : Q) (k : nat) :
  0 <= b ->
  b - inject_Z (Z.of_nat k) < 1 ->
  (forall j, (j < k)%nat -> 1 <= b - inject_Z (Z.of_nat j)) ->
  Z.of_nat k = Qfloor b.
Proof.
  intros H0 Hlt Hge.
  assert (Hk : inject_Z (Z.of_nat k) <= b).
  { destruct k as [|k]; [exact H0|].
    specialize (Hge k (Nat.lt_succ_diag_r k)).
    rewrite Nat2Z.inj_succ, <- Z.add_1_r, inject_Z_plus.
    change (inject_Z 1) with 1. lra. }
  apply Qfloor_resp_le in Hk. rewrite Qfloor_Z in Hk.
  pose proof (Qfloor_le b) as Hf.
  assert (Hu : inject_Z (Qfloor b) < inject_Z (Z.of_nat k + 1)).
  { rewrite inject_Z_plus. change (inject_Z 1) with 1. lra. }
  rewrite <- Zlt_Qlt in Hu. lia.
Qed.

(** In a dry run nothing is broadcast and the nodes are not called. *)
Lemma payout_loop_dry fuel env today d data n r :
  IS_DRY_RUN env = true ->
  payout_loop fuel env today d data n = Some r ->
  net r = n /\ Forall (fun e => is_broadcast e = false) (effects r).
Proof.
  intros Hd. revert data r. induction fuel as [|fuel IH]; intros data r; [discriminate|].
  cbn [payout_loop]. destruct (geb (balance data) SBI_CHUNK).
  - unfold sendSBI. rewrite Hd.
    destruct (payout_loop fuel env today d (confirm today data) n) as [r'|] eqn:Hr';
      [|discriminate].
    intros [= <-]. destruct (IH _ _ Hr') as [H1 H2]. cbn [net effects].
    split; [exact H1|]. constructor; [reflexivity|exact H2].
  - intros [= <-]. split; [reflexivity|constructor].
Qed.

Lemma payout_entries_dry env today excluded entries n r :
  IS_DRY_RUN env = true ->
  payout_entries env today excluded entries n = Some r ->
  net r = n /\ Forall (fun e => is_broadcast e = false) (effects r).
Proof.
  intros Hd. revert r. induction entries as [|[d data] entries IH]; intros r.
  - intros [= <-]. split; [reflexivity|constructor].
  - cbn [payout_entries].
    destruct (payout_entry env today excluded d data n) as [r1|] eqn:H1; [|discriminate].
    assert (Hr1 : net r1 = n /\ Forall (fun e => is_broadcast e = false) (effects r1)).
    { unfold payout_entry in H1. destruct (String.eqb d "_meta").
      - injection H1 as <-. split; [reflexivity|constructor].
      - destruct (is_excluded excluded d).
        + injection H1 as <-. split; [reflexivity|constructor].
        + now apply (payout_loop_dry _ _ _ _ _ _ _ Hd H1). }
    destruct Hr1 as [Hn1 Hf1]. rewrite Hn1.
    destruct (payout_entries env today excluded entries n) as [r2|] eqn:H2; [|discriminate].
    intros [= <-]. destruct (IH _ eq_refl) as [Hn2 Hf2]. cbn [net effects].
    split; [exact Hn2|]. now apply Forall_app.
Qed.

(** A confirmed chunk leaves a balance that is not negative. *)
Lemma payout_loop_nonneg fuel env today d data n r :
  0 <= balance data ->
  payout_loop fuel env today d data n = Some r -> 0 <= balance (value r).
Proof.
  revert data n r. induction fuel as [|fuel IH]; intros data n r H0; [discriminate|].
  cbn [payout_loop]. destruct (geb (balance data) SBI_CHUNK) eqn:Eb.
  - destruct (sendSBI env d n) as [[success n'] effs]. destruct success.
    + destruct (payout_loop fuel env today d (confirm today data) n') as [r'|] eqn:Hr';
        [|discriminate].
      intros [= <-]. cbn [value]. refine (IH _ _ _ _ Hr').
      cbn [confirm balance]. apply toFixed_nonneg.
      apply geb_true in Eb. unfold SBI_CHUNK in *. lra.
    + now intros [= <-].
  - now intros [= <-].
Qed.

Lemma payout_entries_nonneg env today excluded entries n r :
  nonnegative entries ->
  payout_entries env today excluded entries n = Some r -> nonnegative (value r).
Proof.
  unfold nonnegative. intros H. revert n r.
  induction H as [|[d data] entries Hd _ IH]; intros n r.
  - now intros [= <-].
  - cbn [payout_entries].
    destruct (payout_entry env today excluded d data n) as [r1|] eqn:H1; [|discriminate].
    destruct (payout_entries env today excluded entries (net r1)) as [r2|] eqn:H2;
      [|discriminate].
    intros [= <-]. cbn [value]. constructor; [|now apply (IH _ _ H2)].
    cbn [snd] in *. unfold payout_entry in H1.
    destruct (String.eqb d "_meta"); [now injection H1 as <-|].
    destruct (is_excluded excluded d); [now injection H1 as <-|].
    now apply (payout_loop_nonneg _ _ _ _ _ _ _ Hd H1).
Qed.

Lemma update_keys name f (balances : Balances) :
  map fst (update name f balances) = map fst balances.
Proof.
  induction balances as [|[k e] rest IH]; [reflexivity|].
  cbn [update]. destruct (String.eqb k name); cbn [map fst]; [reflexivity|now f_equal].
Qed.

Lemma accrue_one_keys multiplier today balances delegator :
  exists added, map fst (accrue_one multiplier today balances delegator) =
                map fst balances ++ added.
Proof.
  destruct delegator as [name base]. unfold accrue_one. rewrite update_keys.
  destruct (get name balances); [|destruct (Objects.inherited name)].
  - exists []. now rewrite app_nil_r.
  - exists []. now rewrite app_nil_r.
  - eexists. now rewrite map_app.
Qed.

Lemma accrue_one_nonneg multiplier today balances delegator :
  nonnegative balances -> 0 <= delegator.2 -> 0 <= multiplier ->
  nonnegative (accrue_one multiplier today balances delegator).
Proof.
  destruct delegator as [name base]. cbn [snd]. intros Hb H0 Hm. unfold accrue_one.
  assert (Hadj : 0 <= formatHIVE (base * multiplier)).
  { apply toFixed_nonneg. now apply Qmult_le_0_compat. }
  set (b := match get name balances with
            | Some _ => balances
            | None => _
            end).
  assert (Hb' : nonnegative b).
  { unfold b. destruct (get name balances); [exact Hb|].
    destruct (Objects.inherited name); [exact Hb|].
    apply Forall_app. split; [exact Hb|]. constructor; [cbn; lra|constructor]. }
  clearbody b. revert b Hb'.
  intros b Hb'. unfold nonnegative in *.
  induction Hb' as [|[k e] rest He Hrest IH]; [constructor|].
  cbn [update]. destruct (String.eqb k name).
  - constructor; [|exact Hrest].
    cbn [snd credit balance] in *. apply toFixed_nonneg. lra.
  - constructor; [exact He|exact IH].
Qed.

Lemma accrue_nonneg multiplier today balances delegators :
  nonnegative balances -> Forall (fun kv => 0 <= kv.2) delegators -> 0 <= multiplier ->
  nonnegative (accrue multiplier today balances delegators).
Proof.
  intros Hb Hd Hm. unfold accrue. revert balances Hb.
  induction Hd as [|dl delegators H0 _ IH]; intros balances Hb; [exact Hb|].
  cbn [fold_left]. apply IH. now apply accrue_one_nonneg.
Qed.

Lemma accrue_keys multiplier today balances delegators :
  exists added, map fst (accrue multiplier today balances delegators) =
                map fst balances ++ added.
Proof.
  unfold accrue. revert balances.
  induction delegators as [|dl delegators IH]; intros balances.
  - exists []. now rewrite app_nil_r.
  - cbn [fold_left].
    destruct (accrue_one_keys multiplier today balances dl) as [a1 H1].
    destruct (IH (accrue_one multiplier today balances dl)) as [a2 H2].
    exists (a1 ++ a2). now rewrite H2, H1, app_assoc.
Qed.

(** Chunks taken from an amount leave an amount. *)
Lemma iter_balance today data k :
  is_amount (balance data) ->
  balance (Nat.iter k (confirm today) data)
    == balance data - inject_Z (Z.of_nat k) /\
  is_amount (balance (Nat.iter k (confirm today) data)).
Proof.
  unfold is_amount, formatHIVE. intros Hb.
  induction k as [|k [IHb IHa]].
  - cbn [Nat.iter nat_rect]. change (inject_Z (Z.of_nat 0)) with 0.
    split; [ring|exact Hb].
  - change (Nat.iter (S k) (confirm today) data)
      with (confirm today (Nat.iter k (confirm today) data)).
    set (prev := Nat.iter k (confirm today) data) in *.
    cbn [confirm balance]. unfold formatHIVE, SBI_CHUNK.
    assert (Eb : toFixed 3 (balance prev - 1) == balance prev - 1).
    { assert (E : balance prev - 1 == balance prev + inject_Z (-1)) by ring.
      rewrite (toFixed_comp 3 _ _ E), E. now apply toFixed_fixpoint_shift. }
    assert (Es : inject_Z (Z.of_nat (S k)) == inject_Z (Z.of_nat k) + 1).
    { rewrite Nat2Z.inj_succ, <- Z.add_1_r, inject_Z_plus. reflexivity. }
    clearbody prev. split.
    + rewrite Eb, IHb, Es. ring.
    + rewrite (toFixed_comp 3 _ _ Eb). reflexivity.
Qed.

(** The payout run when every attempt succeeds, seen from one delegator
    who is neither [_meta] nor excluded. *)
Lemma processSBIPayouts_all env today d n delegator data :
  always_succeeds env n ->
  NoDup (map fst (stored_balances d)) ->
  get delegator (stored_balances d) = Some data ->
  delegator <> "_meta"%string ->
  is_excluded (getExcludedDelegators env (config_json d)) delegator = false ->
  exists r k,
    processSBIPayouts env today d n = Some r /\
    get delegator (stored_balances (disk r)) = Some (Nat.iter k (confirm today) data) /\
    confirmed_for delegator (trace r) = k /\
    attempts_for delegator (trace r) = k /\
    logged_for delegator (stored_log (disk r)) =
      (logged_for delegator (stored_log d) + k)%nat /\
    balance (Nat.iter k (confirm today) data) < SBI_CHUNK /\
    (forall j, (j < k)%nat -> SBI_CHUNK <= balance (Nat.iter j (confirm today) data)).
Proof.
  intros Hall Hnd Hget Hmeta Hex.
  unfold processSBIPayouts. fold (stored_balances d). fold (stored_log d).
  destruct (payout_entries_total env today
              (getExcludedDelegators env (config_json d)) (stored_balances d) n)
    as [r Hr].
  rewrite Hr.
  destruct (payout_entries_at _ _ _ _ _ _ _ _ Hr Hnd Hget)
    as (n1 & r1 & Ho & Hp & Hg & Ha & Hc).
  unfold payout_entry in Hp.
  apply String.eqb_neq in Hmeta. rewrite Hmeta, Hex in Hp.
  destruct (payout_loop_all _ _ _ _ _ _ _
              (always_succeeds_outcome env n n1 Ho Hall) Hp)
    as (k & Hv & Hck & Hak & Hlt & Hge).
  eexists _, k. split; [reflexivity|].
  cbn [trace disk].
  unfold attempts_for, confirmed_for, stored_balances, stored_log in *.
  cbn [save_log save_balances delegator_balances_json sbi_log_json loadJSON].
  rewrite !count_app. cbn [count List.filter is_attempt_for is_confirmed_for length].
  rewrite !Nat.add_0_r.
  split; [now rewrite Hg, Hv|]. split; [now rewrite Hc|]. split; [now rewrite Ha|].
  split; [|split; [now rewrite <- Hv|exact Hge]].
  unfold logged_for. rewrite count_app. f_equal.
  fold (logged_for delegator (pushed r)).
  rewrite (payout_entries_logged _ _ _ _ _ _ delegator Hr).
  unfold confirmed_for. now rewrite Hc.
Qed.

Lemma credit_exact today adjusted e :
  is_amount (balance e) ->
  balance (credit today (formatHIVE adjusted) e) == balance e + formatHIVE adjusted /\
  is_amount (balance (credit today (formatHIVE adjusted) e)).
Proof.
  intros Ha. cbn [credit balance].
  assert (E : formatHIVE (balance e + formatHIVE adjusted) ==
              balance e + formatHIVE adjusted).
  { unfold formatHIVE at 1.
    apply RoundingFacts.toFixed_fixpoint_plus; [exact Ha|].
    unfold formatHIVE. now rewrite RoundingFacts.toFixed_idem. }
  split; [exact E|]. unfold is_amount, formatHIVE.
  now rewrite RoundingFacts.toFixed_idem.
Qed.

End PayoutShape.

(** Property X22.
    [sendSBI] makes at most three attempts and none after a confirmed one;
    it reports success exactly when its last attempt was confirmed (a dry
    run counts as confirmed).  Outside a dry run every attempt is one call
    of the node, and the node index stays inside [HIVE_NODES]. *)
Theorem sendSBI_stops_at_first_confirmation (env : SendSBI.Env) (delegator : string)
    (n : SendSBI.Net) :
  let '(success, n', effs) := SendSBI.sendSBI env delegator n in
  (length effs <= 3)%nat /\
  (forall k e, effs !! k = Some e ->
     Observe.is_confirmed_for delegator e = true -> S k = length effs) /\
  (success = true <->
     exists e, last effs = Some e /\ Observe.is_confirmed_for delegator e = true) /\
  (SendSBI.IS_DRY_RUN env = false ->
     SendSBI.calls n' = (SendSBI.calls n + length effs)%nat) /\
  ((SendSBI.currentNodeIndex n < length SendSBI.HIVE_NODES)%nat ->
   (SendSBI.currentNodeIndex n' < length SendSBI.HIVE_NODES)%nat).
Proof.
  unfold SendSBI.sendSBI. destruct (SendSBI.IS_DRY_RUN env) eqn:Hd.
  - cbn [length]. split; [lia|]. split; [|split; [|split]].
    + intros k e H _. destruct k as [|k]; [reflexivity|]. destruct k; discriminate.
    + split; [|reflexivity]. intros _. eexists. split; [reflexivity|].
      cbn. apply SendSBIFacts.eqb_refl_true.
    + discriminate.
    + trivial.
  - destruct (String.eqb (SendSBI.ACTIVE_KEY env) "").
    + cbn [length]. split; [lia|]. split; [|split; [|split]].
      * intros k e H. destruct k; discriminate.
      * split; [discriminate|]. intros (e & H & _). discriminate.
      * intros _. lia.
      * trivial.
    + pose proof (PayoutShape.try_transfer_discipline 3 env delegator n) as H.
      destruct (SendSBI.try_transfer 3 env delegator n) as [[success n'] effs].
      destruct H as (H1 & H2 & H3 & H4 & _ & H6).
      split; [exact H1|]. split; [exact H3|]. split; [exact H4|].
      split; [intros _; exact H2|exact H6].
Qed.

(** Property X23.
    Without a key and outside a dry run the payout run sends nothing and
    changes nothing: it makes no attempt, and both files are written back
    with the content they had. *)
Theorem missing_key_sends_nothing (env : SendSBI.Env) (today : string)
    (d : SendSBI.Disk) (n : SendSBI.Net) :
  SendSBI.IS_DRY_RUN env = false ->
  SendSBI.ACTIVE_KEY env = ""%string ->
  exists r,
    SendSBI.processSBIPayouts env today d n = Some r /\
    SendSBI.trace r = [SendSBI.Save_balances (Observe.stored_balances d);
                       SendSBI.Save_log (Observe.stored_log d)] /\
    Observe.stored_balances (SendSBI.disk r) = Observe.stored_balances d /\
    Observe.stored_log (SendSBI.disk r) = Observe.stored_log d /\
    SendSBI.net_after r = n.
Proof.
  intros Hd Hk. unfold SendSBI.processSBIPayouts. cbv zeta.
  rewrite (PayoutShape.payout_entries_no_key env today _ _ n Hd Hk).
  eexists. split; [reflexivity|].
  cbn [SendSBI.trace SendSBI.disk SendSBI.net_after SendSBI.value SendSBI.pushed
       SendSBI.net SendSBI.effects app].
  rewrite app_nil_r. repeat split.
Qed.

Lemma missing_key_sends_nothing_witness :
  let env := {| SendSBI.IS_DRY_RUN := false; SendSBI.HIVE_USER := "bayanihive";
                SendSBI.ACTIVE_KEY := ""; SendSBI.SBI_EXCLUDE := None |} in
  exists r,
    SendSBI.processSBIPayouts env Scenario.today Scenario.disk_alice Scenario.net_ok
      = Some r /\
    SendSBI.trace r = [SendSBI.Save_balances (Observe.stored_balances Scenario.disk_alice);
                       SendSBI.Save_log (Observe.stored_log Scenario.disk_alice)] /\
    Observe.stored_balances (SendSBI.disk r) = Observe.stored_balances Scenario.disk_alice /\
    Observe.stored_log (SendSBI.disk r) = Observe.stored_log Scenario.disk_alice /\
    SendSBI.net_after r = Scenario.net_ok.
Proof.
  intros env.
  apply (missing_key_sends_nothing env Scenario.today Scenario.disk_alice Scenario.net_ok);
    reflexivity.
Defined.

(** Property X24.
    When every attempt is confirmed, a delegator who is neither excluded
    nor [_meta] is paid every whole chunk of a non-negative balance: as many
    attempts, all confirmed, as the balance has whole HIVE, and the
    fraction is what stays. *)
Theorem all_confirmed_pays_every_chunk (env : SendSBI.Env) (today : string)
    (d : SendSBI.Disk) (n : SendSBI.Net)
    (delegator : string) (data : SendSBI.BalanceEntry) :
  Observe.always_succeeds env n ->
  NoDup (map fst (Observe.stored_balances d)) ->
  Accumulator.get delegator (Observe.stored_balances d) = Some data ->
  delegator <> "_meta"%string ->
  SendSBI.is_excluded (SendSBI.getExcludedDelegators env (SendSBI.config_json d))
    delegator = false ->
  Observe.is_amount (SendSBI.balance data) ->
  0 <= SendSBI.balance data ->
  let chunks := Z.to_nat (Qfloor (SendSBI.balance data)) in
  exists r data',
    SendSBI.processSBIPayouts env today d n = Some r /\
    Observe.attempts_for delegator (SendSBI.trace r) = chunks /\
    Observe.confirmed_for delegator (SendSBI.trace r) = chunks /\
    Accumulator.get delegator (Observe.stored_balances (SendSBI.disk r)) = Some data' /\
    SendSBI.balance data' == SendSBI.balance data - inject_Z (Qfloor (SendSBI.balance data)) /\
    0 <= SendSBI.balance data' /\ SendSBI.balance data' < SendSBI.SBI_CHUNK.
Proof.
  intros Hall Hnd Hget Hmeta Hex Hamt H0 chunks.
  destruct (PayoutShape.processSBIPayouts_all env today d n delegator data
              Hall Hnd Hget Hmeta Hex)
    as (r & k & Hr & Hg & Hc & Ha & _ & Hlt & Hge).
  destruct (PayoutShape.iter_balance today data k Hamt) as [Hb _].
  assert (Hk : Z.of_nat k = Qfloor (SendSBI.balance data)).
  { apply PayoutShape.chunks_floor; [exact H0| |].
    - rewrite <- Hb. exact Hlt.
    - intros j Hj. specialize (Hge j Hj).
      destruct (PayoutShape.iter_balance today data j Hamt) as [Hbj _].
      rewrite Hbj in Hge. exact Hge. }
  assert (Hch : chunks = k) by (unfold chunks; rewrite <- Hk; apply Nat2Z.id).
  exists r, (Nat.iter k (SendSBI.confirm today) data).
  split; [exact Hr|]. split; [now rewrite Hch|]. split; [now rewrite Hch|].
  split; [exact Hg|]. split; [now rewrite Hb, Hk|]. split; [|exact Hlt].
  rewrite Hb, Hk. pose proof (Qfloor_le (SendSBI.balance data)). lra.
Qed.

Lemma all_confirmed_pays_every_chunk_witness :
  exists r data',
    SendSBI.processSBIPayouts Scenario.env_live Scenario.today
      Scenario.disk_alice Scenario.net_ok = Some r /\
    Observe.attempts_for "alice" (SendSBI.trace r) = 2%nat /\
    Observe.confirmed_for "alice" (SendSBI.trace r) = 2%nat /\
    Accumulator.get "alice" (Observe.stored_balances (SendSBI.disk r)) = Some data' /\
    SendSBI.balance data' == (24 # 10) - inject_Z 2 /\
    0 <= SendSBI.balance data' /\ SendSBI.balance data' < SendSBI.SBI_CHUNK.
Proof.
  apply (all_confirmed_pays_every_chunk Scenario.env_live Scenario.today
           Scenario.disk_alice Scenario.net_ok "alice" Scenario.alice_2_4).
  - right. split; [discriminate|reflexivity].
  - apply (bool_decide_unpack _). vm_compute. exact I.
  - reflexivity.
  - discriminate.
  - vm_compute. reflexivity.
  - reflexivity.
  - discriminate.
Defined.

(** Property X25.
    A dry run broadcasts nothing and does not call the nodes, yet it debits
    and logs as a real run does: a delegator with at least one chunk, who
    is neither excluded nor [_meta], ends with less than a chunk in the
    saved balances and with new entries in the saved log. *)
Theorem dry_run_debits_without_broadcast (env : SendSBI.Env) (today : string)
    (d : SendSBI.Disk) (n : SendSBI.Net) :
  SendSBI.IS_DRY_RUN env = true ->
  exists r,
    SendSBI.processSBIPayouts env today d n = Some r /\
    Forall (fun e => PayoutNotions.is_broadcast e = false) (SendSBI.trace r) /\
    SendSBI.net_after r = n /\
    forall delegator data,
      NoDup (map fst (Observe.stored_balances d)) ->
      Accumulator.get delegator (Observe.stored_balances d) = Some data ->
      delegator <> "_meta"%string ->
      SendSBI.is_excluded (SendSBI.getExcludedDelegators env (SendSBI.config_json d))
        delegator = false ->
      SendSBI.SBI_CHUNK <= SendSBI.balance data ->
      exists data',
        Accumulator.get delegator (Observe.stored_balances (SendSBI.disk r)) = Some data' /\
        SendSBI.balance data' < SendSBI.SBI_CHUNK /\
        (Observe.logged_for delegator (Observe.stored_log d) <
         Observe.logged_for delegator (Observe.stored_log (SendSBI.disk r)))%nat.
Proof.
  intros Hd.
  destruct (SendSBIFacts.processSBIPayouts_total env today d n) as [r Hr].
  exists r. split; [exact Hr|].
  assert (Hshape : Forall (fun e => PayoutNotions.is_broadcast e = false) (SendSBI.trace r) /\
                   SendSBI.net_after r = n).
  { unfold SendSBI.processSBIPayouts in Hr. cbv zeta in Hr.
    destruct (SendSBI.payout_entries env today _ _ n) as [r0|] eqn:H0; [|discriminate].
    injection Hr as <-. cbn [SendSBI.trace SendSBI.net_after].
    destruct (PayoutShape.payout_entries_dry _ _ _ _ _ _ Hd H0) as [Hn Hf].
    split; [|exact Hn]. apply Forall_app. split; [exact Hf|]. repeat constructor. }
  destruct Hshape as [Hf Hn]. split; [exact Hf|]. split; [exact Hn|].
  intros delegator data Hnd Hget Hmeta Hex Hb.
  destruct (PayoutShape.processSBIPayouts_all env today d n delegator data
              (or_introl Hd) Hnd Hget Hmeta Hex)
    as (r' & k & Hr' & Hg & _ & _ & Hl & Hlt & _).
  rewrite Hr in Hr'. injection Hr' as <-.
  exists (Nat.iter k (SendSBI.confirm today) data).
  split; [exact Hg|]. split; [exact Hlt|].
  rewrite Hl. destruct k as [|k]; [|lia].
  cbn [Nat.iter nat_rect] in Hlt. lra.
Qed.

Lemma dry_run_debits_without_broadcast_witness :
  let env := {| SendSBI.IS_DRY_RUN := true; SendSBI.HIVE_USER := "bayanihive";
                SendSBI.ACTIVE_KEY := ""; SendSBI.SBI_EXCLUDE := None |} in
  exists r data',
    SendSBI.processSBIPayouts env Scenario.today Scenario.disk_alice Scenario.net_ok
      = Some r /\
    Forall (fun e => PayoutNotions.is_broadcast e = false) (SendSBI.trace r) /\
    SendSBI.net_after r = Scenario.net_ok /\
    Accumulator.get "alice" (Observe.stored_balances (SendSBI.disk r)) = Some data' /\
    SendSBI.balance data' < SendSBI.SBI_CHUNK /\
    (Observe.logged_for "alice" (Observe.stored_log Scenario.disk_alice) <
     Observe.logged_for "alice" (Observe.stored_log (SendSBI.disk r)))%nat.
Proof.
  intros env.
  destruct (dry_run_debits_without_broadcast env Scenario.today Scenario.disk_alice
              Scenario.net_ok eq_refl) as (r & Hr & Hf & Hn & H).
  destruct (H "alice"%string Scenario.alice_2_4) as (data' & Hg & Hlt & Hl).
  - apply (bool_decide_unpack _). vm_compute. exact I.
  - reflexivity.
  - discriminate.
  - vm_compute. reflexivity.
  - discriminate.
  - exists r, data'. repeat split; assumption.
Defined.

(** Property X26.
    Balances that are not negative stay so through the whole accumulation
    stage, accrual and payouts, whatever the nodes answer, when no reward
    of the summary is negative. *)
Theorem balances_stay_nonnegative (env : SendSBI.Env) (today : string)
    (d : SendSBI.Disk) (n : SendSBI.Net) (summary : FetchRewards.Summary) :
  FetchRewards.fetchRewards (SendSBI.payout_summary_json d) = Done summary ->
  PayoutNotions.nonnegative (Observe.stored_balances d) ->
  Forall (fun kv => 0 <= kv.2) (FetchRewards.delegators summary) ->
  exists r,
    Accumulator.accumulate env today d n = Some (Done r) /\
    PayoutNotions.nonnegative (Observe.stored_balances (SendSBI.disk r)).
Proof.
  intros Hs Hb Hd.
  destruct (accumulate_done env today d n summary Hs) as (r & Hr & ->).
  eexists. split; [reflexivity|]. cbn [SendSBI.disk].
  unfold SendSBI.processSBIPayouts in Hr. cbv zeta in Hr.
  destruct (SendSBI.payout_entries env today _ _ n) as [r0|] eqn:H0; [|discriminate].
  injection Hr as <-. unfold Observe.stored_balances.
  cbn [SendSBI.disk SendSBI.save_log SendSBI.save_balances
       SendSBI.delegator_balances_json loadJSON] in *.
  refine (PayoutShape.payout_entries_nonneg _ _ _ _ _ _ _ H0).
  apply PayoutShape.accrue_nonneg; [exact Hb|exact Hd|].
  pose proof (MultiplierFacts.getMultiplier_floor
                (FetchRewards.total_delegation_hp summary)).
  lra.
Qed.

Lemma balances_stay_nonnegative_witness :
  exists r,
    Accumulator.accumulate Scenario.env_live Scenario.today
      (Scenario.with_summary Scenario.disk_alice Scenario.summary_no_earnings)
      Scenario.net_ok = Some (Done r) /\
    PayoutNotions.nonnegative (Observe.stored_balances (SendSBI.disk r)).
Proof.
  eapply (balances_stay_nonnegative Scenario.env_live Scenario.today
            (Scenario.with_summary Scenario.disk_alice Scenario.summary_no_earnings)
            Scenario.net_ok).
  - reflexivity.
  - repeat constructor; discriminate.
  - repeat constructor; discriminate.
Defined.

(** Property X27.
    The payout run leaves alone what it has no reason to touch: the keys of
    the balances and their order, and the entry of [_meta] and of every
    delegator with less than a chunk, for whom no attempt is made. *)
Theorem payout_skips_small_balances (env : SendSBI.Env) (today : string)
    (d : SendSBI.Disk) (n : SendSBI.Net)
    (delegator : string) (data : SendSBI.BalanceEntry) :
  NoDup (map fst (Observe.stored_balances d)) ->
  Accumulator.get delegator (Observe.stored_balances d) = Some data ->
  delegator = "_meta"%string \/ SendSBI.balance data < SendSBI.SBI_CHUNK ->
  exists r,
    SendSBI.processSBIPayouts env today d n = Some r /\
    map fst (Observe.stored_balances (SendSBI.disk r)) =
      map fst (Observe.stored_balances d) /\
    Accumulator.get delegator (Observe.stored_balances (SendSBI.disk r)) = Some data /\
    Observe.attempts_for delegator (SendSBI.trace r) = 0%nat.
Proof.
  intros Hnd Hget Hsmall.
  unfold SendSBI.processSBIPayouts. fold (Observe.stored_balances d).
  fold (Observe.stored_log d).
  destruct (SendSBIFacts.payout_entries_total env today
              (SendSBI.getExcludedDelegators env (SendSBI.config_json d))
              (Observe.stored_balances d) n) as [r Hr].
  rewrite Hr.
  destruct (SendSBIFacts.payout_entries_at _ _ _ _ _ _ _ _ Hr Hnd Hget)
    as (n1 & r1 & Ho & Hp & Hg & Ha & Hc).
  destruct (SendSBIFacts.payout_entries_shape _ _ _ _ _ _ Hr) as (Hk & _ & _).
  assert (Hr1 : r1 = {| SendSBI.value := data; SendSBI.pushed := [];
                        SendSBI.net := n1; SendSBI.effects := [] |}).
  { unfold SendSBI.payout_entry in Hp.
    destruct (String.eqb delegator "_meta") eqn:Em; [now injection Hp|].
    destruct (SendSBI.is_excluded _ delegator); [now injection Hp|].
    destruct Hsmall as [->|Hlt]; [discriminate|].
    unfold SendSBI.fuel_for in Hp. cbn [SendSBI.payout_loop] in Hp.
    apply (geb_false (SendSBI.balance data) SendSBI.SBI_CHUNK) in Hlt.
    rewrite Hlt in Hp. now injection Hp. }
  subst r1. eexists. split; [reflexivity|].
  cbn [SendSBI.trace SendSBI.disk SendSBI.value SendSBI.effects] in *.
  unfold Observe.stored_balances at 1 2.
  cbn [SendSBI.save_log SendSBI.save_balances SendSBI.delegator_balances_json loadJSON].
  split; [exact Hk|]. split; [exact Hg|].
  unfold Observe.attempts_for in *. rewrite SendSBIFacts.count_app, Ha. reflexivity.
Qed.

Lemma payout_skips_small_balances_witness :
  let d :=
    {| SendSBI.delegator_balances_json :=
         Parsed [("alice"%string, Scenario.alice_2_4);
                 ("bob"%string, {| SendSBI.balance := 3 # 4; SendSBI.total_sent := None;
                                   SendSBI.last_updated := "2024-02-27" |})];
       SendSBI.sbi_log_json := Parsed [];
       SendSBI.config_json := Absent;
       SendSBI.payout_summary_json := Absent |} in
  exists r,
    SendSBI.processSBIPayouts Scenario.env_live Scenario.today d Scenario.net_ok = Some r /\
    map fst (Observe.stored_balances (SendSBI.disk r)) = ["alice"; "bob"]%string /\
    Accumulator.get "bob" (Observe.stored_balances (SendSBI.disk r)) =
      Some {| SendSBI.balance := 3 # 4; SendSBI.total_sent := None;
              SendSBI.last_updated := "2024-02-27" |} /\
    Observe.attempts_for "bob" (SendSBI.trace r) = 0%nat.
Proof.
  intros d.
  apply (payout_skips_small_balances Scenario.env_live Scenario.today d Scenario.net_ok
           "bob" {| SendSBI.balance := 3 # 4; SendSBI.total_sent := None;
                    SendSBI.last_updated := "2024-02-27" |}).
  - apply (bool_decide_unpack _). vm_compute. exact I.
  - reflexivity.
  - right. reflexivity.
Defined.

(** Property X28.
    [accumulate] credits each delegator of the summary whose name is a key
    of the balances, or is not a property of [Object.prototype], with the
    reward times the multiplier, rounded to three decimals, on top of the
    stored balance (0 for a new delegator), and touches nothing else:
    other delegators keep their entry, nobody's [total_sent] changes, and
    the keys already there keep their place.  On a balance with three
    decimals the credit is exact.  A listed name without entry that
    [Object.prototype] knows ([constructor] for one) gets no entry. *)
Theorem accrue_credits_listed_delegators (multiplier : Q) (today : string)
    (balances : SendSBI.Balances) (delegators : list (string * Q)) :
  NoDup (map fst delegators) ->
  let after := Accumulator.accrue multiplier today balances delegators in
  (forall name base_reward, (name, base_reward) ∈ delegators ->
     AccrualNotions.creditable balances name = true ->
     let before := default (PayoutNotions.fresh today) (Accumulator.get name balances) in
     exists e,
       Accumulator.get name after = Some e /\
       SendSBI.balance e =
         formatHIVE (SendSBI.balance before + formatHIVE (base_reward * multiplier)) /\
       SendSBI.total_sent e = SendSBI.total_sent before /\
       SendSBI.last_updated e = today /\
       (Observe.is_amount (SendSBI.balance before) ->
        SendSBI.balance e ==
          SendSBI.balance before + formatHIVE (base_reward * multiplier))) /\
  (forall name,
     name ∉ map fst delegators \/ AccrualNotions.creditable balances name = false ->
     Accumulator.get name after = Accumulator.get name balances) /\
  exists added, map fst after = map fst balances ++ added.
Proof.
  intros Hnd after. split; [|split].
  - intros name base Hin Hc before. eexists.
    split; [apply (StageFacts.accrue_listed _ _ _ _ _ _ Hnd Hin Hc)|].
    split; [reflexivity|]. split; [reflexivity|]. split; [reflexivity|].
    intros Ha. now apply PayoutShape.credit_exact.
  - intros name [Hn|Hc].
    + now apply StageFacts.accrue_other.
    + now apply StageFacts.accrue_inherited.
  - apply PayoutShape.accrue_keys.
Qed.

Lemma accrue_credits_listed_delegators_witness :
  let after := Accumulator.accrue 3 Scenario.today
                 [("alice"%string, Scenario.alice_2_4)]
                 [("bob"%string, 1 # 8); ("constructor"%string, 1 # 2);
                  ("alice"%string, 1 # 5)] in
  (exists e, Accumulator.get "alice" after = Some e /\ SendSBI.balance e == 3) /\
  (exists e, Accumulator.get "bob" after = Some e /\ SendSBI.balance e == 3 # 8) /\
  Accumulator.get "carol" after = None /\
  Accumulator.get "constructor" after = None.
Proof.
  intros after.
  destruct (accrue_credits_listed_delegators 3 Scenario.today
              [("alice"%string, Scenario.alice_2_4)]
              [("bob"%string, 1 # 8); ("constructor"%string, 1 # 2);
               ("alice"%string, 1 # 5)]) as (H1 & H2 & _).
  - apply (bool_decide_unpack _). vm_compute. exact I.
  - split; [|split; [|split]].
    + destruct (H1 "alice"%string (1 # 5)) as (e & He & _ & _ & _ & Hx);
        [right; right; left|reflexivity|].
      exists e. split; [exact He|]. rewrite Hx; reflexivity.
    + destruct (H1 "bob"%string (1 # 8)) as (e & He & _ & _ & _ & Hx);
        [left|reflexivity|].
      exists e. split; [exact He|]. rewrite Hx; reflexivity.
    + apply (H2 "carol"%string). left.
      apply (bool_decide_unpack _). vm_compute. exact I.
    + apply (H2 "constructor"%string). right. reflexivity.
Defined.

(** Property X29.
    Nothing in the accrual looks at the date of the summary or at what was
    credited before: accruing the same summary a second time credits a
    second time every listed delegator whose name is a key of the balances
    or is not a property of [Object.prototype]. *)
Theorem rerun_credits_again (multiplier : Q) (today later : string)
    (balances : SendSBI.Balances) (delegators : list (string * Q))
    (name : string) (base_reward : Q) :
  NoDup (map fst delegators) ->
  (name, base_reward) ∈ delegators ->
  AccrualNotions.creditable balances name = true ->
  let before := default (PayoutNotions.fresh today) (Accumulator.get name balances) in
  Observe.is_amount (SendSBI.balance before) ->
  let once := Accumulator.accrue multiplier today balances delegators in
  let twice := Accumulator.accrue multiplier later once delegators in
  exists e1 e2,
    Accumulator.get name once = Some e1 /\
    Accumulator.get name twice = Some e2 /\
    SendSBI.balance e1 ==
      SendSBI.balance before + formatHIVE (base_reward * multiplier) /\
    SendSBI.balance e2 ==
      SendSBI.balance before + 2 * formatHIVE (base_reward * multiplier).
Proof.
  intros Hnd Hin Hc before Ha once twice.
  pose proof (StageFacts.accrue_listed multiplier today balances delegators
                name base_reward Hnd Hin Hc) as H1.
  fold once in H1. fold before in H1.
  assert (Hc' : AccrualNotions.creditable once name = true).
  { unfold AccrualNotions.creditable. now rewrite H1. }
  pose proof (StageFacts.accrue_listed multiplier later once delegators
                name base_reward Hnd Hin Hc') as H2.
  fold twice in H2. rewrite H1 in H2. cbn [default from_option id] in H2.
  destruct (PayoutShape.credit_exact today (base_reward * multiplier) before Ha)
    as [E1 A1].
  destruct (PayoutShape.credit_exact later (base_reward * multiplier) _ A1) as [E2 _].
  eexists _, _. split; [exact H1|]. split; [exact H2|]. split; [exact E1|].
  rewrite E2, E1. ring.
Qed.

Lemma rerun_credits_again_witness :
  let once := Accumulator.accrue 3 Scenario.today
                [("alice"%string, Scenario.alice_2_4)] [("alice"%string, 1 # 5)] in
  let twice := Accumulator.accrue 3 "2024-03-02" once [("alice"%string, 1 # 5)] in
  exists e1 e2,
    Accumulator.get "alice" once = Some e1 /\
    Accumulator.get "alice" twice = Some e2 /\
    SendSBI.balance e1 == (24 # 10) + formatHIVE ((1 # 5) * 3) /\
    SendSBI.balance e2 == (24 # 10) + 2 * formatHIVE ((1 # 5) * 3).
Proof.
  apply (rerun_credits_again 3 Scenario.today "2024-03-02"
           [("alice"%string, Scenario.alice_2_4)] [("alice"%string, 1 # 5)]
           "alice" (1 # 5)).
  - apply (bool_decide_unpack _). vm_compute. exact I.
  - left.
  - reflexivity.
  - reflexivity.
Defined.

(** ** From one stage to the next *)

Module HandoverFacts.

Lemma validate_written (l : list Allocation.DelegatorData) :
  Forall (fun r => Allocation.name r <> ""%string) l ->
  FetchRewards.validate_delegators
    (map (fun d => Some {| FetchRewards.raw_name := Some (Allocation.name d);
                           FetchRewards.raw_base_reward :=
                             Some (Allocation.base_reward d) |}) l)
  = Done (map (fun r => (Allocation.name r, Allocation.base_reward r)) l).
Proof.
  induction 1 as [|r l Hr _ IH]; [reflexivity|].
  cbn [map FetchRewards.validate_delegators FetchRewards.raw_name
       FetchRewards.raw_base_reward].
  apply String.eqb_neq in Hr. rewrite Hr. cbn [negb]. now rewrite IH.
Qed.

(** The delegators of a summary are delegators of the history. *)
Lemma summary_names h c cutoff today fund shares s :
  Allocation.main_summary h c cutoff today fund shares = Done s ->
  Forall (fun r => is_Some (h !! Allocation.name r)) (Allocation.delegators s).
Proof.
  unfold Allocation.main_summary.
  destruct (Allocation.getActiveDelegators h) as [active|]; [|discriminate].
  destruct (Nat.eqb (length active) 0); [discriminate|].
  pose proof (fun d x => proj1 (EligibilityShape.eligible_fold_elem cutoff fund shares
                                 (map_to_list h) ([], 0) d x)) as Hel.
  fold (Eligibility.eligibleDelegators h cutoff fund shares) in Hel.
  destruct (Eligibility.eligibleDelegators h cutoff fund shares) as [l t].
  cbn [fst] in Hel.
  destruct (Qeq_bool t 0); [discriminate|].
  intros [= <-]. cbn [Allocation.delegators].
  unfold Allocation.allocate, Allocation.sortedDelegators.
  apply Forall_map. apply Forall_forall. intros [k x] Hin. cbn [Allocation.name].
  rewrite (SortFacts.stable_sort_Permutation Allocation.by_hp_desc l) in Hin.
  destruct (Hel k x Hin) as [H|(es & H & _)]; [now apply elem_of_nil in H|].
  apply elem_of_map_to_list in H. now exists es.
Qed.

End HandoverFacts.

(** Property X30.
    What [main] writes, [fetchRewards] accepts: the summary of a history
    without an empty delegator name, written on a day with a date, is read
    back by the accumulation stage with the same date, total, delegators
    and rewards, in the same order. *)
Theorem written_summary_is_accepted (h : Ledger.History)
    (totalCurationHive : Q) (cutoff : Z) (today : string) (fund shares : Q)
    (s : Allocation.PayoutSummary) :
  Allocation.main_summary h totalCurationHive cutoff today fund shares = Done s ->
  today <> ""%string ->
  h !! ""%string = None ->
  FetchRewards.fetchRewards (Parsed (FetchRewards.Document (FetchRewards.written s))) =
    Done {| FetchRewards.date := today;
            FetchRewards.total_delegation_hp := Allocation.total_delegation_hp s;
            FetchRewards.delegators :=
              map (fun r => (Allocation.name r, Allocation.base_reward r))
                  (Allocation.delegators s) |}.
Proof.
  intros Hs Ht Hh.
  pose proof (MainFacts.summary_not_empty _ _ _ _ _ _ _ Hs) as Hne.
  pose proof (HandoverFacts.summary_names _ _ _ _ _ _ _ Hs) as Hnames.
  assert (Hdate : Allocation.summary_date s = today).
  { unfold Allocation.main_summary in Hs.
    destruct (Allocation.getActiveDelegators h) as [active|]; [|discriminate].
    destruct (Nat.eqb (length active) 0); [discriminate|].
    destruct (Eligibility.eligibleDelegators h cutoff fund shares) as [l t].
    destruct (Qeq_bool t 0); [discriminate|]. now injection Hs as <-. }
  unfold FetchRewards.fetchRewards, FetchRewards.written.
  cbn [loadJSON FetchRewards.raw_date FetchRewards.raw_total_delegation_hp
       FetchRewards.raw_delegators FetchRewards.truthy].
  rewrite Hdate. apply String.eqb_neq in Ht. rewrite Ht. cbn [negb default from_option id].
  rewrite HandoverFacts.validate_written.
  - destruct (Allocation.delegators s); [congruence|reflexivity].
  - eapply Forall_impl; [exact Hnames|]. intros r [es Hr] Hn. cbv beta in Hn.
    rewrite Hn in Hr. congruence.
Qed.

Lemma written_summary_is_accepted_witness :
  let h := Ledger.buildDelegationHistory "bayanihive" Scenario.raw_two_events 1 2000 in
  exists s,
    Allocation.main_summary h 10 1800000000000 Scenario.today 1 2000 = Done s /\
    FetchRewards.fetchRewards (Parsed (FetchRewards.Document (FetchRewards.written s))) =
      Done {| FetchRewards.date := Scenario.today;
              FetchRewards.total_delegation_hp := Allocation.total_delegation_hp s;
              FetchRewards.delegators :=
                map (fun r => (Allocation.name r, Allocation.base_reward r))
                    (Allocation.delegators s) |}.
Proof.
  intros h.
  destruct (Allocation.main_summary h 10 1800000000000 Scenario.today 1 2000)
    as [c| |s] eqn:E; [vm_compute in E; discriminate| vm_compute in E; discriminate|].
  exists s. split; [reflexivity|].
  apply (written_summary_is_accepted h 10 1800000000000 Scenario.today 1 2000 s E).
  - discriminate.
  - vm_compute. reflexivity.
Defined.
